(** * Leader checker of the query coordinator

    A shallow embedding of
    [internal/querycoordv2/checkers/leader_checker.go] and the properties
    of its reconciliation loop.

    Go maps are [gmap]s, [map[int64]struct{}] is a [gset], slices are lists
    and [int64] values are integers in [Z] (the checker only compares and
    copies them, it does no arithmetic).  A nil pointer result is [None].
    The managers the checker reads, the activation flag, the wall clock and
    the iteration order of Go maps form an explicit world that every method
    threads through.

    Module [Shared] embeds the methods a second time, over a heap of
    shared objects, to state what they leave untouched; the two
    embeddings are shown to compute the same tasks. *)

From stdpp Require Import gmap strings list fin_maps.

Open Scope Z_scope.

(** * The program *)

(** ** Data the checker reads *)

(** [datapb.SegmentInfo], restricted to the getters the checker calls. *)
Module SegmentInfo.
Record t := mk { ID : Z; CollectionID : Z; InsertChannel : string }.
End SegmentInfo.

(** [meta.Segment]: a segment as one worker node reports it. *)
Module Segment.
Record t := mk { Info : SegmentInfo.t; Node : Z; Version : Z }.
Definition GetID (s : t) : Z := SegmentInfo.ID (Info s).
Definition GetCollectionID (s : t) : Z := SegmentInfo.CollectionID (Info s).
Definition GetInsertChannel (s : t) : string :=
  SegmentInfo.InsertChannel (Info s).
End Segment.

(** [querypb.SegmentDist]: the value type of a leader view's routing table.
    The entries of the table are taken to be non-nil, as the views built
    from a delegator's report are. *)
Module SegmentDist.
Record t := mk { NodeID : Z; Version : Z }.
Definition GetNodeID (d : t) : Z := NodeID d.
End SegmentDist.

(** [meta.LeaderView]. *)
Module LeaderView.
Record t := mk {
  ID : Z;
  CollectionID : Z;
  Channel : string;
  Segments : gmap Z SegmentDist.t;
  PartitionStatsVersions : gmap Z Z
}.
End LeaderView.

(** The channel descriptor of a target, as [GetDmChannel] returns it. *)
Module DmChannel.
Record t := mk { PartitionStatsVersions : gmap Z Z }.
Definition GetPartitionStatsVersions (c : t) : gmap Z Z :=
  PartitionStatsVersions c.
End DmChannel.

(** An element of the list [ChannelDistManager.GetByFilter] returns: a
    channel together with the leader view of its delegator. *)
Module Delegator.
Record t := mk { View : LeaderView.t }.
End Delegator.

Module Replica.
Record t := mk {
  ID : Z;
  CollectionID : Z;
  RWNodes : list Z;
  RWSQNodes : list Z
}.
Definition GetID (r : t) : Z := ID r.
Definition GetCollectionID (r : t) : Z := CollectionID r.
Definition GetRWNodes (r : t) : list Z := RWNodes r.
Definition GetRWSQNodes (r : t) : list Z := RWSQNodes r.
End Replica.

Module Collection.
Record t := mk { CollectionID : Z }.
End Collection.

(** [meta.TargetScope]; the two scopes the checker passes. *)
Inductive TargetScope := CurrentTarget | CurrentTargetFirst.

(** [common.AllPartitionsID]. *)
Definition AllPartitionsID : Z := -1.

(** ** The collaborators, as snapshots of their query results

    The managers live outside the checker's source file; each is the
    family of answers its queries give at the moment of the invocation. *)

(** [meta.Meta]: the collection manager and the replica manager. *)
Module Meta.
Record t := mk {
  GetAll : list Z;
  GetCollection : Z → option Collection.t;
  GetByCollection : Z → list Replica.t
}.
End Meta.

(** [meta.DistributionManager]: [ChannelDistManager.GetByFilter] with the
    filters [WithCollectionID2Channel] and [WithNodeID2Channel], and
    [SegmentDistManager.GetByFilter] with [WithChannel] and
    [WithReplica]. *)
Module DistributionManager.
Record t := mk {
  ChannelsByCollectionAndNode : Z → Z → list Delegator.t;
  SegmentsByChannelAndReplica : string → Replica.t → list Segment.t
}.
End DistributionManager.

(** [meta.TargetManagerInterface]. *)
Module TargetManager.
Record t := mk {
  IsNextTargetExist : Z → bool;
  IsCurrentTargetExist : Z → Z → bool;
  GetDmChannel : Z → string → TargetScope → option DmChannel.t;
  GetSealedSegment : Z → Z → TargetScope → option SegmentInfo.t
}.
End TargetManager.

(** The [LeaderChecker] struct.  [checkerActivation] is the on/off latch;
    the node manager is never read by the methods below. *)
Module LeaderChecker.
Record t := mk {
  checkerActivation : bool;
  meta : Meta.t;
  dist : DistributionManager.t;
  target : TargetManager.t
}.
End LeaderChecker.

(** ** Tasks *)

Inductive ActionType := ActionTypeGrow | ActionTypeReduce | ActionTypeUpdate.
Inductive Priority := TaskPriorityLow | TaskPriorityNormal | TaskPriorityHigh.
Inductive CheckerType := LeaderCheckerType.
Inductive TaskKind := LeaderSegmentTask | LeaderPartStatsTask.

(** [task.LeaderAction].  A field a constructor does not set keeps Go's
    zero value. *)
Module LeaderAction.
Record t := mk {
  leaderID : Z;
  workerID : Z;
  typ : ActionType;
  shard : string;
  segmentID : Z;
  version : Z;
  partStatsVersions : gmap Z Z
}.
End LeaderAction.

(** Modelled from the spec: the constructors of package [task] are not
    among the sources.  A reconciliation task carries the target
    leader-view ID, the target worker node, the action kind, the channel,
    the subject, a timestamp hint, a priority and a reason. *)
Definition NewLeaderAction (leaderID workerID : Z) (typ : ActionType)
    (shard : string) (segmentID version : Z) : LeaderAction.t :=
  LeaderAction.mk leaderID workerID typ shard segmentID version ∅.

(** Modelled from the spec: the action of an update-stats task carries the
    batch of partition-statistics versions in place of a segment. *)
Definition NewLeaderUpdatePartStatsAction (leaderID workerID : Z)
    (typ : ActionType) (shard : string) (partStatsVersions : gmap Z Z)
    : LeaderAction.t :=
  LeaderAction.mk leaderID workerID typ shard 0 0 partStatsVersions.

(** [task.LeaderTask] with its single action.  [kind] tells the two
    constructors apart. *)
Module Task.
Record t := mk {
  kind : TaskKind;
  source : CheckerType;
  collectionID : Z;
  replica : Replica.t;
  leaderID : Z;
  action : LeaderAction.t;
  priority : Priority;
  reason : string
}.
Definition SetPriority (p : Priority) (x : t) : t :=
  mk (kind x) (source x) (collectionID x) (replica x) (leaderID x)
     (action x) p (reason x).
Definition SetReason (r : string) (x : t) : t :=
  mk (kind x) (source x) (collectionID x) (replica x) (leaderID x)
     (action x) (priority x) r.
End Task.

(** Modelled from the spec: a fresh task has the priority and the reason
    its creator has yet to set. *)
Definition NewLeaderSegmentTask (source : CheckerType) (collectionID : Z)
    (replica : Replica.t) (leaderID : Z) (action : LeaderAction.t) : Task.t :=
  Task.mk LeaderSegmentTask source collectionID replica leaderID action
          TaskPriorityNormal "".

(** Modelled from the spec: as [NewLeaderSegmentTask], for an update-stats
    action. *)
Definition NewLeaderPartStatsTask (source : CheckerType) (collectionID : Z)
    (replica : Replica.t) (leaderID : Z) (action : LeaderAction.t) : Task.t :=
  Task.mk LeaderPartStatsTask source collectionID replica leaderID action
          TaskPriorityNormal "".

(** ** The world an invocation runs in *)

(** What the Go runtime decides: the readings of [time.Now().UnixNano()]
    and the order in which a [range] visits a map.  [clock n] and
    [picks n] are what the [n]-th consultation yields; [pos] counts the
    consultations made so far. *)
Module Runtime.
Record t := mk { clock : nat → Z; picks : nat → nat; pos : nat }.
End Runtime.

(** The checker with its managers, the process-wide deployment-mode flag
    and the runtime. *)
Module World.
Record t := mk {
  checker : LeaderChecker.t;
  streaming : bool;
  runtime : Runtime.t
}.
End World.

(** The world after [n] more consultations of the runtime. *)
Definition advance (n : nat) (w : World.t) : World.t :=
  let rt := World.runtime w in
  World.mk (World.checker w) (World.streaming w)
    (Runtime.mk (Runtime.clock rt) (Runtime.picks rt) (Runtime.pos rt + n)%nat).

(** A method of the checker: a function of the world that returns a result
    and the world it leaves. *)
Definition M (A : Type) : Type := World.t → A * World.t.

#[global] Instance M_ret : MRet M := λ A (x : A) w, (x, w).
#[global] Instance M_bind : MBind M := λ A B (f : A → M B) (m : M A) w,
  let '(x, w') := m w in f x w'.

(** A read of the checker's fields or of one of its managers. *)
Definition reads {A} (f : LeaderChecker.t → A) : M A :=
  λ w, (f (World.checker w), w).

(** [streamingutil.IsStreamingServiceEnabled()], a process-wide flag. *)
Definition IsStreamingServiceEnabled : M bool :=
  λ w, (World.streaming w, w).

(** [time.Now().UnixNano()]. *)
Definition timeNowUnixNano : M Z :=
  λ w, let rt := World.runtime w in
       (Runtime.clock rt (Runtime.pos rt), advance 1 w).

(** The order of a [range] over a map: the runtime picks the next entry
    among those not yet visited. *)
Fixpoint iterOrder {A} (choices : list nat) (l : list A) : list A :=
  match choices with
  | [] => l
  | c :: cs =>
      let i := (c `mod` length l)%nat in
      match l !! i with
      | Some x => x :: iterOrder cs (delete i l)
      | None => []
      end
  end.

(** [for k, v := range m { ... }] visits the entries of [m] in the order
    the runtime picks. *)
Definition rangeMap {K} `{Countable K} {V} (m : gmap K V) : M (list (K * V)) :=
  λ w, let rt := World.runtime w in
       let l := map_to_list m in
       (iterOrder (Runtime.picks rt <$> seq (Runtime.pos rt) (length l)) l,
        advance (length l) w).

(** [for _, x := range xs { ... }] over a slice, with the variables the
    body assigns as the loop state; [continue] leaves the state as it
    is. *)
Fixpoint forRange {A S} (xs : list A) (body : A → S → M S) (s : S) : M S :=
  match xs with
  | [] => mret s
  | x :: xs' => s' ← body x s; forRange xs' body s'
  end.

(** ** The segment version resolver *)

(** Modelled from the spec: [utils.FindMaxVersionSegments] is not among the
    sources.  For each segment ID it keeps the placement records that carry
    the highest placement version; records that tie at that version are all
    kept. *)
Definition FindMaxVersionSegments (segments : list Segment.t) : list Segment.t :=
  filter (λ s, forallb (λ s', negb (Segment.GetID s' =? Segment.GetID s)
                              || (Segment.Version s' <=? Segment.Version s))
                       segments = true)
         segments.

(** ** The checker *)

(** [utils.LeaderChecker], the type tag [ID] returns. *)
Definition ID : CheckerType := LeaderCheckerType.

(** Modelled from the spec: [checkerActivation] is not among the sources;
    [IsActive] reads the latch. *)
Definition IsActive : M bool := reads LeaderChecker.checkerActivation.

Definition readyToCheck (collectionID : Z) : M bool :=
  collection ← reads (λ c, Meta.GetCollection (LeaderChecker.meta c) collectionID);
  let metaExist := bool_decide (collection ≠ None) in
  nextExist ← reads (λ c, TargetManager.IsNextTargetExist
                            (LeaderChecker.target c) collectionID);
  targetExist ←
    (if (nextExist : bool) return M bool then mret true
     else reads (λ c, TargetManager.IsCurrentTargetExist
                        (LeaderChecker.target c) collectionID AllPartitionsID));
  mret (metaExist && targetExist).

Definition findNeedSyncPartitionStats (replica : Replica.t)
    (leaderView : LeaderView.t) (nodeID : Z) : M (list Task.t) :=
  let ret : list Task.t := [] in
  curDmlChannel ← reads (λ c, TargetManager.GetDmChannel (LeaderChecker.target c)
                     (LeaderView.CollectionID leaderView)
                     (LeaderView.Channel leaderView) CurrentTarget);
  match curDmlChannel with
  | None => mret ret
  | Some curDmlChannel =>
      let partStatsInTarget := DmChannel.GetPartitionStatsVersions curDmlChannel in
      let partStatsInLView := LeaderView.PartitionStatsVersions leaderView in
      entries ← rangeMap partStatsInTarget;
      partStatsToUpdate ←
        forRange entries (λ '(partID, psVersionInTarget) partStatsToUpdate,
          let psVersionInLView := default 0 (partStatsInLView !! partID) in
          if bool_decide (psVersionInLView < psVersionInTarget)
          then mret (<[partID := psVersionInTarget]> partStatsToUpdate)
          else mret partStatsToUpdate) (∅ : gmap Z Z);
      if bool_decide (0 < size partStatsToUpdate)%nat then
        let action := NewLeaderUpdatePartStatsAction (LeaderView.ID leaderView)
                        nodeID ActionTypeUpdate (LeaderView.Channel leaderView)
                        partStatsToUpdate in
        let t := NewLeaderPartStatsTask ID (LeaderView.CollectionID leaderView)
                   replica (LeaderView.ID leaderView) action in
        let t := Task.SetPriority TaskPriorityLow t in
        let t := Task.SetReason "sync partition stats versions" t in
        mret (ret ++ [t])
      else mret ret
  end.

Definition findNeedLoadedSegments (replica : Replica.t)
    (leaderView : LeaderView.t) (dist : list Segment.t) : M (list Task.t) :=
  let latestNodeDist := FindMaxVersionSegments dist in
  forRange latestNodeDist (λ s ret,
    segment ← reads (λ c, TargetManager.GetSealedSegment (LeaderChecker.target c)
                (LeaderView.CollectionID leaderView) (Segment.GetID s)
                CurrentTargetFirst);
    match segment with
    | None => mret ret
    | Some _ =>
        let version := LeaderView.Segments leaderView !! Segment.GetID s in
        if match version with
           | None => true
           | Some version =>
               bool_decide (SegmentDist.GetNodeID version ≠ Segment.Node s)
           end
        then
          now ← timeNowUnixNano;
          let action := NewLeaderAction (LeaderView.ID leaderView)
                          (Segment.Node s) ActionTypeGrow
                          (Segment.GetInsertChannel s) (Segment.GetID s) now in
          let t := NewLeaderSegmentTask ID (Segment.GetCollectionID s) replica
                     (LeaderView.ID leaderView) action in
          let t := Task.SetPriority TaskPriorityLow t in
          let t := Task.SetReason "add segment to leader view" t in
          mret (ret ++ [t])
        else mret ret
    end) [].

Definition findNeedRemovedSegments (replica : Replica.t)
    (leaderView : LeaderView.t) (dists : list Segment.t) : M (list Task.t) :=
  let distMap : gset Z :=
    foldl (λ distMap s, {[Segment.GetID s]} ∪ distMap) ∅ dists in
  entries ← rangeMap (LeaderView.Segments leaderView);
  forRange entries (λ '(sid, s) ret,
    let ok := bool_decide (sid ∈ distMap) in
    segment ← reads (λ c, TargetManager.GetSealedSegment (LeaderChecker.target c)
                (LeaderView.CollectionID leaderView) sid CurrentTargetFirst);
    let existInTarget := bool_decide (segment ≠ None) in
    if ok || existInTarget then mret ret
    else
      let action := NewLeaderAction (LeaderView.ID leaderView)
                      (LeaderView.ID leaderView) ActionTypeReduce
                      (LeaderView.Channel leaderView) sid 0 in
      let t := NewLeaderSegmentTask ID (LeaderView.CollectionID leaderView)
                 replica (LeaderView.ID leaderView) action in
      let t := Task.SetPriority TaskPriorityLow t in
      let t := Task.SetReason "remove segment from leader view" t in
      mret (ret ++ [t])) [].

(** The body of the loop of [Check] over the collection IDs. *)
Definition checkCollection (collectionID : Z) (tasks : list Task.t)
    : M (list Task.t) :=
  ready ← readyToCheck collectionID;
  if negb ready then mret tasks
  else
    collection ← reads (λ c, Meta.GetCollection (LeaderChecker.meta c)
                               collectionID);
    match collection with
    | None => mret tasks
    | Some _ =>
        replicas ← reads (λ c, Meta.GetByCollection (LeaderChecker.meta c)
                                 collectionID);
        forRange replicas (λ replica tasks,
          streamingEnabled ← IsStreamingServiceEnabled;
          let nodes := if (streamingEnabled : bool)
                       then Replica.GetRWSQNodes replica
                       else Replica.GetRWNodes replica in
          forRange nodes (λ node tasks,
            delegatorList ← reads (λ c,
              DistributionManager.ChannelsByCollectionAndNode
                (LeaderChecker.dist c) (Replica.GetCollectionID replica) node);
            forRange delegatorList (λ d tasks,
              let view := Delegator.View d in
              dist ← reads (λ c,
                DistributionManager.SegmentsByChannelAndReplica
                  (LeaderChecker.dist c) (LeaderView.Channel view) replica);
              loaded ← findNeedLoadedSegments replica view dist;
              let tasks := tasks ++ loaded in
              removed ← findNeedRemovedSegments replica view dist;
              let tasks := tasks ++ removed in
              synced ← findNeedSyncPartitionStats replica view node;
              let tasks := tasks ++ synced in
              mret tasks) tasks) tasks) tasks
    end.

Definition Check : M (list Task.t) :=
  active ← IsActive;
  if negb active then mret []
  else
    collectionIDs ← reads (λ c, Meta.GetAll (LeaderChecker.meta c));
    forRange collectionIDs checkCollection [].

(** ** A two-generation target store *)

Module CollectionTarget.
Record t := mk {
  segments : gmap Z SegmentInfo.t;
  dmChannels : gmap string DmChannel.t
}.
End CollectionTarget.

Module TargetStore.
Record t := mk {
  current : gmap Z CollectionTarget.t;
  next : gmap Z CollectionTarget.t
}.
End TargetStore.

(** Modelled from the spec: the implementation of
    [meta.TargetManagerInterface] is not among the sources.  A collection
    has a current and a next target generation, each of which may be
    missing.  Scope [CurrentTargetFirst] prefers the current generation and
    falls back to the next one; scope [CurrentTarget] consults the current
    generation alone. *)
Definition targetsOf (st : TargetStore.t) (scope : TargetScope)
    (collectionID : Z) : list CollectionTarget.t :=
  match scope with
  | CurrentTarget => option_list (TargetStore.current st !! collectionID)
  | CurrentTargetFirst =>
      option_list (TargetStore.current st !! collectionID)
      ++ option_list (TargetStore.next st !! collectionID)
  end.

(** The first of the targets [ts] that answers the lookup [f]. *)
Fixpoint firstHit {A} (f : CollectionTarget.t → option A)
    (ts : list CollectionTarget.t) : option A :=
  match ts with
  | [] => None
  | t :: ts' => match f t with Some x => Some x | None => firstHit f ts' end
  end.

(** Modelled from the spec: the queries of the target manager over a
    two-generation store. *)
Definition storeManager (st : TargetStore.t) : TargetManager.t :=
  TargetManager.mk
    (λ collectionID, bool_decide (is_Some (TargetStore.next st !! collectionID)))
    (λ collectionID _,
       bool_decide (is_Some (TargetStore.current st !! collectionID)))
    (λ collectionID channel scope,
       firstHit (λ t, CollectionTarget.dmChannels t !! channel)
                (targetsOf st scope collectionID))
    (λ collectionID segmentID scope,
       firstHit (λ t, CollectionTarget.segments t !! segmentID)
                (targetsOf st scope collectionID)).

(** * Notions the properties are stated with *)

(** ** Methods *)

(** [spec m w Q]: run in [w], method [m] returns a result that satisfies
    [Q] and leaves [w] with nothing but the runtime position moved on. *)
Definition spec {A} (m : M A) (w : World.t) (Q : A → Prop) : Prop :=
  ∃ r n, m w = (r, advance n w) ∧ Q r.

(** ** Segments to load *)

(** Whether the loop of [findNeedLoadedSegments] appends a task for the
    placement [s]. *)
Definition needsGrow (c : LeaderChecker.t) (lv : LeaderView.t)
    (s : Segment.t) : bool :=
  bool_decide (TargetManager.GetSealedSegment (LeaderChecker.target c)
                 (LeaderView.CollectionID lv) (Segment.GetID s)
                 CurrentTargetFirst ≠ None)
  && match LeaderView.Segments lv !! Segment.GetID s with
     | None => true
     | Some v => bool_decide (SegmentDist.GetNodeID v ≠ Segment.Node s)
     end.

(** The task it appends, created at clock reading [now]. *)
Definition growTask (replica : Replica.t) (lv : LeaderView.t) (s : Segment.t)
    (now : Z) : Task.t :=
  Task.mk LeaderSegmentTask LeaderCheckerType (Segment.GetCollectionID s)
    replica (LeaderView.ID lv)
    (LeaderAction.mk (LeaderView.ID lv) (Segment.Node s) ActionTypeGrow
       (Segment.GetInsertChannel s) (Segment.GetID s) now ∅)
    TaskPriorityLow "add segment to leader view".

Fixpoint growTasks (replica : Replica.t) (lv : LeaderView.t) (clock : nat → Z)
    (p : nat) (l : list Segment.t) : list Task.t :=
  match l with
  | [] => []
  | s :: l' => growTask replica lv s (clock p)
               :: growTasks replica lv clock (S p) l'
  end.

(** The routing condition of the loop: the view has no entry for the
    placement's segment, or its entry names another node. *)
Definition misrouted (lv : LeaderView.t) (s : Segment.t) : Prop :=
  LeaderView.Segments lv !! Segment.GetID s = None
  ∨ ∃ v, LeaderView.Segments lv !! Segment.GetID s = Some v
         ∧ SegmentDist.NodeID v ≠ Segment.Node s.

(** ** Segments to remove *)

(** Whether the loop of [findNeedRemovedSegments] appends a task for the
    entry of segment [sid]. *)
Definition stale (c : LeaderChecker.t) (lv : LeaderView.t)
    (dists : list Segment.t) (sid : Z) : bool :=
  negb (bool_decide
          (sid ∈ foldl (λ (distMap : gset Z) s, {[Segment.GetID s]} ∪ distMap)
                       ∅ dists)
        || bool_decide (TargetManager.GetSealedSegment (LeaderChecker.target c)
                          (LeaderView.CollectionID lv) sid CurrentTargetFirst
                        ≠ None)).

(** The task it appends. *)
Definition reduceTask (replica : Replica.t) (lv : LeaderView.t) (sid : Z)
    : Task.t :=
  Task.mk LeaderSegmentTask LeaderCheckerType (LeaderView.CollectionID lv)
    replica (LeaderView.ID lv)
    (LeaderAction.mk (LeaderView.ID lv) (LeaderView.ID lv) ActionTypeReduce
       (LeaderView.Channel lv) sid 0 ∅)
    TaskPriorityLow "remove segment from leader view".

(** ** Partition statistics to sync *)

(** The version the leader view records for a partition; reading a Go map
    at a missing key yields the zero value. *)
Definition recorded (lv : LeaderView.t) (partID : Z) : Z :=
  default 0 (LeaderView.PartitionStatsVersions lv !! partID).

(** One iteration of the loop that fills [partStatsToUpdate]. *)
Definition syncStep (lv : LeaderView.t) (acc : gmap Z Z) (e : Z * Z)
    : gmap Z Z :=
  if bool_decide (recorded lv e.1 < e.2) then <[e.1 := e.2]> acc else acc.

(** The batch the loop builds from the descriptor [d]. *)
Definition needSync (lv : LeaderView.t) (d : DmChannel.t) : gmap Z Z :=
  filter (λ e, recorded lv e.1 < e.2) (DmChannel.PartitionStatsVersions d).

(** The task the sub-diff creates for a batch. *)
Definition syncTask (replica : Replica.t) (lv : LeaderView.t) (nodeID : Z)
    (batch : gmap Z Z) : Task.t :=
  Task.mk LeaderPartStatsTask LeaderCheckerType (LeaderView.CollectionID lv)
    replica (LeaderView.ID lv)
    (LeaderAction.mk (LeaderView.ID lv) nodeID ActionTypeUpdate
       (LeaderView.Channel lv) 0 0 batch)
    TaskPriorityLow "sync partition stats versions".

(** What [findNeedSyncPartitionStats] would do for one leader view if it
    read the desired versions from the channel descriptor of scope
    [scope]: collect the partitions whose desired version exceeds the
    recorded one, each with its desired version, and emit one update-stats
    task for the delegator's node when that batch is not empty, and no
    task when it is empty or there is no descriptor. *)
Definition syncsAgainst (scope : TargetScope) (w : World.t)
    (replica : Replica.t) (lv : LeaderView.t) (nodeID : Z) : Prop :=
  let tasks := (findNeedSyncPartitionStats replica lv nodeID w).1 in
  match TargetManager.GetDmChannel (LeaderChecker.target (World.checker w))
          (LeaderView.CollectionID lv) (LeaderView.Channel lv) scope with
  | None => tasks = []
  | Some d =>
      ∃ batch : gmap Z Z,
        (∀ p v, batch !! p = Some v
                ↔ DmChannel.PartitionStatsVersions d !! p = Some v
                  ∧ recorded lv p < v)
        ∧ (batch = ∅ → tasks = [])
        ∧ (batch ≠ ∅ →
           tasks = [Task.mk LeaderPartStatsTask LeaderCheckerType
                      (LeaderView.CollectionID lv) replica (LeaderView.ID lv)
                      (LeaderAction.mk (LeaderView.ID lv) nodeID
                         ActionTypeUpdate (LeaderView.Channel lv) 0 0 batch)
                      TaskPriorityLow "sync partition stats versions"])
  end.

(** ** The scan *)

(** A task is stamped as the sub-diffs stamp it: low priority, and the
    reason that goes with its action. *)
Definition stamped (t : Task.t) : Prop :=
  Task.priority t = TaskPriorityLow
  ∧ Task.reason t
    = match LeaderAction.typ (Task.action t) with
      | ActionTypeGrow => "add segment to leader view"
      | ActionTypeReduce => "remove segment from leader view"
      | ActionTypeUpdate => "sync partition stats versions"
      end.

(** A method leaves what the checker reads untouched: the activation
    flag, the three managers with the leader views and placements they
    hold, and the deployment-mode flag. *)
Definition preserves {A} (m : M A) : Prop :=
  ∀ w, World.checker (m w).2 = World.checker w
       ∧ World.streaming (m w).2 = World.streaming w.

(** Two runs of a method in worlds related by [Rw] return results related
    by [R] and leave worlds related by [Rw]. *)
Definition rel (Rw : relation World.t) {A} (R : relation A) (m1 m2 : M A)
    : Prop :=
  ∀ w1 w2, Rw w1 w2 → R (m1 w1).1 (m2 w2).1 ∧ Rw (m1 w1).2 (m2 w2).2.

(** A task without the timestamp hint of a grow action. *)
Definition eraseHint (t : Task.t) : Task.t :=
  let a := Task.action t in
  match LeaderAction.typ a with
  | ActionTypeGrow =>
      Task.mk (Task.kind t) (Task.source t) (Task.collectionID t)
        (Task.replica t) (Task.leaderID t)
        (LeaderAction.mk (LeaderAction.leaderID a) (LeaderAction.workerID a)
           (LeaderAction.typ a) (LeaderAction.shard a)
           (LeaderAction.segmentID a) 0 (LeaderAction.partStatsVersions a))
        (Task.priority t) (Task.reason t)
  | _ => t
  end.

(** Two task lists have the same content: the same tasks, each as often,
    up to the timestamp hints of grow tasks. *)
Definition sameContent (a b : list Task.t) : Prop :=
  eraseHint <$> a ≡ₚ eraseHint <$> b.

(** Two worlds show the same snapshot of the cluster; their runtimes may
    differ. *)
Definition sameSnapshot (w1 w2 : World.t) : Prop :=
  World.checker w1 = World.checker w2
  ∧ World.streaming w1 = World.streaming w2.

(** The world in which the collection manager lists the IDs [ids] and
    everything else is as in [w]. *)
Definition withGetAll (ids : list Z) (w : World.t) : World.t :=
  let c := World.checker w in
  let m := LeaderChecker.meta c in
  World.mk
    (LeaderChecker.mk (LeaderChecker.checkerActivation c)
       (Meta.mk ids (Meta.GetCollection m) (Meta.GetByCollection m))
       (LeaderChecker.dist c) (LeaderChecker.target c))
    (World.streaming w) (World.runtime w).

(** A collection is not ready to check: the collection manager has no
    metadata for it, or the target holds neither its next nor its current
    generation. *)
Definition unready (c : LeaderChecker.t) (collectionID : Z) : Prop :=
  Meta.GetCollection (LeaderChecker.meta c) collectionID = None
  ∨ (TargetManager.IsNextTargetExist (LeaderChecker.target c) collectionID
     = false
     ∧ TargetManager.IsCurrentTargetExist (LeaderChecker.target c)
         collectionID AllPartitionsID = false).

(** * A small cluster

    Collection 100 has one replica with worker nodes 1 and 2; node 1 is the
    delegator of channel [ch0].  Segment 10 is loaded twice, the newer copy
    on node 2; segment 12 is loaded but not routed; segment 13 is routed
    but neither loaded nor wanted; segment 14 is routed and wanted by the
    next target generation only. *)

Definition ex_info (sid : Z) : SegmentInfo.t := SegmentInfo.mk sid 100 "ch0".

Definition ex_replica : Replica.t := Replica.mk 1 100 [1; 2] [3].

Definition ex_view : LeaderView.t :=
  LeaderView.mk 1 100 "ch0"
    (<[10 := SegmentDist.mk 1 1]> (<[11 := SegmentDist.mk 2 1]>
       (<[13 := SegmentDist.mk 2 1]> (<[14 := SegmentDist.mk 2 1]> ∅))))
    (<[1 := 3]> (<[2 := 2]> ∅)).

Definition ex_dist : list Segment.t :=
  [ Segment.mk (ex_info 10) 1 1; Segment.mk (ex_info 10) 2 2;
    Segment.mk (ex_info 11) 2 1; Segment.mk (ex_info 12) 2 1 ].

Definition ex_store : TargetStore.t :=
  TargetStore.mk
    {[ 100 := CollectionTarget.mk
                (<[10 := ex_info 10]> (<[11 := ex_info 11]>
                   {[ 12 := ex_info 12 ]}))
                {[ "ch0" := DmChannel.mk (<[1 := 3]> {[ 2 := 5 ]}) ]} ]}
    {[ 100 := CollectionTarget.mk {[ 14 := ex_info 14 ]} ∅ ]}.

Definition ex_meta : Meta.t :=
  Meta.mk [100; 200]
    (λ id, if bool_decide (id = 100) then Some (Collection.mk 100) else None)
    (λ id, if bool_decide (id = 100) then [ex_replica] else []).

Definition ex_distribution : DistributionManager.t :=
  DistributionManager.mk
    (λ collectionID node,
       if bool_decide (collectionID = 100 ∧ node = 1)
       then [Delegator.mk ex_view] else [])
    (λ channel replica,
       if bool_decide (channel = "ch0" ∧ Replica.ID replica = 1)
       then ex_dist else []).

Definition ex_runtime : Runtime.t :=
  Runtime.mk (λ n, 1000 + Z.of_nat n) (λ n, n) 0.

Definition ex_checker (active : bool) (st : TargetStore.t) : LeaderChecker.t :=
  LeaderChecker.mk active ex_meta ex_distribution (storeManager st).

Definition ex_world : World.t :=
  World.mk (ex_checker true ex_store) false ex_runtime.

(** The same cluster before its first target generation is promoted: the
    next generation alone exists and already asks for version 5 of the
    statistics of partition 2. *)
Definition ex_store_next_only : TargetStore.t :=
  TargetStore.mk ∅
    {[ 100 := CollectionTarget.mk {[ 12 := ex_info 12 ]}
                {[ "ch0" := DmChannel.mk {[ 2 := 5 ]} ]} ]}.

Definition ex_world_next_only : World.t :=
  World.mk (ex_checker true ex_store_next_only) false ex_runtime.

(** * More of the checker *)

(** [NewLeaderChecker] stores the three managers and the node manager it
    is given; the node manager is never read again.  Modelled from the
    spec: [newCheckerActivation] is not among the sources; the latch starts
    active. *)
Definition NewLeaderChecker {NodeManager : Type} (meta : Meta.t)
    (dist : DistributionManager.t) (target : TargetManager.t)
    (nodeMgr : NodeManager) : LeaderChecker.t :=
  LeaderChecker.mk true meta dist target.

Definition Description : string :=
  "LeaderChecker checks the difference of leader view between dist, and try to correct it".

(** One pass of the innermost loop of [Check]: a replica, one of its
    member nodes and a channel that node is the delegator of. *)
Module Visit.
Record t := mk { replica : Replica.t; node : Z; delegator : Delegator.t }.
Definition view (v : t) : LeaderView.t := Delegator.View (delegator v).
End Visit.

(** The body of the innermost loop of [Check], lines 102 to 105. *)
Definition checkView (v : Visit.t) (tasks : list Task.t) : M (list Task.t) :=
  let replica := Visit.replica v in
  let node := Visit.node v in
  let d := Visit.delegator v in
  let view := Delegator.View d in
  dist ← reads (λ c,
    DistributionManager.SegmentsByChannelAndReplica
      (LeaderChecker.dist c) (LeaderView.Channel view) replica);
  loaded ← findNeedLoadedSegments replica view dist;
  let tasks := tasks ++ loaded in
  removed ← findNeedRemovedSegments replica view dist;
  let tasks := tasks ++ removed in
  synced ← findNeedSyncPartitionStats replica view node;
  let tasks := tasks ++ synced in
  mret tasks.

(** ** What the scan visits *)

(** The value [readyToCheck] returns. *)
Definition ready (c : LeaderChecker.t) (collectionID : Z) : bool :=
  bool_decide (Meta.GetCollection (LeaderChecker.meta c) collectionID ≠ None)
  && (TargetManager.IsNextTargetExist (LeaderChecker.target c) collectionID
      || TargetManager.IsCurrentTargetExist (LeaderChecker.target c)
           collectionID AllPartitionsID).

(** The member nodes of a replica that [Check] scans, lines 95 to 98. *)
Definition scannedNodes (streaming : bool) (replica : Replica.t) : list Z :=
  if streaming then Replica.GetRWSQNodes replica
  else Replica.GetRWNodes replica.

(** The passes of the innermost loop for one replica, one collection and
    the whole scan, in the order the nested loops make them. *)
Definition replicaVisits (c : LeaderChecker.t) (streaming : bool)
    (replica : Replica.t) : list Visit.t :=
  node ← scannedNodes streaming replica;
  Visit.mk replica node
    <$> DistributionManager.ChannelsByCollectionAndNode (LeaderChecker.dist c)
          (Replica.GetCollectionID replica) node.

Definition visits (c : LeaderChecker.t) (streaming : bool)
    (collectionID : Z) : list Visit.t :=
  if ready c collectionID
  then replica ← Meta.GetByCollection (LeaderChecker.meta c) collectionID;
       replicaVisits c streaming replica
  else [].

Definition allVisits (c : LeaderChecker.t) (streaming : bool) : list Visit.t :=
  collectionID ← Meta.GetAll (LeaderChecker.meta c);
  visits c streaming collectionID.

(** The observed placements [Check] hands to the sub-diffs on a visit. *)
Definition placementsOf (c : LeaderChecker.t) (v : Visit.t) : list Segment.t :=
  DistributionManager.SegmentsByChannelAndReplica (LeaderChecker.dist c)
    (LeaderView.Channel (Visit.view v)) (Visit.replica v).

(** ** What a visit emits *)

(** The tasks of one visit as functions of the snapshot alone: the grow
    tasks of the resolved placements that need one, in the order of the
    resolver and without their timestamp hints; the reduce tasks of the
    stale entries, in the order of [map_to_list]; the update task of the
    batch, if there is one. *)
Definition expectedGrow (c : LeaderChecker.t) (v : Visit.t) : list Task.t :=
  (λ s, growTask (Visit.replica v) (Visit.view v) s 0)
    <$> filter (λ s, needsGrow c (Visit.view v) s)
               (FindMaxVersionSegments (placementsOf c v)).

Definition expectedReduce (c : LeaderChecker.t) (v : Visit.t) : list Task.t :=
  reduceTask (Visit.replica v) (Visit.view v)
    <$> filter (λ sid, stale c (Visit.view v) (placementsOf c v) sid)
               (map_to_list (LeaderView.Segments (Visit.view v))).*1.

Definition expectedSync (c : LeaderChecker.t) (v : Visit.t) : list Task.t :=
  let lv := Visit.view v in
  match TargetManager.GetDmChannel (LeaderChecker.target c)
          (LeaderView.CollectionID lv) (LeaderView.Channel lv)
          CurrentTarget with
  | Some d =>
      if decide (needSync lv d = ∅) then []
      else [syncTask (Visit.replica v) lv (Visit.node v) (needSync lv d)]
  | None => []
  end.

Definition expected (c : LeaderChecker.t) (v : Visit.t) : list Task.t :=
  expectedGrow c v ++ expectedReduce c v ++ expectedSync c v.

(** The block of tasks a visit appends: its grow tasks in order, then its
    reduce tasks in the order the runtime iterates the segment map, then
    its update task. *)
Definition emits (c : LeaderChecker.t) (v : Visit.t) (block : list Task.t)
    : Prop :=
  ∃ grows reduces,
    block = grows ++ reduces ++ expectedSync c v
    ∧ eraseHint <$> grows = expectedGrow c v
    ∧ reduces ≡ₚ expectedReduce c v.

(** The fields of a task that say which visit it belongs to. *)
Definition addresses (t : Task.t) (v : Visit.t) : Prop :=
  Task.source t = ID
  ∧ Task.replica t = Visit.replica v
  ∧ Task.leaderID t = LeaderView.ID (Visit.view v)
  ∧ LeaderAction.leaderID (Task.action t) = LeaderView.ID (Visit.view v).

(** ** A leader view in step with the cluster *)

(** Every resolved placement the target wants is routed to its node. *)
Definition routed (c : LeaderChecker.t) (lv : LeaderView.t)
    (dist : list Segment.t) : Prop :=
  ∀ s, s ∈ FindMaxVersionSegments dist →
       TargetManager.GetSealedSegment (LeaderChecker.target c)
         (LeaderView.CollectionID lv) (Segment.GetID s) CurrentTargetFirst
       ≠ None →
       ∃ e, LeaderView.Segments lv !! Segment.GetID s = Some e
            ∧ SegmentDist.NodeID e = Segment.Node s.

(** Every routed segment is observed or wanted. *)
Definition pruned (c : LeaderChecker.t) (lv : LeaderView.t)
    (dist : list Segment.t) : Prop :=
  ∀ sid, is_Some (LeaderView.Segments lv !! sid) →
         (∃ s, s ∈ dist ∧ Segment.GetID s = sid)
         ∨ TargetManager.GetSealedSegment (LeaderChecker.target c)
             (LeaderView.CollectionID lv) sid CurrentTargetFirst ≠ None.

(** No partition of the current target's channel descriptor asks for a
    newer version than the view records. *)
Definition statsCurrent (c : LeaderChecker.t) (lv : LeaderView.t) : Prop :=
  ∀ d p v,
    TargetManager.GetDmChannel (LeaderChecker.target c)
      (LeaderView.CollectionID lv) (LeaderView.Channel lv) CurrentTarget
    = Some d →
    DmChannel.PartitionStatsVersions d !! p = Some v →
    v ≤ recorded lv p.

Definition inStep (c : LeaderChecker.t) (lv : LeaderView.t)
    (dist : list Segment.t) : Prop :=
  routed c lv dist ∧ pruned c lv dist ∧ statsCurrent c lv.

(** ** Carrying out a task *)

(** The leader view after its delegator has done what the task asks for:
    a grow action routes the subject to the worker node, a reduce action
    drops the subject's entry, an update action records the versions of
    the batch. *)
Definition carryOut (lv : LeaderView.t) (t : Task.t) : LeaderView.t :=
  let a := Task.action t in
  match LeaderAction.typ a with
  | ActionTypeGrow =>
      LeaderView.mk (LeaderView.ID lv) (LeaderView.CollectionID lv)
        (LeaderView.Channel lv)
        (<[LeaderAction.segmentID a :=
             SegmentDist.mk (LeaderAction.workerID a) (LeaderAction.version a)]>
           (LeaderView.Segments lv))
        (LeaderView.PartitionStatsVersions lv)
  | ActionTypeReduce =>
      LeaderView.mk (LeaderView.ID lv) (LeaderView.CollectionID lv)
        (LeaderView.Channel lv)
        (delete (LeaderAction.segmentID a) (LeaderView.Segments lv))
        (LeaderView.PartitionStatsVersions lv)
  | ActionTypeUpdate =>
      LeaderView.mk (LeaderView.ID lv) (LeaderView.CollectionID lv)
        (LeaderView.Channel lv) (LeaderView.Segments lv)
        (LeaderAction.partStatsVersions a
         ∪ LeaderView.PartitionStatsVersions lv)
  end.

(** The world in which the distribution manager is [dist] and everything
    else is as in [w]. *)
Definition withDist (dist : DistributionManager.t) (w : World.t) : World.t :=
  let c := World.checker w in
  World.mk
    (LeaderChecker.mk (LeaderChecker.checkerActivation c)
       (LeaderChecker.meta c) dist (LeaderChecker.target c))
    (World.streaming w) (World.runtime w).

(** * Re-running the loop after a grow task *)

#[global] Instance ActionType_eq_dec : EqDecision ActionType.
Proof. solve_decision. Defined.

(** The leader view with segment [S] routed to node [N]. *)
Definition routeSegment (S N version : Z) (lv : LeaderView.t) : LeaderView.t :=
  LeaderView.mk (LeaderView.ID lv) (LeaderView.CollectionID lv)
    (LeaderView.Channel lv)
    (<[S := SegmentDist.mk N version]> (LeaderView.Segments lv))
    (LeaderView.PartitionStatsVersions lv).

(** The world in which the distribution manager reports the leader view
    of delegator [leaderID] for [channel] with [S] routed to [N], and
    everything else is as in [w]. *)
Definition withRoute (leaderID : Z) (channel : string) (S N version : Z)
    (w : World.t) : World.t :=
  let dist := LeaderChecker.dist (World.checker w) in
  withDist
    (DistributionManager.mk
       (λ collectionID node,
          (λ d, let lv := Delegator.View d in
                if bool_decide (LeaderView.ID lv = leaderID
                                ∧ LeaderView.Channel lv = channel)
                then Delegator.mk (routeSegment S N version lv)
                else d)
          <$> DistributionManager.ChannelsByCollectionAndNode dist
                collectionID node)
       (DistributionManager.SegmentsByChannelAndReplica dist))
    w.

(** A grow task on segment [S] for the leader view of delegator
    [leaderID]. *)
Definition growsOn (S leaderID : Z) (t : Task.t) : Prop :=
  LeaderAction.typ (Task.action t) = ActionTypeGrow
  ∧ LeaderAction.segmentID (Task.action t) = S
  ∧ LeaderAction.leaderID (Task.action t) = leaderID.

#[global] Instance growsOn_dec S leaderID t : Decision (growsOn S leaderID t).
Proof. unfold growsOn. apply _. Defined.

(** * The checker over shared objects

    The methods once more, this time with the objects they reach through
    Go pointers and map values kept in a heap: a leader view is the
    address of a struct whose two map fields are addresses in turn, the
    channel descriptor of a target hands out the address of its version
    map, and [make] allocates.  An assignment through any of these
    references changes the object for everyone who holds it.  Placement
    records, replicas and segment descriptors, which the methods only pass
    on and read through getters, stay values. *)

Module Shared.

Definition loc := positive.

(** A Go map value: nil, or the address of a map object. *)
Inductive mapref := nilMap | mapAt (l : loc).

(** [meta.LeaderView], the struct behind a [*meta.LeaderView]. *)
Module LeaderView.
Record t := mk {
  ID : Z;
  CollectionID : Z;
  Channel : string;
  Segments : mapref;
  PartitionStatsVersions : mapref
}.
End LeaderView.

(** The channel descriptor of a target.  Modelled from the spec:
    [GetPartitionStatsVersions] is not among the sources; as the getter of
    a generated message it returns the map itself, not a copy. *)
Module DmChannel.
Record t := mk { PartitionStatsVersions : mapref }.
Definition GetPartitionStatsVersions (c : t) : mapref :=
  PartitionStatsVersions c.
End DmChannel.

(** An element of the list [ChannelDistManager.GetByFilter] returns, with
    the pointer to the leader view of its delegator. *)
Module Delegator.
Record t := mk { View : loc }.
End Delegator.

Module DistributionManager.
Record t := mk {
  ChannelsByCollectionAndNode : Z → Z → list Delegator.t;
  SegmentsByChannelAndReplica : string → Replica.t → list Segment.t
}.
End DistributionManager.

Module TargetManager.
Record t := mk {
  IsNextTargetExist : Z → bool;
  IsCurrentTargetExist : Z → Z → bool;
  GetDmChannel : Z → string → TargetScope → option DmChannel.t;
  GetSealedSegment : Z → Z → TargetScope → option SegmentInfo.t
}.
End TargetManager.

Module LeaderChecker.
Record t := mk {
  checkerActivation : bool;
  meta : Meta.t;
  dist : DistributionManager.t;
  target : TargetManager.t
}.
End LeaderChecker.

(** [task.LeaderAction]; the action of an update-stats task holds the map
    it is given. *)
Module LeaderAction.
Record t := mk {
  leaderID : Z;
  workerID : Z;
  typ : ActionType;
  shard : string;
  segmentID : Z;
  version : Z;
  partStatsVersions : mapref
}.
End LeaderAction.

(** Modelled from the spec: the constructors of package [task] are not
    among the sources; they are as in the first part. *)
Definition NewLeaderAction (leaderID workerID : Z) (typ : ActionType)
    (shard : string) (segmentID version : Z) : LeaderAction.t :=
  LeaderAction.mk leaderID workerID typ shard segmentID version nilMap.

(** Modelled from the spec: the action of an update-stats task keeps the
    map it is given, not a copy of it. *)
Definition NewLeaderUpdatePartStatsAction (leaderID workerID : Z)
    (typ : ActionType) (shard : string) (partStatsVersions : mapref)
    : LeaderAction.t :=
  LeaderAction.mk leaderID workerID typ shard 0 0 partStatsVersions.

Module Task.
Record t := mk {
  kind : TaskKind;
  source : CheckerType;
  collectionID : Z;
  replica : Replica.t;
  leaderID : Z;
  action : LeaderAction.t;
  priority : Priority;
  reason : string
}.
Definition SetPriority (p : Priority) (x : t) : t :=
  mk (kind x) (source x) (collectionID x) (replica x) (leaderID x)
     (action x) p (reason x).
Definition SetReason (r : string) (x : t) : t :=
  mk (kind x) (source x) (collectionID x) (replica x) (leaderID x)
     (action x) (priority x) r.
End Task.

(** Modelled from the spec: a fresh task has the priority and the reason
    its creator has yet to set. *)
Definition NewLeaderSegmentTask (source : CheckerType) (collectionID : Z)
    (replica : Replica.t) (leaderID : Z) (action : LeaderAction.t) : Task.t :=
  Task.mk LeaderSegmentTask source collectionID replica leaderID action
          TaskPriorityNormal "".

(** Modelled from the spec: as [NewLeaderSegmentTask], for an update-stats
    action. *)
Definition NewLeaderPartStatsTask (source : CheckerType) (collectionID : Z)
    (replica : Replica.t) (leaderID : Z) (action : LeaderAction.t) : Task.t :=
  Task.mk LeaderPartStatsTask source collectionID replica leaderID action
          TaskPriorityNormal "".

(** ** The heap *)

(** What an address holds: a leader view, a routing table
    ([map[int64]*querypb.SegmentDist]), a version map ([map[int64]int64])
    or a set of segment IDs ([map[int64]struct{}]). *)
Inductive object :=
  | ViewObj (v : LeaderView.t)
  | SegmentsObj (m : gmap Z SegmentDist.t)
  | VersionsObj (m : gmap Z Z)
  | IDsObj (m : gset Z).

(** The checker with its managers, the deployment-mode flag, the runtime
    and the heap. *)
Module State.
Record t := mk {
  checker : LeaderChecker.t;
  streaming : bool;
  runtime : Runtime.t;
  heap : gmap loc object
}.
End State.

(** A method either returns and leaves a state, or panics. *)
Definition G (A : Type) : Type := State.t → option (A * State.t).

#[global] Instance G_ret : MRet G := λ A (x : A) st, Some (x, st).
#[global] Instance G_bind : MBind G := λ A B (f : A → G B) (m : G A) st,
  match m st with
  | Some (x, st') => f x st'
  | None => None
  end.

Definition panic {A} : G A := λ _, None.

Definition reads {A} (f : LeaderChecker.t → A) : G A :=
  λ st, Some (f (State.checker st), st).

Definition IsStreamingServiceEnabled : G bool :=
  λ st, Some (State.streaming st, st).

(** The state after [n] more consultations of the runtime. *)
Definition consult (n : nat) (st : State.t) : State.t :=
  let rt := State.runtime st in
  State.mk (State.checker st) (State.streaming st)
    (Runtime.mk (Runtime.clock rt) (Runtime.picks rt) (Runtime.pos rt + n)%nat)
    (State.heap st).

Definition timeNowUnixNano : G Z :=
  λ st, let rt := State.runtime st in
        Some (Runtime.clock rt (Runtime.pos rt), consult 1 st).

(** The state with heap [h]. *)
Definition setHeap (h : gmap loc object) (st : State.t) : State.t :=
  State.mk (State.checker st) (State.streaming st) (State.runtime st) h.

(** The three accesses to the heap.  [alloc] takes an address that holds
    nothing yet; [load] and [store] panic at an address that holds
    nothing. *)
Definition alloc (o : object) : G loc :=
  λ st, let l := fresh (dom (State.heap st)) in
        Some (l, setHeap (<[l := o]> (State.heap st)) st).

Definition load (l : loc) : G object :=
  λ st, match State.heap st !! l with
        | Some o => Some (o, st)
        | None => None
        end.

Definition store (l : loc) (o : object) : G unit :=
  λ st, match State.heap st !! l with
        | Some _ => Some (tt, setHeap (<[l := o]> (State.heap st)) st)
        | None => None
        end.

(** [*leaderView]: the struct a view pointer points to; a nil pointer
    panics. *)
Definition derefView (leaderView : loc) : G LeaderView.t :=
  o ← load leaderView;
  match o with
  | ViewObj v => mret v
  | _ => panic
  end.

(** The content of a map value; a nil map reads as the empty map. *)
Definition loadSegments (m : mapref) : G (gmap Z SegmentDist.t) :=
  match m with
  | nilMap => mret ∅
  | mapAt l => o ← load l;
               match o with SegmentsObj m => mret m | _ => panic end
  end.

Definition loadVersions (m : mapref) : G (gmap Z Z) :=
  match m with
  | nilMap => mret ∅
  | mapAt l => o ← load l;
               match o with VersionsObj m => mret m | _ => panic end
  end.

Definition loadIDs (m : mapref) : G (gset Z) :=
  match m with
  | nilMap => mret ∅
  | mapAt l => o ← load l;
               match o with IDsObj m => mret m | _ => panic end
  end.

(** [make(map[int64]int64)] and [make(map[int64]struct{})]. *)
Definition makeVersions : G mapref := l ← alloc (VersionsObj ∅); mret (mapAt l).
Definition makeIDs : G mapref := l ← alloc (IDsObj ∅); mret (mapAt l).

(** [m[k] = v]; an assignment to an entry of a nil map panics. *)
Definition assignVersion (m : mapref) (k v : Z) : G unit :=
  match m with
  | nilMap => panic
  | mapAt l => o ← load l;
               match o with
               | VersionsObj m => store l (VersionsObj (<[k := v]> m))
               | _ => panic
               end
  end.

Definition assignID (m : mapref) (k : Z) : G unit :=
  match m with
  | nilMap => panic
  | mapAt l => o ← load l;
               match o with
               | IDsObj m => store l (IDsObj ({[k]} ∪ m))
               | _ => panic
               end
  end.

(** [for k, v := range m { ... }] visits the entries the map has when the
    loop starts, in the order the runtime picks. *)
Definition rangeOver {V} (m : gmap Z V) : G (list (Z * V)) :=
  λ st, let rt := State.runtime st in
        let l := map_to_list m in
        Some (iterOrder (Runtime.picks rt <$> seq (Runtime.pos rt) (length l)) l,
              consult (length l) st).

Fixpoint forRange {A S} (xs : list A) (body : A → S → G S) (s : S) : G S :=
  match xs with
  | [] => mret s
  | x :: xs' => s' ← body x s; forRange xs' body s'
  end.

(** ** The checker *)

Definition ID : CheckerType := LeaderCheckerType.

(** Modelled from the spec: [checkerActivation] is not among the sources;
    [IsActive] reads the latch. *)
Definition IsActive : G bool := reads LeaderChecker.checkerActivation.

Definition readyToCheck (collectionID : Z) : G bool :=
  collection ← reads (λ c, Meta.GetCollection (LeaderChecker.meta c) collectionID);
  let metaExist := bool_decide (collection ≠ None) in
  nextExist ← reads (λ c, TargetManager.IsNextTargetExist
                            (LeaderChecker.target c) collectionID);
  targetExist ←
    (if (nextExist : bool) return G bool then mret true
     else reads (λ c, TargetManager.IsCurrentTargetExist
                        (LeaderChecker.target c) collectionID AllPartitionsID));
  mret (metaExist && targetExist).

Definition findNeedSyncPartitionStats (replica : Replica.t)
    (leaderView : loc) (nodeID : Z) : G (list Task.t) :=
  let ret : list Task.t := [] in
  view ← derefView leaderView;
  curDmlChannel ← reads (λ c, TargetManager.GetDmChannel (LeaderChecker.target c)
                     (LeaderView.CollectionID view)
                     (LeaderView.Channel view) CurrentTarget);
  match curDmlChannel with
  | None => mret ret
  | Some curDmlChannel =>
      let partStatsInTarget := DmChannel.GetPartitionStatsVersions curDmlChannel in
      view ← derefView leaderView;
      let partStatsInLView := LeaderView.PartitionStatsVersions view in
      partStatsToUpdate ← makeVersions;
      inTarget ← loadVersions partStatsInTarget;
      entries ← rangeOver inTarget;
      _ ← forRange entries (λ '(partID, psVersionInTarget) (_ : unit),
          inLView ← loadVersions partStatsInLView;
          let psVersionInLView := default 0 (inLView !! partID) in
          if bool_decide (psVersionInLView < psVersionInTarget)
          then assignVersion partStatsToUpdate partID psVersionInTarget
          else mret tt) tt;
      toUpdate ← loadVersions partStatsToUpdate;
      if bool_decide (0 < size toUpdate)%nat then
        view ← derefView leaderView;
        let action := NewLeaderUpdatePartStatsAction (LeaderView.ID view)
                        nodeID ActionTypeUpdate (LeaderView.Channel view)
                        partStatsToUpdate in
        let t := NewLeaderPartStatsTask ID (LeaderView.CollectionID view)
                   replica (LeaderView.ID view) action in
        let t := Task.SetPriority TaskPriorityLow t in
        let t := Task.SetReason "sync partition stats versions" t in
        mret (ret ++ [t])
      else mret ret
  end.

Definition findNeedLoadedSegments (replica : Replica.t)
    (leaderView : loc) (dist : list Segment.t) : G (list Task.t) :=
  _ ← derefView leaderView;
  let latestNodeDist := FindMaxVersionSegments dist in
  forRange latestNodeDist (λ s ret,
    view ← derefView leaderView;
    segment ← reads (λ c, TargetManager.GetSealedSegment (LeaderChecker.target c)
                (LeaderView.CollectionID view) (Segment.GetID s)
                CurrentTargetFirst);
    match segment with
    | None => mret ret
    | Some _ =>
        view ← derefView leaderView;
        segments ← loadSegments (LeaderView.Segments view);
        let version := segments !! Segment.GetID s in
        if match version with
           | None => true
           | Some version =>
               bool_decide (SegmentDist.GetNodeID version ≠ Segment.Node s)
           end
        then
          view ← derefView leaderView;
          now ← timeNowUnixNano;
          let action := NewLeaderAction (LeaderView.ID view)
                          (Segment.Node s) ActionTypeGrow
                          (Segment.GetInsertChannel s) (Segment.GetID s) now in
          let t := NewLeaderSegmentTask ID (Segment.GetCollectionID s) replica
                     (LeaderView.ID view) action in
          let t := Task.SetPriority TaskPriorityLow t in
          let t := Task.SetReason "add segment to leader view" t in
          mret (ret ++ [t])
        else mret ret
    end) [].

Definition findNeedRemovedSegments (replica : Replica.t)
    (leaderView : loc) (dists : list Segment.t) : G (list Task.t) :=
  _ ← derefView leaderView;
  distMap ← makeIDs;
  _ ← forRange dists (λ s (_ : unit), assignID distMap (Segment.GetID s)) tt;
  view ← derefView leaderView;
  segments ← loadSegments (LeaderView.Segments view);
  entries ← rangeOver segments;
  forRange entries (λ '(sid, s) ret,
    inDist ← loadIDs distMap;
    let ok := bool_decide (sid ∈ inDist) in
    view ← derefView leaderView;
    segment ← reads (λ c, TargetManager.GetSealedSegment (LeaderChecker.target c)
                (LeaderView.CollectionID view) sid CurrentTargetFirst);
    let existInTarget := bool_decide (segment ≠ None) in
    if ok || existInTarget then mret ret
    else
      view ← derefView leaderView;
      let action := NewLeaderAction (LeaderView.ID view)
                      (LeaderView.ID view) ActionTypeReduce
                      (LeaderView.Channel view) sid 0 in
      let t := NewLeaderSegmentTask ID (LeaderView.CollectionID view)
                 replica (LeaderView.ID view) action in
      let t := Task.SetPriority TaskPriorityLow t in
      let t := Task.SetReason "remove segment from leader view" t in
      mret (ret ++ [t])) [].

Definition Check : G (list Task.t) :=
  active ← IsActive;
  if negb active then mret []
  else
    collectionIDs ← reads (λ c, Meta.GetAll (LeaderChecker.meta c));
    forRange collectionIDs (λ collectionID tasks,
      ready ← readyToCheck collectionID;
      if negb ready then mret tasks
      else
        collection ← reads (λ c, Meta.GetCollection (LeaderChecker.meta c)
                                   collectionID);
        match collection with
        | None => mret tasks
        | Some _ =>
            replicas ← reads (λ c, Meta.GetByCollection (LeaderChecker.meta c)
                                     collectionID);
            forRange replicas (λ replica tasks,
              streamingEnabled ← IsStreamingServiceEnabled;
              let nodes := if (streamingEnabled : bool)
                           then Replica.GetRWSQNodes replica
                           else Replica.GetRWNodes replica in
              forRange nodes (λ node tasks,
                delegatorList ← reads (λ c,
                  DistributionManager.ChannelsByCollectionAndNode
                    (LeaderChecker.dist c) (Replica.GetCollectionID replica)
                    node);
                forRange delegatorList (λ d tasks,
                  view ← derefView (Delegator.View d);
                  dist ← reads (λ c,
                    DistributionManager.SegmentsByChannelAndReplica
                      (LeaderChecker.dist c) (LeaderView.Channel view) replica);
                  loaded ← findNeedLoadedSegments replica (Delegator.View d) dist;
                  let tasks := tasks ++ loaded in
                  removed ← findNeedRemovedSegments replica (Delegator.View d) dist;
                  let tasks := tasks ++ removed in
                  synced ← findNeedSyncPartitionStats replica (Delegator.View d)
                             node;
                  let tasks := tasks ++ synced in
                  mret tasks) tasks) tasks) tasks
        end) [].

(** ** Notions the frame property is stated with *)

(** [returns m st Q]: run in [st], method [m] does not panic, and its
    result and the state it leaves satisfy [Q]. *)
Definition returns {A} (m : G A) (st : State.t) (Q : A → State.t → Prop)
    : Prop :=
  ∃ r st', m st = Some (r, st') ∧ Q r st'.

(** [triple total P m Q]: run in a state that satisfies [P], method [m]
    leaves a state and a result that satisfy [Q].  With [total] it does
    return; without, it may panic instead. *)
Definition triple (total : bool) (P : State.t → Prop) {A} (m : G A)
    (Q : A → State.t → Prop) : Prop :=
  ∀ st, P st →
        match m st with
        | Some (r, st') => Q r st'
        | None => total = false
        end.

(** State [st'] has everything [st] has, as it is in [st]: the same
    checker with the same managers, the same deployment mode, and every
    object of the heap of [st] at its address with its content.  Objects
    allocated since are the only difference. *)
Definition untouched (st st' : State.t) : Prop :=
  State.checker st' = State.checker st
  ∧ State.streaming st' = State.streaming st
  ∧ State.heap st ⊆ State.heap st'.

(** Whenever [m] returns, it has touched nothing. *)
Definition frames {A} (m : G A) : Prop :=
  ∀ st r st', m st = Some (r, st') → untouched st st'.

(** The map value [m] is nil or the address of a map of its kind. *)
Definition holdsSegments (h : gmap loc object) (m : mapref) : Prop :=
  match m with
  | nilMap => True
  | mapAt l => ∃ x, h !! l = Some (SegmentsObj x)
  end.

Definition holdsVersions (h : gmap loc object) (m : mapref) : Prop :=
  match m with
  | nilMap => True
  | mapAt l => ∃ x, h !! l = Some (VersionsObj x)
  end.

Definition holdsIDs (h : gmap loc object) (m : mapref) : Prop :=
  match m with
  | nilMap => True
  | mapAt l => ∃ x, h !! l = Some (IDsObj x)
  end.

(** The pointer [leaderView] points to a leader view whose two map
    fields hold maps of their kinds. *)
Definition holdsView (h : gmap loc object) (leaderView : loc) : Prop :=
  ∃ v, h !! leaderView = Some (ViewObj v)
       ∧ holdsSegments h (LeaderView.Segments v)
       ∧ holdsVersions h (LeaderView.PartitionStatsVersions v).

(** The references the managers hand out are those of a running query
    coordinator: no delegator comes with a nil view, and every map value
    is nil or a map of the right type. *)
Definition wellFormed (st : State.t) : Prop :=
  let c := State.checker st in
  (∀ collectionID node d,
     d ∈ DistributionManager.ChannelsByCollectionAndNode
           (LeaderChecker.dist c) collectionID node →
     holdsView (State.heap st) (Delegator.View d))
  ∧ (∀ collectionID channel scope d,
       TargetManager.GetDmChannel (LeaderChecker.target c)
         collectionID channel scope = Some d →
       holdsVersions (State.heap st) (DmChannel.PartitionStatsVersions d)).

(** ** A small cluster on the heap

    The cluster of the first part: the leader view of channel ["ch0"] at
    address 1, its routing table at 2, its version map at 3, and the
    version map of the channel descriptor of the current target at 4. *)

Definition ex_heap : gmap loc object :=
  {[ 1%positive := ViewObj (LeaderView.mk 1 100 "ch0" (mapAt 2%positive)
                              (mapAt 3%positive));
     2%positive := SegmentsObj (<[10 := SegmentDist.mk 1 1]>
                     (<[11 := SegmentDist.mk 2 1]>
                        (<[13 := SegmentDist.mk 2 1]>
                           (<[14 := SegmentDist.mk 2 1]> ∅))));
     3%positive := VersionsObj (<[1 := 3]> (<[2 := 2]> ∅));
     4%positive := VersionsObj (<[1 := 3]> (<[2 := 5]> ∅)) ]}.

Definition ex_checker : LeaderChecker.t :=
  LeaderChecker.mk true ex_meta
    (DistributionManager.mk
       (λ collectionID node,
          if bool_decide (collectionID = 100 ∧ node = 1)
          then [Delegator.mk 1%positive] else [])
       (λ channel replica,
          if bool_decide (channel = "ch0" ∧ Replica.GetID replica = 1)
          then ex_dist else []))
    (TargetManager.mk
       (λ collectionID, bool_decide (collectionID = 100))
       (λ collectionID _, bool_decide (collectionID = 100))
       (λ collectionID channel scope,
          if bool_decide (collectionID = 100 ∧ channel = "ch0")
          then Some (DmChannel.mk (mapAt 4%positive)) else None)
       (λ collectionID segmentID scope,
          if bool_decide (collectionID = 100
                          ∧ segmentID ∈ match scope with
                                        | CurrentTarget => [10; 11; 12]
                                        | CurrentTargetFirst => [10; 11; 12; 14]
                                        end)
          then Some (ex_info segmentID) else None)).

Definition ex_state : State.t := State.mk ex_checker false ex_runtime ex_heap.

End Shared.

(** * The snapshot a heap state stands for

    Reading every reference off the heap turns a state of the second
    embedding into a world of the first: a view pointer becomes the view
    with the contents of its two maps, a channel descriptor the
    descriptor with the content of its version map. *)

Definition segmentsAt (h : gmap Shared.loc Shared.object)
    (m : Shared.mapref) : gmap Z SegmentDist.t :=
  match m with
  | Shared.nilMap => ∅
  | Shared.mapAt l =>
      match h !! l with Some (Shared.SegmentsObj x) => x | _ => ∅ end
  end.

Definition versionsAt (h : gmap Shared.loc Shared.object)
    (m : Shared.mapref) : gmap Z Z :=
  match m with
  | Shared.nilMap => ∅
  | Shared.mapAt l =>
      match h !! l with Some (Shared.VersionsObj x) => x | _ => ∅ end
  end.

Definition viewOf (h : gmap Shared.loc Shared.object)
    (v : Shared.LeaderView.t) : LeaderView.t :=
  LeaderView.mk (Shared.LeaderView.ID v) (Shared.LeaderView.CollectionID v)
    (Shared.LeaderView.Channel v)
    (segmentsAt h (Shared.LeaderView.Segments v))
    (versionsAt h (Shared.LeaderView.PartitionStatsVersions v)).

Definition viewAt (h : gmap Shared.loc Shared.object) (l : Shared.loc)
    : LeaderView.t :=
  match h !! l with
  | Some (Shared.ViewObj v) => viewOf h v
  | _ => LeaderView.mk 0 0 "" ∅ ∅
  end.

Definition delegatorAt (h : gmap Shared.loc Shared.object)
    (d : Shared.Delegator.t) : Delegator.t :=
  Delegator.mk (viewAt h (Shared.Delegator.View d)).

Definition channelAt (h : gmap Shared.loc Shared.object)
    (d : Shared.DmChannel.t) : DmChannel.t :=
  DmChannel.mk (versionsAt h (Shared.DmChannel.PartitionStatsVersions d)).

Definition checkerAt (h : gmap Shared.loc Shared.object)
    (c : Shared.LeaderChecker.t) : LeaderChecker.t :=
  let dist := Shared.LeaderChecker.dist c in
  let target := Shared.LeaderChecker.target c in
  LeaderChecker.mk (Shared.LeaderChecker.checkerActivation c)
    (Shared.LeaderChecker.meta c)
    (DistributionManager.mk
       (λ collectionID node,
          delegatorAt h
          <$> Shared.DistributionManager.ChannelsByCollectionAndNode dist
                collectionID node)
       (Shared.DistributionManager.SegmentsByChannelAndReplica dist))
    (TargetManager.mk
       (Shared.TargetManager.IsNextTargetExist target)
       (Shared.TargetManager.IsCurrentTargetExist target)
       (λ collectionID channel scope,
          channelAt h
          <$> Shared.TargetManager.GetDmChannel target collectionID channel
                scope)
       (Shared.TargetManager.GetSealedSegment target)).

Definition snapshot (st : Shared.State.t) : World.t :=
  World.mk (checkerAt (Shared.State.heap st) (Shared.State.checker st))
    (Shared.State.streaming st) (Shared.State.runtime st).

(** A task with the batch its action refers to. *)
Definition taskAt (h : gmap Shared.loc Shared.object) (t : Shared.Task.t)
    : Task.t :=
  let a := Shared.Task.action t in
  Task.mk (Shared.Task.kind t) (Shared.Task.source t)
    (Shared.Task.collectionID t) (Shared.Task.replica t)
    (Shared.Task.leaderID t)
    (LeaderAction.mk (Shared.LeaderAction.leaderID a)
       (Shared.LeaderAction.workerID a) (Shared.LeaderAction.typ a)
       (Shared.LeaderAction.shard a) (Shared.LeaderAction.segmentID a)
       (Shared.LeaderAction.version a)
       (versionsAt h (Shared.LeaderAction.partStatsVersions a)))
    (Shared.Task.priority t) (Shared.Task.reason t).

(** The tasks [ts], whose batches are on the heap [h], are the tasks
    [ts'] of the first embedding. *)
Definition tasksAt (h : gmap Shared.loc Shared.object)
    (ts : list Shared.Task.t) (ts' : list Task.t) : Prop :=
  Forall (λ t, Shared.holdsVersions h
                 (Shared.LeaderAction.partStatsVersions (Shared.Task.action t)))
         ts
  ∧ taskAt h <$> ts = ts'.

(** [sim m m' st w Q]: method [m] of the second embedding, run in [st],
    returns, and with the result and the world method [m'] of the first
    embedding gives in [w] it satisfies [Q]. *)
Definition sim {A B} (m : Shared.G A) (m' : M B) (st : Shared.State.t)
    (w : World.t) (Q : A → B → Shared.State.t → World.t → Prop) : Prop :=
  ∃ r st', m st = Some (r, st') ∧ Q r (m' w).1 st' (m' w).2.

(** State [st] of a run that started in [st0] goes with world [w] of a
    run that started in the snapshot of [st0]. *)
Definition stands (st0 st : Shared.State.t) (w : World.t) : Prop :=
  Shared.untouched st0 st
  ∧ World.checker w
    = checkerAt (Shared.State.heap st0) (Shared.State.checker st0)
  ∧ World.streaming w = Shared.State.streaming st0
  ∧ World.runtime w = Shared.State.runtime st.

(** Every query of the three readers has, on the snapshot of [st'], the
    answer it has on the snapshot of [st]. *)
Definition sameAnswers (st st' : Shared.State.t) : Prop :=
  let c := World.checker (snapshot st) in
  let c' := World.checker (snapshot st') in
  LeaderChecker.checkerActivation c' = LeaderChecker.checkerActivation c
  ∧ LeaderChecker.meta c' = LeaderChecker.meta c
  ∧ (∀ collectionID node,
       DistributionManager.ChannelsByCollectionAndNode (LeaderChecker.dist c')
         collectionID node
       = DistributionManager.ChannelsByCollectionAndNode (LeaderChecker.dist c)
           collectionID node)
  ∧ (∀ channel replica,
       DistributionManager.SegmentsByChannelAndReplica (LeaderChecker.dist c')
         channel replica
       = DistributionManager.SegmentsByChannelAndReplica (LeaderChecker.dist c)
           channel replica)
  ∧ (∀ collectionID,
       TargetManager.IsNextTargetExist (LeaderChecker.target c') collectionID
       = TargetManager.IsNextTargetExist (LeaderChecker.target c) collectionID)
  ∧ (∀ collectionID partitionID,
       TargetManager.IsCurrentTargetExist (LeaderChecker.target c')
         collectionID partitionID
       = TargetManager.IsCurrentTargetExist (LeaderChecker.target c)
           collectionID partitionID)
  ∧ (∀ collectionID channel scope,
       TargetManager.GetDmChannel (LeaderChecker.target c') collectionID
         channel scope
       = TargetManager.GetDmChannel (LeaderChecker.target c) collectionID
           channel scope)
  ∧ (∀ collectionID segmentID scope,
       TargetManager.GetSealedSegment (LeaderChecker.target c') collectionID
         segmentID scope
       = TargetManager.GetSealedSegment (LeaderChecker.target c) collectionID
           segmentID scope).
(** * Properties *)

(** ** Reasoning about methods *)

Lemma advance_0 w : advance 0 w = w.
Proof.
  destruct w as [c s [clk pk p]]. unfold advance; simpl.
  by rewrite Nat.add_0_r.
Qed.

Lemma advance_advance n k w : advance k (advance n w) = advance (n + k) w.
Proof. unfold advance; simpl. by rewrite Nat.add_assoc. Qed.

Lemma spec_mono {A} (m : M A) w (Q Q' : A → Prop) :
  spec m w Q → (∀ r, Q r → Q' r) → spec m w Q'.
Proof. intros (r & n & E & HQ) H. exists r, n. auto. Qed.

Lemma spec_ret {A} (x : A) w (Q : A → Prop) : Q x → spec (mret x) w Q.
Proof. intros HQ. exists x, 0%nat. by rewrite advance_0. Qed.

Lemma spec_bind {A B} (m : M A) (f : A → M B) w (Q : A → Prop) (Q' : B → Prop) :
  spec m w Q →
  (∀ x n, Q x → spec (f x) (advance n w) Q') →
  spec (m ≫= f) w Q'.
Proof.
  intros (x & n & E & HQ) Hf.
  destruct (Hf x n HQ) as (y & k & E' & HQ').
  exists y, (n + k)%nat. unfold mbind, M_bind. rewrite E, E'.
  by rewrite advance_advance.
Qed.

Lemma spec_reads {A} (f : LeaderChecker.t → A) w (Q : A → Prop) :
  Q (f (World.checker w)) → spec (reads f) w Q.
Proof. intros HQ. exists (f (World.checker w)), 0%nat. by rewrite advance_0. Qed.

Lemma spec_streaming w (Q : bool → Prop) :
  Q (World.streaming w) → spec IsStreamingServiceEnabled w Q.
Proof. intros HQ. exists (World.streaming w), 0%nat. by rewrite advance_0. Qed.

Lemma spec_forRange {A S} (xs : list A) (body : A → S → M S) (I : S → Prop) :
  (∀ x s w, I s → spec (body x s) w I) →
  ∀ s w, I s → spec (forRange xs body s) w I.
Proof.
  intros Hbody. induction xs as [|x xs IH]; intros s w Hs; simpl.
  - by apply spec_ret.
  - eapply spec_bind; [by apply Hbody | intros s' n Hs'; by apply IH].
Qed.

Lemma forRange_app {A S} (xs ys : list A) (body : A → S → M S) s w :
  forRange (xs ++ ys) body s w
  = (s' ← forRange xs body s; forRange ys body s') w.
Proof.
  revert s w. induction xs as [|x xs IH]; intros s w; simpl; [done|].
  unfold mbind, M_bind in *. destruct (body x s w) as [s' w']. apply IH.
Qed.

(** The order a [range] visits a map in is a permutation of its entries. *)
Lemma iterOrder_perm {A} (choices : list nat) (l : list A) :
  iterOrder choices l ≡ₚ l.
Proof.
  revert l. induction choices as [|c cs IH]; intros l; simpl; [done|].
  destruct (l !! (c `mod` length l)%nat) as [x|] eqn:E.
  - rewrite IH. symmetry. by apply delete_Permutation.
  - destruct l as [|y l]; [done|].
    apply lookup_ge_None in E. simpl in E.
    pose proof (Nat.mod_upper_bound c (S (length l))). lia.
Qed.

Lemma rangeMap_run {K} `{Countable K} {V} (m : gmap K V) w :
  ∃ l, rangeMap m w = (l, advance (length (map_to_list m)) w)
       ∧ l ≡ₚ map_to_list m.
Proof. eexists. split; [reflexivity | apply iterOrder_perm]. Qed.

(** ** Segments to load *)

Lemma findNeedLoadedSegments_run replica lv dist w :
  let need := filter (λ s, needsGrow (World.checker w) lv s)
                     (FindMaxVersionSegments dist) in
  findNeedLoadedSegments replica lv dist w
  = (growTasks replica lv (Runtime.clock (World.runtime w))
       (Runtime.pos (World.runtime w)) need,
     advance (length need) w).
Proof.
  unfold findNeedLoadedSegments.
  match goal with |- context [forRange _ ?b] => set (body := b) end.
  generalize (FindMaxVersionSegments dist) as xs.
  assert (∀ xs ret w,
    let need := filter (λ s, needsGrow (World.checker w) lv s) xs in
    forRange xs body ret w
    = (ret ++ growTasks replica lv (Runtime.clock (World.runtime w))
                (Runtime.pos (World.runtime w)) need,
       advance (length need) w)) as Hloop; [|intros xs; apply (Hloop xs [])].
  subst body. clear w.
  induction xs as [|s xs IH]; intros ret w; cbn [forRange].
  - cbn. by rewrite app_nil_r, advance_0.
  - unfold mbind, M_bind, reads at 1.
    destruct (needsGrow (World.checker w) lv s) eqn:Hneed.
    + rewrite filter_cons_True by (by rewrite Hneed).
      apply andb_true_iff in Hneed as [Hseg Hlv].
      destruct (TargetManager.GetSealedSegment _ _ _ _); [|done].
      rewrite Hlv. unfold timeNowUnixNano, mret, M_ret.
      rewrite IH. cbn. rewrite <- app_assoc, advance_advance, Nat.add_1_r.
      done.
    + rewrite filter_cons_False by (rewrite Hneed; cbn; tauto).
      apply andb_false_iff in Hneed as [Hseg|Hlv].
      * destruct (TargetManager.GetSealedSegment _ _ _ _); [done|].
        unfold mret, M_ret at 1. apply IH.
      * destruct (TargetManager.GetSealedSegment _ _ _ _).
        -- rewrite Hlv. unfold mret, M_ret at 1. apply IH.
        -- unfold mret, M_ret at 1. apply IH.
Qed.

Lemma elem_of_growTasks replica lv clock p l t :
  t ∈ growTasks replica lv clock p l
  ↔ ∃ i s, l !! i = Some s ∧ t = growTask replica lv s (clock (p + i)%nat).
Proof.
  revert p. induction l as [|s l IH]; intros p; simpl.
  - split; [by intros ?%elem_of_nil | by intros (i & s & ? & _)].
  - rewrite elem_of_cons, IH. split.
    + intros [->|(i & s' & Hi & ->)].
      * exists 0%nat, s. by rewrite Nat.add_0_r.
      * exists (S i), s'. by rewrite Nat.add_succ_r.
    + intros (i & s' & Hi & ->). destruct i as [|i]; simpl in Hi.
      * left. rewrite Nat.add_0_r. congruence.
      * right. exists i, s'. by rewrite Nat.add_succ_r.
Qed.

Lemma needsGrow_spec c lv s :
  needsGrow c lv s = true
  ↔ TargetManager.GetSealedSegment (LeaderChecker.target c)
      (LeaderView.CollectionID lv) (Segment.GetID s) CurrentTargetFirst ≠ None
    ∧ misrouted lv s.
Proof.
  unfold needsGrow, misrouted. rewrite andb_true_iff, bool_decide_eq_true.
  apply and_iff_compat_l.
  destruct (LeaderView.Segments lv !! Segment.GetID s) as [v|].
  - rewrite bool_decide_eq_true. unfold SegmentDist.GetNodeID. split.
    + intros Hne. right. by exists v.
    + intros [?|(v' & [= <-] & Hne)]; done.
  - split; [by left | done].
Qed.

(** C1.  For a resolved placement [s] whose segment the
    current-target-first view of the target holds,
    [findNeedLoadedSegments] emits the grow task of [s] if and only if the
    leader view has no entry for the segment or its entry names a node
    other than the placement's.  That task has leader-view ID and target
    view the view's ID, worker node the placement's node, channel the
    segment's insert channel, subject the segment ID and, as timestamp
    hint, a reading the clock gave during the call.  Every task in the
    output is such a task, of a resolved placement that the target holds
    and the view does not route to. *)
Theorem findNeedLoadedSegments_grow_iff w replica lv dist s :
  s ∈ FindMaxVersionSegments dist →
  TargetManager.GetSealedSegment (LeaderChecker.target (World.checker w))
    (LeaderView.CollectionID lv) (Segment.GetID s) CurrentTargetFirst ≠ None →
  let (tasks, w') := findNeedLoadedSegments replica lv dist w in
  let clock := Runtime.clock (World.runtime w) in
  let during (k : nat) :=
    (Runtime.pos (World.runtime w) ≤ k < Runtime.pos (World.runtime w'))%nat in
  let grow (s : Segment.t) (now : Z) :=
    Task.mk LeaderSegmentTask LeaderCheckerType (Segment.GetCollectionID s)
      replica (LeaderView.ID lv)
      (LeaderAction.mk (LeaderView.ID lv) (Segment.Node s) ActionTypeGrow
         (Segment.GetInsertChannel s) (Segment.GetID s) now ∅)
      TaskPriorityLow "add segment to leader view" in
  ((∃ k, during k ∧ grow s (clock k) ∈ tasks)
   ↔ (LeaderView.Segments lv !! Segment.GetID s = None
      ∨ ∃ v, LeaderView.Segments lv !! Segment.GetID s = Some v
             ∧ SegmentDist.NodeID v ≠ Segment.Node s))
  ∧ (∀ t, t ∈ tasks →
       ∃ s' k, s' ∈ FindMaxVersionSegments dist
               ∧ TargetManager.GetSealedSegment
                   (LeaderChecker.target (World.checker w))
                   (LeaderView.CollectionID lv) (Segment.GetID s')
                   CurrentTargetFirst ≠ None
               ∧ misrouted lv s'
               ∧ during k
               ∧ t = grow s' (clock k)).
Proof.
  intros Hs Hseg. rewrite findNeedLoadedSegments_run. cbn zeta.
  set (need := filter _ _). cbn [advance World.runtime Runtime.pos].
  fold (misrouted lv s).
  assert (∀ s', s' ∈ need ↔
    s' ∈ FindMaxVersionSegments dist
    ∧ TargetManager.GetSealedSegment (LeaderChecker.target (World.checker w))
        (LeaderView.CollectionID lv) (Segment.GetID s') CurrentTargetFirst
      ≠ None
    ∧ misrouted lv s') as Hneed.
  { intros s'. unfold need.
    rewrite list_elem_of_filter, Is_true_true, needsGrow_spec. tauto. }
  split; [split|].
  - intros (k & _ & Ht). apply elem_of_growTasks in Ht as (i & s' & Hi & Ht).
    apply list_elem_of_lookup_2, Hneed in Hi as (_ & _ & Hm).
    injection Ht as _ Hnode _ Hid _. unfold misrouted in *.
    by rewrite Hid, Hnode.
  - intros Hm.
    assert (s ∈ need) as Hin by (by apply Hneed).
    apply list_elem_of_lookup_1 in Hin as [i Hi].
    exists (Runtime.pos (World.runtime w) + i)%nat. split.
    + apply lookup_lt_Some in Hi. lia.
    + apply elem_of_growTasks. by exists i, s.
  - intros t Ht. apply elem_of_growTasks in Ht as (i & s' & Hi & ->).
    exists s', (Runtime.pos (World.runtime w) + i)%nat.
    pose proof (lookup_lt_Some _ _ _ Hi) as Hlt.
    apply list_elem_of_lookup_2, Hneed in Hi as (? & ? & ?).
    repeat split; try done; lia.
Qed.

Lemma filter_swap {A} (P Q : A → Prop) `{∀ x, Decision (P x)}
    `{∀ x, Decision (Q x)} (l : list A) :
  filter P (filter Q l) = filter Q (filter P l).
Proof.
  induction l as [|x l IH]; [done|].
  rewrite !filter_cons.
  destruct (decide (Q x)), (decide (P x)); rewrite ?filter_cons;
    repeat case_decide; try done; by rewrite IH.
Qed.

(** The tasks of [growTasks] on a given subject come, in order, from the
    placements of that segment. *)
Lemma growTasks_subject replica lv clock q l S :
  Forall2 (λ t s, ∃ k, t = growTask replica lv s (clock k))
    (filter (λ t, LeaderAction.segmentID (Task.action t) = S)
            (growTasks replica lv clock q l))
    (filter (λ s, Segment.GetID s = S) l).
Proof.
  revert q. induction l as [|s l IH]; intros q; cbn [growTasks].
  - constructor.
  - rewrite !filter_cons. cbn [growTask Task.action LeaderAction.segmentID].
    case_decide; [|apply IH].
    constructor; [by exists q | apply IH].
Qed.

(** ** Segments to remove *)

Lemma elem_of_distMap (dists : list Segment.t) (sid : Z) :
  sid ∈ foldl (λ (distMap : gset Z) s, {[Segment.GetID s]} ∪ distMap) ∅ dists
  ↔ ∃ s, s ∈ dists ∧ Segment.GetID s = sid.
Proof.
  assert (∀ acc : gset Z,
    sid ∈ foldl (λ (distMap : gset Z) s, {[Segment.GetID s]} ∪ distMap) acc dists
    ↔ sid ∈ acc ∨ ∃ s, s ∈ dists ∧ Segment.GetID s = sid) as Hgen.
  { induction dists as [|s dists IH]; intros acc; simpl.
    - split; [auto | intros [?|(s & ?%elem_of_nil & _)]; done].
    - rewrite IH, elem_of_union, elem_of_singleton.
      setoid_rewrite elem_of_cons. split.
      + intros [[->|?]|(s' & ? & ?)]; eauto.
      + intros [?|(s' & [->|?] & ?)]; eauto. }
  rewrite Hgen. split; [intros [?%elem_of_empty|?]; done | auto].
Qed.

Lemma rangeMap_perm {K} `{Countable K} {V} (m : gmap K V) w :
  (rangeMap m w).1 ≡ₚ map_to_list m.
Proof. apply iterOrder_perm. Qed.

Lemma findNeedRemovedSegments_run replica lv dists w :
  findNeedRemovedSegments replica lv dists w
  = (reduceTask replica lv
       <$> filter (λ sid, stale (World.checker w) lv dists sid)
                  (rangeMap (LeaderView.Segments lv) w).1.*1,
     advance (length (map_to_list (LeaderView.Segments lv))) w).
Proof.
  unfold findNeedRemovedSegments.
  destruct (rangeMap_run (LeaderView.Segments lv) w) as (entries & E & _).
  unfold mbind, M_bind at 1. rewrite E. cbn [fst].
  match goal with |- context [forRange _ ?b] => set (body := b) end.
  assert (∀ xs ret w',
    forRange xs body ret w'
    = (ret ++ (reduceTask replica lv
                 <$> filter (λ sid, stale (World.checker w') lv dists sid) xs.*1),
       w')) as Hloop; [|by rewrite (Hloop entries [])].
  subst body. clear.
  induction xs as [|[sid s] xs IH]; intros ret w; cbn [forRange].
  - cbn. by rewrite app_nil_r.
  - unfold mbind, M_bind, reads at 1. cbn [fmap list_fmap fst].
    destruct (stale (World.checker w) lv dists sid) eqn:Hst.
    + rewrite filter_cons_True by (by rewrite Hst).
      unfold stale in Hst. apply negb_true_iff in Hst. rewrite Hst.
      unfold mret, M_ret. rewrite IH. cbn. by rewrite <- app_assoc.
    + rewrite filter_cons_False by (rewrite Hst; cbn; tauto).
      unfold stale in Hst. apply negb_false_iff in Hst. rewrite Hst.
      unfold mret, M_ret at 1. apply IH.
Qed.

Lemma stale_spec c lv dists sid :
  stale c lv dists sid = true
  ↔ (¬ ∃ s, s ∈ dists ∧ Segment.GetID s = sid)
    ∧ TargetManager.GetSealedSegment (LeaderChecker.target c)
        (LeaderView.CollectionID lv) sid CurrentTargetFirst = None.
Proof.
  unfold stale. rewrite negb_true_iff, orb_false_iff.
  rewrite !bool_decide_eq_false, elem_of_distMap.
  apply and_iff_compat_l. split; [|congruence].
  intros Hnn.
  destruct (TargetManager.GetSealedSegment _ _ _ _); [by destruct Hnn | done].
Qed.

Lemma elem_of_keys {V} (m : gmap Z V) (l : list (Z * V)) (k : Z) :
  l ≡ₚ map_to_list m → k ∈ l.*1 ↔ is_Some (m !! k).
Proof.
  intros Hl. rewrite Hl, list_elem_of_fmap. split.
  - intros ([k' v] & -> & Hin). apply elem_of_map_to_list in Hin. eauto.
  - intros [v Hv]. exists (k, v). split; [done|].
    by apply elem_of_map_to_list.
Qed.

Lemma NoDup_keys {V} (m : gmap Z V) (l : list (Z * V)) :
  l ≡ₚ map_to_list m → NoDup l.*1.
Proof. intros ->. apply NoDup_fst_map_to_list. Qed.

Lemma firstHit_None {A} (f : CollectionTarget.t → option A) ts :
  firstHit f ts = None ↔ ∀ t, t ∈ ts → f t = None.
Proof.
  induction ts as [|t ts IH]; simpl.
  - split; [by intros _ t ?%elem_of_nil | done].
  - destruct (f t) as [x|] eqn:E.
    + split; [done|]. intros H. specialize (H t (list_elem_of_here _ _)).
      congruence.
    + rewrite IH. split.
      * intros H t' [->|?]%elem_of_cons; auto.
      * intros H t' Hin. apply H. by right.
Qed.

(** In the two-generation store a segment is missing under
    [CurrentTargetFirst] exactly when neither generation holds it. *)
Lemma storeManager_sealed_None st collectionID sid :
  TargetManager.GetSealedSegment (storeManager st) collectionID sid
    CurrentTargetFirst = None
  ↔ (∀ t, TargetStore.current st !! collectionID = Some t
          → CollectionTarget.segments t !! sid = None)
    ∧ (∀ t, TargetStore.next st !! collectionID = Some t
            → CollectionTarget.segments t !! sid = None).
Proof.
  cbn. rewrite firstHit_None. split.
  - intros H. split; intros t Ht; apply H, elem_of_app; rewrite Ht.
    + left. apply list_elem_of_here.
    + right. apply list_elem_of_here.
  - intros [Hc Hn] t [Ht|Ht]%elem_of_app.
    + destruct (TargetStore.current st !! collectionID) as [t'|];
        cbn in Ht; [|by apply elem_of_nil in Ht].
      apply list_elem_of_singleton in Ht as ->. by apply Hc.
    + destruct (TargetStore.next st !! collectionID) as [t'|];
        cbn in Ht; [|by apply elem_of_nil in Ht].
      apply list_elem_of_singleton in Ht as ->. by apply Hn.
Qed.

(** C2.  For a segment ID in the leader view's segment map,
    [findNeedRemovedSegments] emits the reduce task of that ID if and only
    if no observed placement of the channel and replica carries the ID and
    the current-target-first view of the target has no such segment.  The
    task names the leader view's own ID as worker node, the view's channel,
    the segment ID as subject and timestamp hint 0.  The output holds only
    such tasks, each once.  With the two-generation target store, a segment
    of the next generation is never removed. *)
Theorem findNeedRemovedSegments_reduce_iff w replica lv dists sid :
  is_Some (LeaderView.Segments lv !! sid) →
  let tasks := (findNeedRemovedSegments replica lv dists w).1 in
  let reduce (sid : Z) :=
    Task.mk LeaderSegmentTask LeaderCheckerType (LeaderView.CollectionID lv)
      replica (LeaderView.ID lv)
      (LeaderAction.mk (LeaderView.ID lv) (LeaderView.ID lv) ActionTypeReduce
         (LeaderView.Channel lv) sid 0 ∅)
      TaskPriorityLow "remove segment from leader view" in
  (reduce sid ∈ tasks
   ↔ (¬ ∃ s, s ∈ dists ∧ Segment.GetID s = sid)
     ∧ TargetManager.GetSealedSegment (LeaderChecker.target (World.checker w))
         (LeaderView.CollectionID lv) sid CurrentTargetFirst = None)
  ∧ (∀ t, t ∈ tasks →
       ∃ sid', is_Some (LeaderView.Segments lv !! sid') ∧ t = reduce sid')
  ∧ NoDup tasks
  ∧ (∀ st tgt,
       LeaderChecker.target (World.checker w) = storeManager st →
       TargetStore.next st !! LeaderView.CollectionID lv = Some tgt →
       is_Some (CollectionTarget.segments tgt !! sid) →
       reduce sid ∉ tasks).
Proof.
  intros Hsid.
  rewrite findNeedRemovedSegments_run.
  pose proof (rangeMap_perm (LeaderView.Segments lv) w) as Hperm.
  revert Hperm. generalize (rangeMap (LeaderView.Segments lv) w).1 as entries.
  intros entries Hperm. cbn [fst]. fold (reduceTask replica lv).
  assert (Inj (=) (=) (reduceTask replica lv)) as Hinj.
  { intros a b Hab. by injection Hab. }
  assert (reduceTask replica lv sid
            ∈ reduceTask replica lv
                <$> filter (λ sid, stale (World.checker w) lv dists sid)
                           entries.*1
          ↔ (¬ ∃ s, s ∈ dists ∧ Segment.GetID s = sid)
            ∧ TargetManager.GetSealedSegment
                (LeaderChecker.target (World.checker w))
                (LeaderView.CollectionID lv) sid CurrentTargetFirst = None)
    as Hiff.
  { rewrite (list_elem_of_fmap_inj _), list_elem_of_filter.
    rewrite (elem_of_keys _ _ _ Hperm), <- stale_spec, Is_true_true.
    tauto. }
  split; [done|]. split; [|split].
  - intros t (sid' & -> & Hin)%list_elem_of_fmap.
    apply list_elem_of_filter in Hin as [_ Hin].
    exists sid'. by rewrite <- (elem_of_keys _ _ _ Hperm).
  - apply (NoDup_fmap_2 _), NoDup_filter. by eapply NoDup_keys.
  - intros st tgt Hst Hnext [seg Hseg]. rewrite Hiff, Hst.
    intros [_ Hnone]. apply storeManager_sealed_None in Hnone as [_ Hn].
    specialize (Hn tgt Hnext). congruence.
Qed.

(** ** Partition statistics to sync *)

Lemma syncStep_fold_lookup lv (xs : list (Z * Z)) (acc : gmap Z Z) p v :
  NoDup xs.*1 →
  (∀ k, k ∈ xs.*1 → acc !! k = None) →
  foldl (syncStep lv) acc xs !! p = Some v
  ↔ acc !! p = Some v ∨ ((p, v) ∈ xs ∧ recorded lv p < v).
Proof.
  revert acc. induction xs as [|[k u] xs IH]; intros acc Hnd Hacc.
  - cbn. split; [auto | intros [?|[?%elem_of_nil _]]; done].
  - rewrite fmap_cons in Hnd, Hacc. cbn [fst] in Hnd, Hacc. cbn [foldl].
    apply NoDup_cons in Hnd as [Hk Hnd].
    assert (acc !! k = None) as Hacck by (apply Hacc; left).
    assert (∀ v', (k, v') ∉ xs) as Hk'.
    { intros v' Hin. apply Hk, list_elem_of_fmap. by exists (k, v'). }
    assert (∀ k', k' ∈ xs.*1 → k' ≠ k) as Hne by (intros k' ? ->; done).
    rewrite IH; [|done|].
    + rewrite elem_of_cons. unfold syncStep; cbn [fst snd].
      case_bool_decide as Hlt.
      * rewrite lookup_insert. case_decide as Hkp.
        -- subst p. split.
           ++ intros [[= ->]|[Hin _]]; [|by destruct (Hk' v)].
              right. split; [by left | done].
           ++ intros [?|[[[= ->]|Hin] _]];
                [congruence | by left | by destruct (Hk' v)].
        -- split.
           ++ intros [?|[? ?]]; [by left | right; split; [by right | done]].
           ++ intros [?|[[[= ? ?]|?] ?]]; [by left | done | by right].
      * split.
        -- intros [?|[? ?]]; [by left | right; split; [by right | done]].
        -- intros [?|[[[= -> ->]|?] ?]]; [by left | done | by right].
    + intros k' Hin. unfold syncStep; cbn [fst snd].
      case_bool_decide; [|apply Hacc; by right].
      rewrite lookup_insert_ne; [apply Hacc; by right|].
      intros ->. by apply (Hne k').
Qed.

Lemma syncStep_fold lv (d : DmChannel.t) (xs : list (Z * Z)) :
  xs ≡ₚ map_to_list (DmChannel.PartitionStatsVersions d) →
  foldl (syncStep lv) ∅ xs = needSync lv d.
Proof.
  intros Hxs. apply map_eq. intros p. apply option_eq. intros v.
  rewrite syncStep_fold_lookup; [|by eapply NoDup_keys | by intros; apply lookup_empty].
  unfold needSync. rewrite map_lookup_filter_Some, lookup_empty, Hxs.
  rewrite elem_of_map_to_list. cbn [fst snd]. split.
  - intros [?|?]; done.
  - by right.
Qed.

Lemma findNeedSyncPartitionStats_run replica lv nodeID w :
  findNeedSyncPartitionStats replica lv nodeID w
  = match TargetManager.GetDmChannel (LeaderChecker.target (World.checker w))
            (LeaderView.CollectionID lv) (LeaderView.Channel lv) CurrentTarget
    with
    | None => ([], w)
    | Some d =>
        (if decide (needSync lv d = ∅) then []
         else [syncTask replica lv nodeID (needSync lv d)],
         advance (length (map_to_list (DmChannel.PartitionStatsVersions d))) w)
    end.
Proof.
  unfold findNeedSyncPartitionStats, mbind, M_bind, reads at 1.
  destruct (TargetManager.GetDmChannel _ _ _ _) as [d|]; [|done].
  unfold DmChannel.GetPartitionStatsVersions.
  destruct (rangeMap_run (DmChannel.PartitionStatsVersions d) w)
    as (entries & -> & Hperm).
  match goal with |- context [forRange _ ?b] => set (body := b) end.
  assert (∀ xs acc w', forRange xs body acc w' = (foldl (syncStep lv) acc xs, w'))
    as Hloop.
  { subst body. clear. induction xs as [|[p v] xs IH]; intros acc w; [done|].
    cbn [forRange foldl]. unfold mbind, M_bind, syncStep at 2, recorded.
    cbn [fst snd]. case_bool_decide; unfold mret, M_ret at 1; apply IH. }
  rewrite Hloop, (syncStep_fold lv d entries Hperm).
  case_bool_decide as Hsize; case_decide as Hempty; try done.
  - rewrite Hempty, map_size_empty in Hsize. lia.
  - destruct Hsize. apply Nat.neq_0_lt_0. by apply map_size_non_empty_iff.
Qed.

(** C3, as the code has it.  The partition-stats sub-diff reads the
    channel descriptor of the current target generation alone (scope
    [CurrentTarget]): it collects exactly the partitions whose desired
    version there is strictly greater than the version the leader view
    records (0 when it records none), mapped to the desired version, emits
    exactly one update-stats task with the whole batch for the given node
    when the batch is not empty, and no task when the batch is empty or the
    current generation has no descriptor of the channel. *)
Theorem findNeedSyncPartitionStats_current w replica lv nodeID :
  syncsAgainst CurrentTarget w replica lv nodeID.
Proof.
  unfold syncsAgainst. rewrite findNeedSyncPartitionStats_run.
  destruct (TargetManager.GetDmChannel _ _ _ _) as [d|]; [|done].
  exists (needSync lv d). cbn [fst]. split; [|split].
  - intros p v. unfold needSync. by rewrite map_lookup_filter_Some.
  - intros ->. done.
  - intros Hne. by case_decide.
Qed.

(** C3, as written, fails: while the next generation alone exists, the
    current-target-first descriptor of [ch0] asks for version 5 of
    partition 2 and the view records version 2, yet no task is emitted. *)
Lemma findNeedSyncPartitionStats_not_current_first :
  ¬ syncsAgainst CurrentTargetFirst ex_world_next_only ex_replica ex_view 1.
Proof.
  unfold syncsAgainst.
  replace (TargetManager.GetDmChannel _ _ _ _)
    with (Some (DmChannel.mk {[ 2 := 5 ]})) by (by vm_compute).
  replace (findNeedSyncPartitionStats _ _ _ _).1 with (@nil Task.t)
    by (by vm_compute).
  intros (batch & Hbatch & _ & Hne).
  assert (batch !! 2 = Some 5) as H2.
  { apply Hbatch. split; [by vm_compute | by vm_compute]. }
  assert (batch ≠ ∅) as Hb by (intros ->; by rewrite lookup_empty in H2).
  by specialize (Hne Hb).
Qed.

(** C10.  With a channel descriptor in the current target, a partition the
    descriptor lists and the leader view does not record is compared
    against version 0: a desired version above 0 puts it into the batch of
    the single task emitted, with that version, and a desired version of 0
    or less keeps it out.  A partition the descriptor does not list is in
    no batch, whatever the leader view records for it. *)
Theorem findNeedSyncPartitionStats_missing_partitions
    w replica lv nodeID d :
  TargetManager.GetDmChannel (LeaderChecker.target (World.checker w))
    (LeaderView.CollectionID lv) (LeaderView.Channel lv) CurrentTarget
  = Some d →
  let tasks := (findNeedSyncPartitionStats replica lv nodeID w).1 in
  let batchOf (t : Task.t) := LeaderAction.partStatsVersions (Task.action t) in
  (∀ p v, LeaderView.PartitionStatsVersions lv !! p = None →
          DmChannel.PartitionStatsVersions d !! p = Some v →
          (0 < v → ∃ t, tasks = [t] ∧ batchOf t !! p = Some v)
          ∧ (v ≤ 0 → ∀ t, t ∈ tasks → batchOf t !! p = None))
  ∧ (∀ p, DmChannel.PartitionStatsVersions d !! p = None →
          ∀ t, t ∈ tasks → batchOf t !! p = None).
Proof.
  intros Hd. rewrite findNeedSyncPartitionStats_run, Hd. cbn [fst].
  assert (∀ p v, needSync lv d !! p = Some v
                 ↔ DmChannel.PartitionStatsVersions d !! p = Some v
                   ∧ recorded lv p < v) as Hbatch.
  { intros p v. unfold needSync. by rewrite map_lookup_filter_Some. }
  assert (∀ p t,
    t ∈ (if decide (needSync lv d = ∅) then []
         else [syncTask replica lv nodeID (needSync lv d)]) →
    LeaderAction.partStatsVersions (Task.action t) !! p = needSync lv d !! p)
    as Hin.
  { intros p t. case_decide; [by intros ?%elem_of_nil|].
    by intros ->%list_elem_of_singleton. }
  split.
  - intros p v Hlv Hp. split.
    + intros Hv. assert (needSync lv d !! p = Some v) as Hpv.
      { apply Hbatch. unfold recorded. by rewrite Hlv. }
      case_decide as He; [by rewrite He, lookup_empty in Hpv|].
      eexists. split; [reflexivity | done].
    + intros Hv t Ht. rewrite (Hin p t Ht).
      apply eq_None_not_Some. intros [v' Hv'].
      apply Hbatch in Hv' as [Hv' Hlt]. unfold recorded in Hlt.
      rewrite Hlv in Hlt. cbn in Hlt. simplify_eq. lia.
  - intros p Hp t Ht. rewrite (Hin p t Ht).
    apply eq_None_not_Some. intros [v' Hv'].
    apply Hbatch in Hv' as [Hv' _]. congruence.
Qed.


(** ** Invariants of the scan *)

Ltac spec_step :=
  match goal with
  | |- spec (mret _) _ _ => apply spec_ret
  | |- spec (reads _) _ _ => apply spec_reads
  | |- spec IsStreamingServiceEnabled _ _ => apply spec_streaming
  | |- spec (forRange _ _ _) _ _ => apply spec_forRange; [intros ? ? ? ?|]
  | |- spec (if ?b then _ else _) _ _ => destruct b
  | |- spec (match ?x with Some _ => _ | None => _ end) _ _ => destruct x
  | |- spec (_ ≫= _) _ _ =>
      eapply spec_bind; [solve [eauto] | intros ? ? ?]
  | |- spec (_ ≫= _) _ _ =>
      eapply (spec_bind _ _ _ (λ _, True)); [| intros ? ? _]
  end.

Lemma spec_readyToCheck collectionID w : spec (readyToCheck collectionID) w (λ _, True).
Proof. unfold readyToCheck. repeat spec_step; done. Qed.

Section invariant.
Variable I : list Task.t → Prop.
Hypothesis I_app : ∀ a b, I a → I b → I (a ++ b).
Hypothesis I_loaded : ∀ replica lv dist w,
  spec (findNeedLoadedSegments replica lv dist) w I.
Hypothesis I_removed : ∀ replica lv dists w,
  spec (findNeedRemovedSegments replica lv dists) w I.
Hypothesis I_synced : ∀ replica lv nodeID w,
  spec (findNeedSyncPartitionStats replica lv nodeID) w I.

Lemma spec_checkCollection collectionID tasks w :
  I tasks → spec (checkCollection collectionID tasks) w I.
Proof using All.
  intros Htasks. unfold checkCollection.
  eapply spec_bind; [apply spec_readyToCheck | intros ready ? _].
  repeat spec_step; auto.
Qed.

Lemma spec_Check w : I [] → spec Check w I.
Proof using All.
  intros Hnil. unfold Check, IsActive.
  eapply (spec_bind _ _ _ (λ _, True)); [by apply spec_reads | intros active ? _].
  destruct active; cbn [negb]; [|by apply spec_ret].
  eapply (spec_bind _ _ _ (λ _, True)); [by apply spec_reads | intros ids ? _].
  apply spec_forRange; [|done].
  intros. by apply spec_checkCollection.
Qed.
End invariant.

Lemma spec_loaded_stamped replica lv dist w :
  spec (findNeedLoadedSegments replica lv dist) w
    (Forall (λ t, stamped t ∧ LeaderAction.typ (Task.action t) = ActionTypeGrow)).
Proof.
  eexists _, _. split; [apply findNeedLoadedSegments_run|].
  apply Forall_forall. by intros t (i & s & _ & ->)%elem_of_growTasks.
Qed.

Lemma spec_removed_stamped replica lv dists w :
  spec (findNeedRemovedSegments replica lv dists) w
    (Forall (λ t, stamped t ∧ LeaderAction.typ (Task.action t) = ActionTypeReduce)).
Proof.
  eexists _, _. split; [apply findNeedRemovedSegments_run|].
  apply Forall_forall. by intros t (sid & -> & _)%list_elem_of_fmap.
Qed.

Lemma spec_synced_stamped replica lv nodeID w :
  spec (findNeedSyncPartitionStats replica lv nodeID) w
    (Forall (λ t, stamped t ∧ LeaderAction.typ (Task.action t) = ActionTypeUpdate)).
Proof.
  unfold spec. rewrite findNeedSyncPartitionStats_run.
  destruct (TargetManager.GetDmChannel _ _ _ _) as [d|].
  - eexists _, _. split; [reflexivity|].
    case_decide; [constructor|]. by repeat constructor.
  - exists [], 0%nat. by rewrite advance_0.
Qed.

(** C8.  Every task of the three sub-diffs has low priority; the tasks of
    [findNeedLoadedSegments] are grow tasks with reason "add segment to
    leader view", those of [findNeedRemovedSegments] reduce tasks with
    reason "remove segment from leader view", those of
    [findNeedSyncPartitionStats] update tasks with reason "sync partition
    stats versions"; and so every task [Check] returns is stamped with low
    priority and the reason of its action. *)
Theorem tasks_low_priority_with_reason :
  (∀ w replica lv dist t,
     t ∈ (findNeedLoadedSegments replica lv dist w).1 →
     LeaderAction.typ (Task.action t) = ActionTypeGrow
     ∧ Task.priority t = TaskPriorityLow
     ∧ Task.reason t = "add segment to leader view")
  ∧ (∀ w replica lv dists t,
       t ∈ (findNeedRemovedSegments replica lv dists w).1 →
       LeaderAction.typ (Task.action t) = ActionTypeReduce
       ∧ Task.priority t = TaskPriorityLow
       ∧ Task.reason t = "remove segment from leader view")
  ∧ (∀ w replica lv nodeID t,
       t ∈ (findNeedSyncPartitionStats replica lv nodeID w).1 →
       LeaderAction.typ (Task.action t) = ActionTypeUpdate
       ∧ Task.priority t = TaskPriorityLow
       ∧ Task.reason t = "sync partition stats versions")
  ∧ (∀ w t, t ∈ (Check w).1 → stamped t).
Proof.
  assert (∀ (m : M (list Task.t)) w ty t,
    spec m w (Forall (λ t, stamped t
                           ∧ LeaderAction.typ (Task.action t) = ty)) →
    t ∈ (m w).1 →
    LeaderAction.typ (Task.action t) = ty ∧ stamped t) as Huse.
  { intros m w ty t (r & n & E & HF) Hin. rewrite E in Hin.
    rewrite Forall_forall in HF. by destruct (HF t Hin). }
  split; [|split; [|split]].
  - intros w replica lv dist t Hin.
    destruct (Huse _ _ _ _ (spec_loaded_stamped replica lv dist w) Hin)
      as [Ht [Hp Hr]].
    by rewrite Ht in Hr.
  - intros w replica lv dists t Hin.
    destruct (Huse _ _ _ _ (spec_removed_stamped replica lv dists w) Hin)
      as [Ht [Hp Hr]].
    by rewrite Ht in Hr.
  - intros w replica lv nodeID t Hin.
    destruct (Huse _ _ _ _ (spec_synced_stamped replica lv nodeID w) Hin)
      as [Ht [Hp Hr]].
    by rewrite Ht in Hr.
  - intros w t Hin.
    destruct (spec_Check (Forall stamped)) with (w := w) as (r & n & E & HF).
    + intros a b Ha Hb. by apply Forall_app.
    + intros. eapply spec_mono; [apply spec_loaded_stamped|].
      intros r Hr. eapply Forall_impl; [exact Hr | by intros ? [? _]].
    + intros. eapply spec_mono; [apply spec_removed_stamped|].
      intros r Hr. eapply Forall_impl; [exact Hr | by intros ? [? _]].
    + intros. eapply spec_mono; [apply spec_synced_stamped|].
      intros r Hr. eapply Forall_impl; [exact Hr | by intros ? [? _]].
    + constructor.
    + rewrite E in Hin. rewrite Forall_forall in HF. by apply HF.
Qed.

Lemma spec_preserves {A} (m : M A) :
  (∀ w, spec m w (λ _, True)) → preserves m.
Proof. intros Hm w. by destruct (Hm w) as (r & n & -> & _). Qed.

Lemma frame_loaded replica lv dist w :
  spec (findNeedLoadedSegments replica lv dist) w (λ _, True).
Proof. eapply spec_mono; [apply spec_loaded_stamped | done]. Qed.

Lemma frame_removed replica lv dists w :
  spec (findNeedRemovedSegments replica lv dists) w (λ _, True).
Proof. eapply spec_mono; [apply spec_removed_stamped | done]. Qed.

Lemma frame_synced replica lv nodeID w :
  spec (findNeedSyncPartitionStats replica lv nodeID) w (λ _, True).
Proof. eapply spec_mono; [apply spec_synced_stamped | done]. Qed.

Lemma frame_checkCollection collectionID tasks w :
  spec (checkCollection collectionID tasks) w (λ _, True).
Proof.
  apply spec_checkCollection;
    auto using frame_loaded, frame_removed, frame_synced.
Qed.

Lemma frame_Check w : spec Check w (λ _, True).
Proof.
  apply spec_Check; auto using frame_loaded, frame_removed, frame_synced.
Qed.

(** C6.  With the activation flag off, [Check] returns the empty task list
    at once, whatever the managers hold: the world it leaves is the world
    it was given, so no clock was read and no map was iterated. *)
Theorem Check_inactive w :
  LeaderChecker.checkerActivation (World.checker w) = false →
  Check w = ([], w).
Proof.
  intros Hoff. unfold Check, IsActive, mbind, M_bind, reads. by rewrite Hoff.
Qed.

(** ** Two runs of the scan *)

Section relational.
Variable Rw : relation World.t.

Lemma rel_ret {A} (R : relation A) (x y : A) :
  R x y → rel Rw R (mret x) (mret y).
Proof. intros HR w1 w2 Hw. by split. Qed.

Lemma rel_bind {A B} (R1 : relation A) (R : relation B)
    (m1 m2 : M A) (f1 f2 : A → M B) :
  rel Rw R1 m1 m2 →
  (∀ x1 x2, R1 x1 x2 → rel Rw R (f1 x1) (f2 x2)) →
  rel Rw R (m1 ≫= f1) (m2 ≫= f2).
Proof.
  intros Hm Hf w1 w2 Hw. unfold mbind, M_bind.
  destruct (Hm w1 w2 Hw) as [Hx Hw'].
  destruct (m1 w1) as [x1 w1'], (m2 w2) as [x2 w2']. by apply Hf.
Qed.

Lemma rel_forRange {A S} (R : relation S) (xs : list A)
    (b1 b2 : A → S → M S) :
  (∀ x s1 s2, R s1 s2 → rel Rw R (b1 x s1) (b2 x s2)) →
  ∀ s1 s2, R s1 s2 → rel Rw R (forRange xs b1 s1) (forRange xs b2 s2).
Proof.
  intros Hb. induction xs as [|x xs IH]; intros s1 s2 Hs; cbn [forRange].
  - by apply rel_ret.
  - eapply rel_bind; [by apply Hb | apply IH].
Qed.

Lemma rel_reads {A} (f : LeaderChecker.t → A) :
  (∀ w1 w2, Rw w1 w2 → f (World.checker w1) = f (World.checker w2)) →
  rel Rw eq (reads f) (reads f).
Proof. intros Hf w1 w2 Hw. split; [by apply Hf | done]. Qed.

Hypothesis Rw_streaming : ∀ w1 w2, Rw w1 w2 →
  World.streaming w1 = World.streaming w2.
Hypothesis Rw_GetCollection : ∀ w1 w2, Rw w1 w2 →
  Meta.GetCollection (LeaderChecker.meta (World.checker w1))
  = Meta.GetCollection (LeaderChecker.meta (World.checker w2)).
Hypothesis Rw_GetByCollection : ∀ w1 w2, Rw w1 w2 →
  Meta.GetByCollection (LeaderChecker.meta (World.checker w1))
  = Meta.GetByCollection (LeaderChecker.meta (World.checker w2)).
Hypothesis Rw_dist : ∀ w1 w2, Rw w1 w2 →
  LeaderChecker.dist (World.checker w1) = LeaderChecker.dist (World.checker w2).
Hypothesis Rw_target : ∀ w1 w2, Rw w1 w2 →
  LeaderChecker.target (World.checker w1)
  = LeaderChecker.target (World.checker w2).

Variable Rt : relation (list Task.t).
Hypothesis Rt_app : ∀ a1 a2 b1 b2,
  Rt a1 a2 → Rt b1 b2 → Rt (a1 ++ b1) (a2 ++ b2).
Hypothesis Rt_loaded : ∀ replica lv dist,
  rel Rw Rt (findNeedLoadedSegments replica lv dist)
            (findNeedLoadedSegments replica lv dist).
Hypothesis Rt_removed : ∀ replica lv dists,
  rel Rw Rt (findNeedRemovedSegments replica lv dists)
            (findNeedRemovedSegments replica lv dists).
Hypothesis Rt_synced : ∀ replica lv nodeID,
  rel Rw Rt (findNeedSyncPartitionStats replica lv nodeID)
            (findNeedSyncPartitionStats replica lv nodeID).

Ltac rel_read :=
  apply rel_reads;
  let H := fresh in
  intros ? ? H;
  rewrite ?(Rw_GetCollection _ _ H), ?(Rw_GetByCollection _ _ H),
          ?(Rw_dist _ _ H), ?(Rw_target _ _ H);
  reflexivity.

Ltac rel_step :=
  match goal with
  | |- rel _ _ (mret _) (mret _) => apply rel_ret
  | |- rel _ _ (forRange _ _ _) (forRange _ _ _) =>
      apply rel_forRange; [intros ? ? ? ?|]
  | |- rel _ _ (if ?b then _ else _) (if ?b then _ else _) => destruct b
  | |- rel _ _ (match ?x with Some _ => _ | None => _ end) _ => destruct x
  | |- rel _ _ (reads _ ≫= _) (reads _ ≫= _) =>
      eapply (rel_bind eq); [rel_read | intros ? ? <-]
  | |- rel _ _ (findNeedLoadedSegments _ _ _ ≫= _) _ =>
      eapply rel_bind; [apply Rt_loaded | intros ? ? ?]
  | |- rel _ _ (findNeedRemovedSegments _ _ _ ≫= _) _ =>
      eapply rel_bind; [apply Rt_removed | intros ? ? ?]
  | |- rel _ _ (findNeedSyncPartitionStats _ _ _ ≫= _) _ =>
      eapply rel_bind; [apply Rt_synced | intros ? ? ?]
  end.

Lemma rel_streaming :
  rel Rw eq IsStreamingServiceEnabled IsStreamingServiceEnabled.
Proof using Rw_streaming. intros w1 w2 Hw. split; [by apply Rw_streaming | done]. Qed.

Lemma rel_readyToCheck collectionID :
  rel Rw eq (readyToCheck collectionID) (readyToCheck collectionID).
Proof using Rw_GetCollection Rw_target.
  unfold readyToCheck.
  eapply (rel_bind eq); [rel_read | intros collection ? <-].
  eapply (rel_bind eq); [rel_read | intros nextExist ? <-].
  eapply (rel_bind eq); [|intros ? ? <-; by apply rel_ret].
  destruct nextExist; [by apply rel_ret | rel_read].
Qed.

Lemma rel_checkCollection collectionID tasks1 tasks2 :
  Rt tasks1 tasks2 →
  rel Rw Rt (checkCollection collectionID tasks1)
            (checkCollection collectionID tasks2).
Proof using All.
  intros Htasks. unfold checkCollection.
  eapply (rel_bind eq); [apply rel_readyToCheck | intros ready ? <-].
  destruct ready; cbn [negb]; [|by apply rel_ret].
  repeat rel_step; try done.
  eapply (rel_bind eq); [apply rel_streaming | intros streamingEnabled ? <-].
  repeat rel_step; auto.
Qed.
End relational.

(** *** The same snapshot under two runtimes *)

Lemma sameContent_refl a : sameContent a a.
Proof. by unfold sameContent. Qed.

Lemma sameContent_app a1 a2 b1 b2 :
  sameContent a1 a2 → sameContent b1 b2 → sameContent (a1 ++ b1) (a2 ++ b2).
Proof. unfold sameContent. intros Ha Hb. by rewrite !fmap_app, Ha, Hb. Qed.

Lemma eraseHint_growTasks replica lv clock p l :
  eraseHint <$> growTasks replica lv clock p l
  = (λ s, growTask replica lv s 0) <$> l.
Proof.
  revert p. induction l as [|s l IH]; intros p; [done|].
  cbn [growTasks fmap list_fmap]. f_equal. apply IH.
Qed.

Lemma sameSnapshot_advance n1 n2 w1 w2 :
  sameSnapshot w1 w2 → sameSnapshot (advance n1 w1) (advance n2 w2).
Proof. by intros [? ?]. Qed.

Lemma sameContent_loaded replica lv dist :
  rel sameSnapshot sameContent (findNeedLoadedSegments replica lv dist)
                               (findNeedLoadedSegments replica lv dist).
Proof.
  intros w1 w2 Hw. rewrite !findNeedLoadedSegments_run. cbn [fst snd].
  split; [|by apply sameSnapshot_advance].
  unfold sameContent. rewrite !eraseHint_growTasks.
  destruct Hw as [-> _]. done.
Qed.

Lemma sameContent_removed replica lv dists :
  rel sameSnapshot sameContent (findNeedRemovedSegments replica lv dists)
                               (findNeedRemovedSegments replica lv dists).
Proof.
  intros w1 w2 Hw. rewrite !findNeedRemovedSegments_run. cbn [fst snd].
  split; [|by apply sameSnapshot_advance].
  unfold sameContent. destruct Hw as [-> _].
  by rewrite !rangeMap_perm.
Qed.

Lemma sameContent_synced replica lv nodeID :
  rel sameSnapshot sameContent (findNeedSyncPartitionStats replica lv nodeID)
                               (findNeedSyncPartitionStats replica lv nodeID).
Proof.
  intros w1 w2 Hw. rewrite !findNeedSyncPartitionStats_run.
  destruct Hw as [Hc Hs]. rewrite Hc.
  destruct (TargetManager.GetDmChannel _ _ _ _) as [d|]; cbn [fst snd].
  - split; [by unfold sameContent | by apply sameSnapshot_advance].
  - split; [by unfold sameContent | done].
Qed.

(** C4.  Over one snapshot of topology, observed distribution and target,
    two invocations of [Check] return task lists with the same content:
    whatever the clock reads and in whatever order the runtime iterates
    the maps, the lists are permutations of each other once the timestamp
    hints of grow tasks are set aside.  In particular this holds for an
    invocation and the one that follows it. *)
Theorem Check_deterministic_content checker streaming rt1 rt2 :
  sameContent (Check (World.mk checker streaming rt1)).1
              (Check (World.mk checker streaming rt2)).1
  ∧ sameContent (Check (World.mk checker streaming rt1)).1
                (Check (Check (World.mk checker streaming rt1)).2).1.
Proof.
  assert (rel sameSnapshot sameContent Check Check) as Hrel.
  { unfold Check, IsActive.
    eapply (rel_bind _ eq);
      [apply rel_reads; by intros ? ? [-> _] | intros active ? <-].
    destruct active; cbn [negb]; [|apply rel_ret, sameContent_refl].
    eapply (rel_bind _ eq);
      [apply rel_reads; by intros ? ? [-> _] | intros ids ? <-].
    apply rel_forRange; [|apply sameContent_refl].
    intros collectionID tasks1 tasks2 Htasks.
    apply rel_checkCollection; try done.
    - by intros ? ? [_ ?].
    - by intros ? ? [-> _].
    - by intros ? ? [-> _].
    - by intros ? ? [-> _].
    - by intros ? ? [-> _].
    - apply sameContent_app.
    - apply sameContent_loaded.
    - apply sameContent_removed.
    - apply sameContent_synced. }
  split.
  - by apply Hrel.
  - apply Hrel.
    destruct (spec_preserves Check frame_Check (World.mk checker streaming rt1))
      as [Hc Hs].
    split; by rewrite ?Hc, ?Hs.
Qed.

(** *** A collection that is not ready *)

Lemma checkCollection_skip collectionID tasks w :
  unready (World.checker w) collectionID →
  checkCollection collectionID tasks w = (tasks, w).
Proof.
  intros Hun. unfold checkCollection, readyToCheck, mbind, M_bind, reads.
  destruct Hun as [Hmeta|[Hnext Hcur]].
  - rewrite Hmeta, bool_decide_eq_false_2 by (intros Hne; by apply Hne).
    destruct (TargetManager.IsNextTargetExist
                (LeaderChecker.target (World.checker w)) collectionID);
      [done|].
    by destruct (TargetManager.IsCurrentTargetExist
                   (LeaderChecker.target (World.checker w)) collectionID
                   AllPartitionsID).
  - rewrite Hnext, Hcur. cbn. by rewrite andb_false_r.
Qed.

Lemma forRange_checkCollection_skip pre collectionID post tasks w :
  unready (World.checker w) collectionID →
  forRange (pre ++ collectionID :: post) checkCollection tasks w
  = forRange (pre ++ post) checkCollection tasks w.
Proof.
  intros Hun. rewrite !forRange_app. unfold mbind, M_bind.
  destruct (spec_forRange pre checkCollection (λ _, True)) with tasks w
    as (r & n & -> & _); [intros; apply frame_checkCollection | done |].
  cbn [forRange]. unfold mbind, M_bind. by rewrite checkCollection_skip.
Qed.

Section dropped.
Variable ids : list Z.

Let dropped (w1 w2 : World.t) : Prop := w2 = withGetAll ids w1.

Lemma dropped_loaded replica lv dist :
  rel dropped eq (findNeedLoadedSegments replica lv dist)
                 (findNeedLoadedSegments replica lv dist).
Proof. intros w ? ->. by rewrite !findNeedLoadedSegments_run. Qed.

Lemma dropped_removed replica lv dists :
  rel dropped eq (findNeedRemovedSegments replica lv dists)
                 (findNeedRemovedSegments replica lv dists).
Proof. intros w ? ->. by rewrite !findNeedRemovedSegments_run. Qed.

Lemma dropped_synced replica lv nodeID :
  rel dropped eq (findNeedSyncPartitionStats replica lv nodeID)
                 (findNeedSyncPartitionStats replica lv nodeID).
Proof.
  intros w ? ->. rewrite !findNeedSyncPartitionStats_run.
  cbn [withGetAll World.checker LeaderChecker.target].
  by destruct (TargetManager.GetDmChannel _ _ _ _).
Qed.

Lemma dropped_scan (xs : list Z) tasks w :
  (forRange xs checkCollection tasks (withGetAll ids w)).1
  = (forRange xs checkCollection tasks w).1.
Proof.
  symmetry. apply (rel_forRange dropped eq); [|done..].
  intros collectionID tasks1 ? <-.
  apply rel_checkCollection; try (by intros ? ? ->).
  - intros ? ? ? ? -> ->. done.
  - apply dropped_loaded.
  - apply dropped_removed.
  - apply dropped_synced.
  - done.
Qed.
End dropped.

(** C7.  A collection whose metadata the collection manager does not have,
    or for which the target holds neither the next nor the current
    generation, is passed over without a task and without an error, and
    the scan goes on: [Check] returns the tasks it returns when the
    collection is not listed at all. *)
Theorem Check_skips_unready w pre collectionID post :
  Meta.GetAll (LeaderChecker.meta (World.checker w))
  = pre ++ collectionID :: post →
  unready (World.checker w) collectionID →
  (∀ tasks, checkCollection collectionID tasks w = (tasks, w))
  ∧ (Check w).1 = (Check (withGetAll (pre ++ post) w)).1.
Proof.
  intros Hall Hun. split; [intros; by apply checkCollection_skip|].
  unfold Check, IsActive, mbind, M_bind, reads.
  cbn [withGetAll World.checker LeaderChecker.checkerActivation
       LeaderChecker.meta Meta.GetAll].
  destruct (LeaderChecker.checkerActivation (World.checker w)); [|done].
  cbn [negb]. rewrite Hall, forRange_checkCollection_skip by done.
  symmetry. apply dropped_scan.
Qed.

(** ** The properties on the small cluster *)

Example Check_small_cluster :
  (Check ex_world).1
  = [ growTask ex_replica ex_view (Segment.mk (ex_info 10) 2 2) 1000;
      growTask ex_replica ex_view (Segment.mk (ex_info 12) 2 1) 1001;
      reduceTask ex_replica ex_view 13;
      syncTask ex_replica ex_view 1 {[ 2 := 5 ]} ].
Proof. by vm_compute. Qed.

Lemma findNeedLoadedSegments_grow_iff_witness :
  let s := Segment.mk (ex_info 12) 2 1 in
  s ∈ FindMaxVersionSegments ex_dist
  ∧ TargetManager.GetSealedSegment (LeaderChecker.target (World.checker ex_world))
      (LeaderView.CollectionID ex_view) (Segment.GetID s) CurrentTargetFirst
    ≠ None
  ∧ (misrouted ex_view s
     → ∃ k, growTask ex_replica ex_view s
              (Runtime.clock (World.runtime ex_world) k)
            ∈ (findNeedLoadedSegments ex_replica ex_view ex_dist ex_world).1).
Proof.
  intros s.
  assert (s ∈ FindMaxVersionSegments ex_dist) as Hs.
  { vm_compute. repeat constructor. }
  assert (TargetManager.GetSealedSegment
            (LeaderChecker.target (World.checker ex_world))
            (LeaderView.CollectionID ex_view) (Segment.GetID s)
            CurrentTargetFirst ≠ None) as Hseg.
  { vm_compute. discriminate. }
  split; [exact Hs | split; [exact Hseg|]].
  pose proof (findNeedLoadedSegments_grow_iff ex_world ex_replica ex_view
                ex_dist s Hs Hseg) as H.
  destruct (findNeedLoadedSegments ex_replica ex_view ex_dist ex_world)
    as [tasks w'].
  destruct H as [[_ Hgrow] _]. intros Hm.
  destruct (Hgrow Hm) as (k & _ & Hin). by exists k.
Defined.

Lemma findNeedRemovedSegments_reduce_iff_witness :
  is_Some (LeaderView.Segments ex_view !! 13)
  ∧ (reduceTask ex_replica ex_view 13
       ∈ (findNeedRemovedSegments ex_replica ex_view ex_dist ex_world).1
     ↔ (¬ ∃ s, s ∈ ex_dist ∧ Segment.GetID s = 13)
       ∧ TargetManager.GetSealedSegment
           (LeaderChecker.target (World.checker ex_world))
           (LeaderView.CollectionID ex_view) 13 CurrentTargetFirst = None).
Proof.
  assert (is_Some (LeaderView.Segments ex_view !! 13)) as H13.
  { vm_compute. by eexists. }
  split; [exact H13|].
  exact (proj1 (findNeedRemovedSegments_reduce_iff ex_world ex_replica ex_view
                  ex_dist 13 H13)).
Defined.

Lemma Check_inactive_witness :
  let w := World.mk (ex_checker false ex_store) false ex_runtime in
  LeaderChecker.checkerActivation (World.checker w) = false
  ∧ Check w = ([], w).
Proof.
  intros w. split; [reflexivity|]. apply (Check_inactive w). reflexivity.
Defined.

Lemma Check_skips_unready_witness :
  unready (World.checker ex_world) 200
  ∧ (Check ex_world).1 = (Check (withGetAll [100] ex_world)).1.
Proof.
  assert (unready (World.checker ex_world) 200) as Hun
    by (left; reflexivity).
  split; [exact Hun|].
  exact (proj2 (Check_skips_unready ex_world [100] 200 [] eq_refl Hun)).
Defined.

Lemma findNeedSyncPartitionStats_missing_partitions_witness :
  let lv := LeaderView.mk 1 100 "ch0" ∅ ∅ in
  let d := DmChannel.mk (<[1 := 3]> {[ 2 := 5 ]}) in
  TargetManager.GetDmChannel (LeaderChecker.target (World.checker ex_world))
    (LeaderView.CollectionID lv) (LeaderView.Channel lv) CurrentTarget = Some d
  ∧ ∃ t, (findNeedSyncPartitionStats ex_replica lv 1 ex_world).1 = [t]
         ∧ LeaderAction.partStatsVersions (Task.action t) !! 2 = Some 5.
Proof.
  intros lv d.
  assert (TargetManager.GetDmChannel
            (LeaderChecker.target (World.checker ex_world))
            (LeaderView.CollectionID lv) (LeaderView.Channel lv) CurrentTarget
          = Some d) as Hd by (by vm_compute).
  split; [exact Hd|].
  destruct (findNeedSyncPartitionStats_missing_partitions ex_world ex_replica
              lv 1 d Hd) as [Hin _].
  destruct (Hin 2 5) as [Hpos _]; [reflexivity | by vm_compute |].
  apply Hpos. lia.
Defined.

(** * Further properties *)

(** ** The nested loops as one loop *)

Lemma forRange_ext {A S} (xs : list A) (b1 b2 : A → S → M S) s w :
  (∀ x s w, b1 x s w = b2 x s w) →
  forRange xs b1 s w = forRange xs b2 s w.
Proof.
  intros Hb. revert s w. induction xs as [|x xs IH]; intros s w; [done|].
  cbn [forRange]. unfold mbind, M_bind. rewrite Hb.
  destruct (b2 x s w) as [s' w']. apply IH.
Qed.

Lemma forRange_fmap {A B S} (f : A → B) (xs : list A) (body : B → S → M S) s w :
  forRange (f <$> xs) body s w = forRange xs (λ x, body (f x)) s w.
Proof.
  revert s w. induction xs as [|x xs IH]; intros s w; [done|].
  cbn [fmap list_fmap forRange]. unfold mbind, M_bind.
  destruct (body (f x) s w) as [s' w']. apply IH.
Qed.

(** A loop whose body runs an inner loop over a list read off the
    snapshot is the loop over the concatenation of those lists, provided
    the inner body leaves the snapshot alone. *)
Lemma forRange_flatten {A B C S} (g : LeaderChecker.t → bool → A → list B)
    (mk : A → B → C) (body : C → S → M S) (xs : list A) s w :
  (∀ v s w, spec (body v s) w (λ _, True)) →
  forRange xs
    (λ x s w, forRange (g (World.checker w) (World.streaming w) x)
                       (λ y, body (mk x y)) s w) s w
  = forRange (x ← xs; mk x <$> g (World.checker w) (World.streaming w) x)
             body s w.
Proof.
  intros Hframe. revert s w. induction xs as [|x xs IH]; intros s w; [done|].
  rewrite bind_cons, forRange_app. cbn [forRange].
  unfold mbind, M_bind. rewrite forRange_fmap.
  destruct (spec_forRange (g (World.checker w) (World.streaming w) x)
              (λ y, body (mk x y)) (λ _, True)) with s w
    as (s' & n & -> & _); [intros; apply Hframe | done |].
  apply (IH s' (advance n w)).
Qed.

Lemma forRange_flatten_same {A C S} (g : LeaderChecker.t → bool → A → list C)
    (body : C → S → M S) (xs : list A) s w :
  (∀ v s w, spec (body v s) w (λ _, True)) →
  forRange xs
    (λ x s w, forRange (g (World.checker w) (World.streaming w) x) body s w)
    s w
  = forRange (x ← xs; g (World.checker w) (World.streaming w) x) body s w.
Proof.
  intros Hframe.
  etrans; [exact (forRange_flatten g (λ _ v, v) body xs s w Hframe)|].
  f_equal. apply list_bind_ext; [|done]. intros x. apply list_fmap_id.
Qed.

Lemma readyToCheck_run collectionID w :
  readyToCheck collectionID w = (ready (World.checker w) collectionID, w).
Proof.
  unfold readyToCheck, ready, mbind, M_bind, reads.
  by destruct (TargetManager.IsNextTargetExist _ _).
Qed.

(** What one visit returns: the tasks collected so far, then the grow
    tasks, the reduce tasks and the update task of the view. *)
Lemma checkView_run v tasks w :
  let c := World.checker w in
  let lv := Visit.view v in
  let dist := placementsOf c v in
  let w1 := (findNeedLoadedSegments (Visit.replica v) lv dist w).2 in
  let w2 := (findNeedRemovedSegments (Visit.replica v) lv dist w1).2 in
  checkView v tasks w
  = (tasks
     ++ (findNeedLoadedSegments (Visit.replica v) lv dist w).1
     ++ (findNeedRemovedSegments (Visit.replica v) lv dist w1).1
     ++ (findNeedSyncPartitionStats (Visit.replica v) lv (Visit.node v) w2).1,
     (findNeedSyncPartitionStats (Visit.replica v) lv (Visit.node v) w2).2).
Proof.
  cbn zeta. unfold checkView, placementsOf, Visit.view, mbind, M_bind, reads.
  destruct (frame_loaded (Visit.replica v) (Delegator.View (Visit.delegator v))
              (DistributionManager.SegmentsByChannelAndReplica
                 (LeaderChecker.dist (World.checker w))
                 (LeaderView.Channel (Delegator.View (Visit.delegator v)))
                 (Visit.replica v)) w) as (l & n & -> & _).
  cbn [fst snd].
  destruct (findNeedRemovedSegments _ _ _ _) as [r w2].
  destruct (findNeedSyncPartitionStats _ _ _ _) as [s w3].
  cbn. by rewrite <- !app_assoc.
Qed.

Lemma frame_checkView v tasks w : spec (checkView v tasks) w (λ _, True).
Proof.
  unfold checkView.
  eapply (spec_bind _ _ _ (λ _, True)); [by apply spec_reads | intros dist ? _].
  eapply spec_bind; [apply frame_loaded | intros loaded ? _].
  eapply spec_bind; [apply frame_removed | intros removed ? _].
  eapply spec_bind; [apply frame_synced | intros synced ? _].
  by apply spec_ret.
Qed.

Lemma checkCollection_flat collectionID tasks w :
  checkCollection collectionID tasks w
  = forRange (visits (World.checker w) (World.streaming w) collectionID)
             checkView tasks w.
Proof.
  unfold checkCollection, visits. unfold mbind at 1, M_bind at 1.
  rewrite readyToCheck_run.
  destruct (ready (World.checker w) collectionID) eqn:Hready; [|done].
  cbn [negb]. unfold mbind at 1 2, M_bind at 1 2, reads at 1 2.
  apply andb_true_iff in Hready as [Hmeta _].
  apply bool_decide_eq_true in Hmeta.
  destruct (Meta.GetCollection _ _) as [collection|]; [|done].
  rewrite <- (forRange_flatten_same replicaVisits checkView)
    by apply frame_checkView.
  apply forRange_ext. intros replica s w'. unfold replicaVisits.
  rewrite <- (forRange_flatten
                (λ c _ node,
                   DistributionManager.ChannelsByCollectionAndNode
                     (LeaderChecker.dist c) (Replica.GetCollectionID replica)
                     node)
                (Visit.mk replica) checkView)
    by apply frame_checkView.
  reflexivity.
Qed.

Lemma Check_flat w :
  Check w
  = if LeaderChecker.checkerActivation (World.checker w)
    then forRange (allVisits (World.checker w) (World.streaming w))
                  checkView [] w
    else ([], w).
Proof.
  unfold Check, IsActive, allVisits, mbind at 1 2, M_bind, reads.
  destruct (LeaderChecker.checkerActivation _); [|done]. cbn [negb].
  rewrite <- (forRange_flatten_same visits checkView)
    by apply frame_checkView.
  apply forRange_ext. intros collectionID s w'.
  by rewrite checkCollection_flat.
Qed.

(** ** What the scan returns *)

Lemma eraseHint_reduceTask replica lv (sids : list Z) :
  eraseHint <$> (reduceTask replica lv <$> sids) = reduceTask replica lv <$> sids.
Proof. rewrite <- list_fmap_compose. by apply list_fmap_ext. Qed.

Lemma emits_content c v block :
  emits c v block → eraseHint <$> block ≡ₚ expected c v.
Proof.
  intros (g & r & -> & Hg & Hr). unfold expected.
  assert (eraseHint <$> expectedSync c v = expectedSync c v) as Hs.
  { unfold expectedSync.
    destruct (TargetManager.GetDmChannel (LeaderChecker.target c) _ _ _)
      as [d|]; [|done].
    by case_decide. }
  rewrite !fmap_app, Hg, Hr, Hs. unfold expectedReduce at 1.
  by rewrite eraseHint_reduceTask.
Qed.

Lemma checkView_block v tasks w :
  ∃ block n, checkView v tasks w = (tasks ++ block, advance n w)
             ∧ emits (World.checker w) v block.
Proof.
  rewrite checkView_run. cbn zeta.
  rewrite findNeedLoadedSegments_run. cbn [fst snd].
  rewrite findNeedRemovedSegments_run. cbn [fst snd].
  rewrite findNeedSyncPartitionStats_run.
  cbn [advance World.checker].
  assert (∀ X n (r : list Task.t * World.t),
    r = (X, advance n w) → r.1 = X ∧ r.2 = advance n w) as Hsplit
    by (by intros ? ? ? ->).
  set (sync := match TargetManager.GetDmChannel _ _ _ _ with
               | Some d => _ | None => _ end).
  assert (∃ n, sync = (expectedSync (World.checker w) v, advance n w))
    as (n & ->).
  { subst sync. unfold expectedSync, Visit.view.
    destruct (TargetManager.GetDmChannel _ _ _ _) as [d|].
    - rewrite !advance_advance. by eexists.
    - rewrite !advance_advance. by eexists. }
  eexists _, n. split; [reflexivity|].
  eexists _, _. split; [reflexivity|]. split.
  - apply eraseHint_growTasks.
  - unfold expectedReduce. by rewrite rangeMap_perm.
Qed.

Lemma forRange_checkView_blocks vs tasks w :
  ∃ blocks n, forRange vs checkView tasks w = (tasks ++ concat blocks, advance n w)
              ∧ Forall2 (emits (World.checker w)) vs blocks.
Proof.
  revert tasks w. induction vs as [|v vs IH]; intros tasks w.
  - exists [], 0%nat. cbn. rewrite app_nil_r, advance_0. by split.
  - cbn [forRange]. unfold mbind at 1, M_bind.
    destruct (checkView_block v tasks w) as (b & n1 & -> & Hb).
    destruct (IH (tasks ++ b) (advance n1 w)) as (bs & n2 & -> & Hbs).
    exists (b :: bs), (n1 + n2)%nat.
    rewrite <- app_assoc, advance_advance. split; [done|].
    by constructor.
Qed.

Lemma Forall2_emits_content c vs blocks :
  Forall2 (emits c) vs blocks →
  eraseHint <$> concat blocks ≡ₚ vs ≫= expected c.
Proof.
  induction 1 as [|v b vs bs Hb _ IH]; [done|].
  cbn [concat]. by rewrite fmap_app, bind_cons, (emits_content _ _ _ Hb), IH.
Qed.

(** X1.  What [Check] returns, as a function of the snapshot.  The list is
    the concatenation, visit by visit in the order of the nested loops, of
    one block per leader view visited: the grow tasks of the resolved
    placements that the target wants and the view does not route to, in
    the resolver's order, then the reduce tasks of the stale entries, in
    the order the map is iterated, then the update task of the batch.  An
    inactive checker makes no visit. *)
Theorem Check_blocks w :
  let c := World.checker w in
  ∃ blocks,
    (Check w).1 = concat blocks
    ∧ Forall2 (emits c)
        (if LeaderChecker.checkerActivation c
         then allVisits c (World.streaming w) else [])
        blocks.
Proof.
  cbn zeta. rewrite Check_flat.
  destruct (LeaderChecker.checkerActivation _).
  - destruct (forRange_checkView_blocks
                (allVisits (World.checker w) (World.streaming w)) [] w)
      as (blocks & n & -> & Hblocks).
    by exists blocks.
  - exists []. by split.
Qed.

Lemma Check_content w :
  let c := World.checker w in
  eraseHint <$> (Check w).1
  ≡ₚ if LeaderChecker.checkerActivation c
     then allVisits c (World.streaming w) ≫= expected c
     else [].
Proof.
  cbn zeta. rewrite Check_flat.
  destruct (LeaderChecker.checkerActivation _); [|done].
  destruct (forRange_checkView_blocks
              (allVisits (World.checker w) (World.streaming w)) [] w)
    as (blocks & n & -> & Hblocks).
  apply (Forall2_emits_content _ _ _ Hblocks).
Qed.

Lemma elem_of_allVisits c streaming v :
  v ∈ allVisits c streaming
  ↔ ∃ collectionID,
      collectionID ∈ Meta.GetAll (LeaderChecker.meta c)
      ∧ ready c collectionID = true
      ∧ Visit.replica v
          ∈ Meta.GetByCollection (LeaderChecker.meta c) collectionID
      ∧ Visit.node v ∈ scannedNodes streaming (Visit.replica v)
      ∧ Visit.delegator v
          ∈ DistributionManager.ChannelsByCollectionAndNode
              (LeaderChecker.dist c)
              (Replica.GetCollectionID (Visit.replica v)) (Visit.node v).
Proof.
  unfold allVisits. rewrite list_elem_of_bind.
  split.
  - intros (collectionID & Hv & Hall). exists collectionID.
    unfold visits in Hv.
    destruct (ready c collectionID); [|by apply elem_of_nil in Hv].
    apply list_elem_of_bind in Hv as (replica & Hv & Hrep).
    unfold replicaVisits in Hv.
    apply list_elem_of_bind in Hv as (node & Hv & Hnode).
    apply list_elem_of_fmap in Hv as (d & -> & Hd). by cbn.
  - intros (collectionID & Hall & Hready & Hrep & Hnode & Hd).
    exists collectionID. split; [|done].
    unfold visits. rewrite Hready.
    apply list_elem_of_bind. exists (Visit.replica v). split; [|done].
    unfold replicaVisits.
    apply list_elem_of_bind. exists (Visit.node v). split; [|done].
    apply list_elem_of_fmap. exists (Visit.delegator v).
    split; [by destruct v | done].
Qed.

Lemma ready_spec c collectionID :
  ready c collectionID = true
  ↔ Meta.GetCollection (LeaderChecker.meta c) collectionID ≠ None
    ∧ (TargetManager.IsNextTargetExist (LeaderChecker.target c) collectionID
       = true
       ∨ TargetManager.IsCurrentTargetExist (LeaderChecker.target c)
           collectionID AllPartitionsID = true).
Proof.
  unfold ready.
  by rewrite andb_true_iff, bool_decide_eq_true, orb_true_iff.
Qed.

Lemma addresses_eraseHint t v : addresses (eraseHint t) v ↔ addresses t v.
Proof.
  unfold addresses, eraseHint.
  by destruct (LeaderAction.typ (Task.action t)).
Qed.

Lemma expected_addresses c v t : t ∈ expected c v → addresses t v.
Proof.
  unfold expected, expectedGrow, expectedReduce, expectedSync.
  rewrite !elem_of_app.
  intros [Hin|[Hin|Hin]].
  - by apply list_elem_of_fmap in Hin as (s & -> & _).
  - by apply list_elem_of_fmap in Hin as (sid & -> & _).
  - destruct (TargetManager.GetDmChannel _ _ _ _) as [d|];
      [|by apply elem_of_nil in Hin].
    case_decide; [by apply elem_of_nil in Hin|].
    by apply list_elem_of_singleton in Hin as ->.
Qed.

(** X2.  Where the tasks of [Check] come from.  Every task [Check] returns
    belongs to a visit of the scan: the checker is active; the collection
    manager lists a collection that has metadata and a next or a current
    target generation; the task carries a replica of that collection;
    the leader view it addresses is one the distribution manager reports
    for a member node of that replica, a streaming-query node when the
    streaming service is enabled and a read-write node when it is not; and
    the task is tagged with the checker's ID. *)
Theorem Check_provenance w t :
  t ∈ (Check w).1 →
  let c := World.checker w in
  LeaderChecker.checkerActivation c = true
  ∧ ∃ collectionID v,
      collectionID ∈ Meta.GetAll (LeaderChecker.meta c)
      ∧ Meta.GetCollection (LeaderChecker.meta c) collectionID ≠ None
      ∧ (TargetManager.IsNextTargetExist (LeaderChecker.target c) collectionID
         = true
         ∨ TargetManager.IsCurrentTargetExist (LeaderChecker.target c)
             collectionID AllPartitionsID = true)
      ∧ Visit.replica v
          ∈ Meta.GetByCollection (LeaderChecker.meta c) collectionID
      ∧ Visit.node v
          ∈ (if World.streaming w then Replica.RWSQNodes (Visit.replica v)
             else Replica.RWNodes (Visit.replica v))
      ∧ Visit.delegator v
          ∈ DistributionManager.ChannelsByCollectionAndNode
              (LeaderChecker.dist c)
              (Replica.CollectionID (Visit.replica v)) (Visit.node v)
      ∧ Task.source t = LeaderCheckerType
      ∧ Task.replica t = Visit.replica v
      ∧ Task.leaderID t = LeaderView.ID (Delegator.View (Visit.delegator v))
      ∧ LeaderAction.leaderID (Task.action t)
        = LeaderView.ID (Delegator.View (Visit.delegator v)).
Proof.
  intros Hin. cbn zeta.
  apply (list_elem_of_fmap_2 eraseHint) in Hin.
  rewrite Check_content in Hin. cbn zeta in Hin.
  destruct (LeaderChecker.checkerActivation _); [|by apply elem_of_nil in Hin].
  split; [done|].
  apply list_elem_of_bind in Hin as (v & Hexp & Hv).
  apply expected_addresses in Hexp.
  apply (proj1 (addresses_eraseHint t v)) in Hexp
    as (Hsrc & Hrep & Hid & Haid).
  apply elem_of_allVisits
    in Hv as (collectionID & Hall & Hready & Hr & Hnode & Hd).
  apply ready_spec in Hready as [Hmeta Htarget].
  exists collectionID, v. split_and!; first [done | exact Hsrc | exact Hid | exact Haid].
Qed.

(** ** When the checker is silent *)

Lemma filter_nil_iff {A} (P : A → Prop) `{∀ x, Decision (P x)} (l : list A) :
  filter P l = [] ↔ ∀ x, x ∈ l → ¬ P x.
Proof.
  induction l as [|x l IH].
  - split; [by intros _ x ?%elem_of_nil | done].
  - rewrite filter_cons. case_decide as HP.
    + split; [done|]. intros Hall. destruct (Hall x); [by left | done].
    + rewrite IH. split.
      * intros Hall y [->|?]%elem_of_cons; auto.
      * intros Hall y ?. apply Hall. by right.
Qed.

Lemma fmap_nil_iff {A B} (f : A → B) (l : list A) : f <$> l = [] ↔ l = [].
Proof. split; [apply fmap_nil_inv | by intros ->]. Qed.

Lemma growTasks_nil replica lv clock p l :
  growTasks replica lv clock p l = [] ↔ l = [].
Proof. by destruct l. Qed.

Lemma need_nil c lv dist :
  filter (λ s, needsGrow c lv s) (FindMaxVersionSegments dist) = []
  ↔ routed c lv dist.
Proof.
  rewrite filter_nil_iff. unfold routed.
  apply forall_proper; intros s. apply forall_proper; intros Hs.
  rewrite Is_true_true, needsGrow_spec. unfold misrouted.
  destruct (LeaderView.Segments lv !! Segment.GetID s) as [e|].
  - destruct (decide (SegmentDist.NodeID e = Segment.Node s)) as [He|He].
    + split; [by exists e|]. intros _ [_ [?|(e' & [= <-] & ?)]]; done.
    + split.
      * intros Hn Hseg. destruct Hn. split; [done|]. right. by exists e.
      * intros Hr [Hseg _]. destruct (Hr Hseg) as (e' & [= <-] & ?). done.
  - split.
    + intros Hn Hseg. destruct Hn. split; [done | by left].
    + intros Hr [Hseg _]. by destruct (Hr Hseg) as (e' & ? & _).
Qed.

Lemma stale_nil c lv dist (keys : list (Z * SegmentDist.t)) :
  keys ≡ₚ map_to_list (LeaderView.Segments lv) →
  filter (λ sid, stale c lv dist sid) keys.*1 = [] ↔ pruned c lv dist.
Proof.
  intros Hkeys. rewrite filter_nil_iff. unfold pruned.
  apply forall_proper; intros sid.
  rewrite (elem_of_keys _ _ _ Hkeys).
  apply forall_proper; intros Hsid.
  rewrite Is_true_true, stale_spec. split.
  - intros Hn.
    destruct (decide (sid ∈ foldl (λ (distMap : gset Z) s,
                                     {[Segment.GetID s]} ∪ distMap) ∅ dist))
      as [Hobs|Hobs]; [left; by apply elem_of_distMap|].
    right. intros Hnone. apply Hn. split; [|done].
    by rewrite <- elem_of_distMap.
  - intros [Hobs|Hseg] [Hn Hnone]; done.
Qed.

Lemma needSync_nil lv d :
  needSync lv d = ∅
  ↔ ∀ p v, DmChannel.PartitionStatsVersions d !! p = Some v → v ≤ recorded lv p.
Proof.
  unfold needSync. rewrite map_empty. split.
  - intros Hnone p v Hp. specialize (Hnone p).
    apply map_lookup_filter_None in Hnone as [Hnone|Hnone]; [congruence|].
    specialize (Hnone v Hp). cbn in Hnone. lia.
  - intros Hall p. apply map_lookup_filter_None. right.
    intros v Hp. specialize (Hall p v Hp). cbn. lia.
Qed.

Lemma sync_nil c replica lv nodeID :
  match TargetManager.GetDmChannel (LeaderChecker.target c)
          (LeaderView.CollectionID lv) (LeaderView.Channel lv)
          CurrentTarget with
  | Some d =>
      if decide (needSync lv d = ∅) then []
      else [syncTask replica lv nodeID (needSync lv d)]
  | None => []
  end = []
  ↔ statsCurrent c lv.
Proof.
  unfold statsCurrent.
  destruct (TargetManager.GetDmChannel _ _ _ _) as [d|].
  - case_decide as He.
    + split; [|done]. intros _ d' p v [= <-]. by apply needSync_nil.
    + split; [done|]. intros Hall. destruct He. apply needSync_nil.
      intros p v. by apply Hall.
  - split; [by intros _ d p v ? | done].
Qed.

Lemma loaded_nil_iff w replica lv dist :
  (findNeedLoadedSegments replica lv dist w).1 = []
  ↔ routed (World.checker w) lv dist.
Proof.
  rewrite findNeedLoadedSegments_run. cbn [fst].
  by rewrite growTasks_nil, need_nil.
Qed.

Lemma removed_nil_iff w replica lv dist :
  (findNeedRemovedSegments replica lv dist w).1 = []
  ↔ pruned (World.checker w) lv dist.
Proof.
  rewrite findNeedRemovedSegments_run. cbn [fst].
  rewrite fmap_nil_iff. apply stale_nil, rangeMap_perm.
Qed.

Lemma synced_nil_iff w replica lv nodeID :
  (findNeedSyncPartitionStats replica lv nodeID w).1 = []
  ↔ statsCurrent (World.checker w) lv.
Proof.
  rewrite findNeedSyncPartitionStats_run.
  rewrite <- (sync_nil (World.checker w) replica lv nodeID).
  by destruct (TargetManager.GetDmChannel _ _ _ _).
Qed.

(** X3.  When the sub-diffs are silent.  [findNeedLoadedSegments] returns
    no task exactly when the view routes every resolved placement the
    target wants to that placement's node; [findNeedRemovedSegments]
    returns none exactly when every segment the view routes is observed or
    wanted; [findNeedSyncPartitionStats] returns none exactly when no
    partition of the current target's descriptor asks for a newer version
    than the view records. *)
Theorem subdiffs_silent_iff w replica lv dist nodeID :
  let c := World.checker w in
  ((findNeedLoadedSegments replica lv dist w).1 = [] ↔ routed c lv dist)
  ∧ ((findNeedRemovedSegments replica lv dist w).1 = [] ↔ pruned c lv dist)
  ∧ ((findNeedSyncPartitionStats replica lv nodeID w).1 = []
     ↔ statsCurrent c lv).
Proof.
  cbn zeta. split; [|split].
  - apply loaded_nil_iff.
  - apply removed_nil_iff.
  - apply synced_nil_iff.
Qed.

Lemma expected_nil c v :
  expected c v = [] ↔ inStep c (Visit.view v) (placementsOf c v).
Proof.
  unfold expected, inStep.
  rewrite !app_nil. unfold expectedGrow, expectedReduce, expectedSync.
  rewrite !fmap_nil_iff, need_nil, stale_nil by done.
  by rewrite sync_nil.
Qed.

(** X4.  When [Check] is silent.  [Check] returns no task exactly when the
    checker is inactive or every leader view the scan visits is in step
    with the snapshot: it routes every resolved wanted placement to its
    node, routes no segment that is neither observed nor wanted, and
    records partition-statistics versions no older than the current
    target asks for. *)
Theorem Check_silent_iff w :
  let c := World.checker w in
  (Check w).1 = []
  ↔ LeaderChecker.checkerActivation c = false
    ∨ ∀ v, v ∈ allVisits c (World.streaming w) →
           inStep c (Visit.view v) (placementsOf c v).
Proof.
  cbn zeta.
  rewrite <- (fmap_nil_iff eraseHint), <- Permutation_nil_r, Check_content.
  cbn zeta.
  destruct (LeaderChecker.checkerActivation _).
  - rewrite Permutation_nil_r. split.
    + intros Hnil. right. intros v Hv. apply expected_nil.
      destruct (expected (World.checker w) v) as [|t ts] eqn:E; [done|].
      assert (t ∈ allVisits (World.checker w) (World.streaming w)
                  ≫= expected (World.checker w)) as Hin.
      { apply list_elem_of_bind. exists v. rewrite E. split; [by left|done]. }
      rewrite Hnil in Hin. by apply elem_of_nil in Hin.
    + intros [?|Hall]; [done|].
      destruct (allVisits _ _ ≫= _) as [|t ts] eqn:E; [done|].
      assert (t ∈ allVisits (World.checker w) (World.streaming w)
                  ≫= expected (World.checker w)) as Hin
        by (rewrite E; by left).
      apply list_elem_of_bind in Hin as (v & Hin & Hv).
      apply Hall, expected_nil in Hv. rewrite Hv in Hin.
      by apply elem_of_nil in Hin.
  - split; [by left | done].
Qed.

(** ** Grow and reduce never meet *)

(** X5.  For one leader view and one target, no segment is at once the
    subject of a task of [findNeedLoadedSegments] and of a task of
    [findNeedRemovedSegments]: the first wants the segment in the
    current-target-first view of the target, the second wants it out. *)
Theorem grow_reduce_disjoint w w' replica replica' lv dist dist' t1 t2 :
  World.checker w' = World.checker w →
  t1 ∈ (findNeedLoadedSegments replica lv dist w).1 →
  t2 ∈ (findNeedRemovedSegments replica' lv dist' w').1 →
  LeaderAction.segmentID (Task.action t1)
  ≠ LeaderAction.segmentID (Task.action t2).
Proof.
  intros Hc. rewrite findNeedLoadedSegments_run, findNeedRemovedSegments_run.
  cbn [fst]. rewrite Hc.
  intros (i & s & Hi & ->)%elem_of_growTasks (sid & -> & Hsid)%list_elem_of_fmap.
  cbn. intros <-.
  apply list_elem_of_lookup_2, list_elem_of_filter in Hi as [Hneed _].
  apply list_elem_of_filter in Hsid as [Hstale _].
  apply Is_true_true, needsGrow_spec in Hneed as [Hseg _].
  apply Is_true_true, stale_spec in Hstale as [_ Hnone]. done.
Qed.

(** ** One round of tasks *)

Lemma carryOut_grows replica lv0 clock (l : list Segment.t) :
  ∀ p lv,
    let lv1 := foldl carryOut lv (growTasks replica lv0 clock p l) in
    LeaderView.CollectionID lv1 = LeaderView.CollectionID lv
    ∧ LeaderView.Channel lv1 = LeaderView.Channel lv
    ∧ LeaderView.PartitionStatsVersions lv1
      = LeaderView.PartitionStatsVersions lv
    ∧ (∀ sid, (∀ s, s ∈ l → Segment.GetID s ≠ sid) →
              LeaderView.Segments lv1 !! sid = LeaderView.Segments lv !! sid)
    ∧ ((∀ s s', s ∈ l → s' ∈ l → Segment.GetID s = Segment.GetID s' →
                Segment.Node s = Segment.Node s') →
       ∀ s, s ∈ l →
            ∃ ver, LeaderView.Segments lv1 !! Segment.GetID s
                   = Some (SegmentDist.mk (Segment.Node s) ver)).
Proof.
  induction l as [|s0 l IH]; intros p lv; cbn zeta.
  - cbn. split_and!; try done. by intros _ s ?%elem_of_nil.
  - cbn [growTasks foldl].
    destruct (IH (S p) (carryOut lv (growTask replica lv0 s0 (clock p))))
      as (Hcoll & Hch & Hps & Hother & Hin).
    cbn zeta in *. rewrite Hcoll, Hch, Hps.
    split_and!; try done.
    + intros sid Hsid. rewrite Hother.
      * cbn. rewrite lookup_insert_ne; [done|]. apply Hsid. by left.
      * intros s Hs. apply Hsid. by right.
    + intros Hagree s Hs.
      destruct (decide (Segment.GetID s ∈ Segment.GetID <$> l)) as [Hl|Hl].
      * apply list_elem_of_fmap in Hl as (s' & Hid & Hs').
        destruct (Hin (λ a b Ha Hb, Hagree a b (list_elem_of_further _ _ _ Ha)
                                      (list_elem_of_further _ _ _ Hb)) s' Hs')
          as (ver & Hver).
        exists ver. rewrite Hid, Hver.
        by rewrite (Hagree s s' Hs (list_elem_of_further _ _ _ Hs') Hid).
      * assert (∀ s', s' ∈ l → Segment.GetID s' ≠ Segment.GetID s) as Hne.
        { intros s' Hs' Heq. apply Hl, list_elem_of_fmap. by exists s'. }
        rewrite (Hother _ Hne).
        apply elem_of_cons in Hs as [->|Hs]; [|by destruct (Hne s Hs)].
        cbn. rewrite lookup_insert_eq. by eexists.
Qed.

Lemma carryOut_reduces replica lv0 (ks : list Z) :
  ∀ lv,
    let lv2 := foldl carryOut lv (reduceTask replica lv0 <$> ks) in
    LeaderView.CollectionID lv2 = LeaderView.CollectionID lv
    ∧ LeaderView.Channel lv2 = LeaderView.Channel lv
    ∧ LeaderView.PartitionStatsVersions lv2
      = LeaderView.PartitionStatsVersions lv
    ∧ ∀ sid, LeaderView.Segments lv2 !! sid
             = if decide (sid ∈ ks) then None
               else LeaderView.Segments lv !! sid.
Proof.
  induction ks as [|k ks IH]; intros lv; cbn zeta.
  - cbn. by split_and!.
  - cbn [fmap list_fmap foldl].
    destruct (IH (carryOut lv (reduceTask replica lv0 k)))
      as (Hcoll & Hch & Hps & Hlook).
    cbn zeta in *. rewrite Hcoll, Hch, Hps. split_and!; try done.
    intros sid. rewrite Hlook. cbn.
    destruct (decide (sid = k)) as [->|Hne].
    + rewrite (decide_True (P := k ∈ k :: ks)) by (by left).
      case_decide; [done | apply lookup_delete_eq].
    + rewrite lookup_delete_ne by done.
      destruct (decide (sid ∈ ks)) as [Hin|Hin].
      * by rewrite decide_True by (by right).
      * rewrite decide_False; [done|]. by intros [?|?]%elem_of_cons.
Qed.

(** X6.  One round suffices.  Let the resolved placements of each segment
    be on one node.  If the delegator carries out, in order, the tasks the
    three sub-diffs emit for its view, then, over the same placements and
    the same target, the three sub-diffs emit nothing for the view it then
    has, whatever the clock reads and the order of map iteration. *)
Theorem one_round_suffices c streaming rt1 rt2 rt3 rt' replica lv dist nodeID :
  (∀ s s', s ∈ FindMaxVersionSegments dist →
           s' ∈ FindMaxVersionSegments dist →
           Segment.GetID s = Segment.GetID s' →
           Segment.Node s = Segment.Node s') →
  let tasks :=
    (findNeedLoadedSegments replica lv dist (World.mk c streaming rt1)).1
    ++ (findNeedRemovedSegments replica lv dist (World.mk c streaming rt2)).1
    ++ (findNeedSyncPartitionStats replica lv nodeID
          (World.mk c streaming rt3)).1 in
  let lv' := foldl carryOut lv tasks in
  let w' := World.mk c streaming rt' in
  (findNeedLoadedSegments replica lv' dist w').1 = []
  ∧ (findNeedRemovedSegments replica lv' dist w').1 = []
  ∧ (findNeedSyncPartitionStats replica lv' nodeID w').1 = [].
Proof.
  intros Hagree. cbn zeta.
  rewrite loaded_nil_iff, removed_nil_iff, synced_nil_iff.
  rewrite findNeedLoadedSegments_run, findNeedRemovedSegments_run,
          findNeedSyncPartitionStats_run.
  cbn [fst World.checker].
  pose proof (rangeMap_perm (LeaderView.Segments lv) (World.mk c streaming rt2))
    as Hkeys.
  revert Hkeys.
  generalize (rangeMap (LeaderView.Segments lv) (World.mk c streaming rt2)).1.
  intros keys Hkeys.
  set (need := filter (λ s, needsGrow c lv s) (FindMaxVersionSegments dist)).
  set (ks := filter (λ sid, stale c lv dist sid) keys.*1).
  rewrite !foldl_app.
  destruct (carryOut_grows replica lv (Runtime.clock rt1) need
              (Runtime.pos rt1) lv) as (Hc1 & Hch1 & Hp1 & Hother & Hgrown).
  cbn zeta in *. cbn [World.runtime] in *.
  set (lv1 := foldl carryOut lv (growTasks replica lv (Runtime.clock rt1)
                                   (Runtime.pos rt1) need)) in *.
  destruct (carryOut_reduces replica lv ks lv1) as (Hc2 & Hch2 & Hp2 & Hlook).
  cbn zeta in *.
  set (lv2 := foldl carryOut lv1 (reduceTask replica lv <$> ks)) in *.
  set (sync := match TargetManager.GetDmChannel _ _ _ _ with
               | Some d => _ | None => _ end).
  set (lv3 := foldl carryOut lv2 sync.1).
  assert (LeaderView.CollectionID lv3 = LeaderView.CollectionID lv
          ∧ LeaderView.Channel lv3 = LeaderView.Channel lv
          ∧ LeaderView.Segments lv3 = LeaderView.Segments lv2
          ∧ ∀ d, TargetManager.GetDmChannel (LeaderChecker.target c)
                   (LeaderView.CollectionID lv) (LeaderView.Channel lv)
                   CurrentTarget = Some d →
                 LeaderView.PartitionStatsVersions lv3
                 = needSync lv d ∪ LeaderView.PartitionStatsVersions lv)
    as (Hc3 & Hch3 & Hs3 & Hp3).
  { subst lv3 sync.
    destruct (TargetManager.GetDmChannel _ _ _ _) as [d|]; cbn [fst].
    - case_decide as He; cbn; rewrite ?Hc2, ?Hc1, ?Hch2, ?Hch1, ?Hp2, ?Hp1.
      + split_and!; try done. intros ? [= <-].
        by rewrite He, (left_id_L ∅ (∪)).
      + split_and!; try done. by intros ? [= <-].
    - cbn. rewrite Hc2, Hc1, Hch2, Hch1. by split_and!. }
  assert (∀ s, s ∈ need ↔
    s ∈ FindMaxVersionSegments dist
    ∧ TargetManager.GetSealedSegment (LeaderChecker.target c)
        (LeaderView.CollectionID lv) (Segment.GetID s) CurrentTargetFirst
      ≠ None
    ∧ misrouted lv s) as Hneed.
  { intros s. unfold need.
    rewrite list_elem_of_filter, Is_true_true, needsGrow_spec. tauto. }
  assert (∀ sid, sid ∈ ks ↔
    is_Some (LeaderView.Segments lv !! sid)
    ∧ (¬ ∃ s, s ∈ dist ∧ Segment.GetID s = sid)
    ∧ TargetManager.GetSealedSegment (LeaderChecker.target c)
        (LeaderView.CollectionID lv) sid CurrentTargetFirst = None) as Hks.
  { intros sid. unfold ks.
    rewrite list_elem_of_filter, Is_true_true, stale_spec,
            (elem_of_keys _ _ _ Hkeys). tauto. }
  split; [|split].
  - (* routed *)
    intros s Hs. rewrite Hc3, Hs3, Hlook. intros Hseg.
    rewrite decide_False by (intros (_ & _ & Hnone)%Hks; done).
    destruct (needsGrow c lv s) eqn:Hgrow.
    + assert (s ∈ need) as Hin.
      { apply list_elem_of_filter. split; [by rewrite Hgrow | done]. }
      destruct (Hgrown (λ a b Ha Hb, Hagree a b (proj1 (proj1 (Hneed a) Ha))
                                       (proj1 (proj1 (Hneed b) Hb))) s Hin)
        as (ver & ->).
      by eexists.
    + assert (¬ misrouted lv s) as Hnm.
      { intros Hm. apply not_true_iff_false in Hgrow. apply Hgrow.
        by apply needsGrow_spec. }
      rewrite Hother.
      * destruct (LeaderView.Segments lv !! Segment.GetID s) as [e|] eqn:He.
        -- exists e. split; [done|].
           destruct (decide (SegmentDist.NodeID e = Segment.Node s)); [done|].
           destruct Hnm. right. by exists e.
        -- destruct Hnm. by left.
      * intros s' Hs' Hid. apply Hnm.
        apply Hneed in Hs' as (Hs' & _ & Hm).
        unfold misrouted in *.
        by rewrite <- Hid, <- (Hagree s' s Hs' Hs Hid).
  - (* pruned *)
    intros sid. rewrite Hc3, Hs3, Hlook.
    case_decide as Hsid; [by intros [? ?]|]. intros Hsome.
    destruct (decide (sid ∈ Segment.GetID <$> need)) as [Hin|Hnin].
    + apply list_elem_of_fmap in Hin as (s & -> & Hs).
      apply Hneed in Hs as (Hs & _ & _). left. exists s. split; [|done].
      by apply list_elem_of_filter in Hs as [_ ?].
    + rewrite Hother in Hsome.
      * destruct (decide (sid ∈ foldl (λ (distMap : gset Z) s,
                                         {[Segment.GetID s]} ∪ distMap) ∅ dist))
          as [Hobs|Hobs]; [left; by apply elem_of_distMap|].
        right. intros Hnone. apply Hsid, Hks. split_and!; try done.
        by rewrite <- elem_of_distMap.
      * intros s Hs Hid. apply Hnin, list_elem_of_fmap. by exists s.
  - (* statsCurrent *)
    intros d p v. rewrite Hc3, Hch3. intros Hd Hp.
    unfold recorded. rewrite (Hp3 d Hd), lookup_union.
    destruct (needSync lv d !! p) as [v'|] eqn:Hv'.
    + apply map_lookup_filter_Some in Hv' as [Hv' _].
      rewrite union_Some_l. cbn. assert (v' = v) by congruence. lia.
    + rewrite (left_id_L None union).
      apply map_lookup_filter_None in Hv' as [Hv'|Hv']; [congruence|].
      specialize (Hv' v Hp). cbn in Hv'. unfold recorded in Hv'. lia.
Qed.

(** ** The scan of a longer list of collections *)

Lemma checkView_withGetAll ids v tasks :
  rel (λ w1 w2, w2 = withGetAll ids w1) eq (checkView v tasks)
                                           (checkView v tasks).
Proof.
  unfold checkView.
  eapply (rel_bind _ eq); [apply rel_reads; by intros ? ? -> | intros dist ? <-].
  eapply (rel_bind _ eq); [apply dropped_loaded | intros loaded ? <-].
  eapply (rel_bind _ eq); [apply dropped_removed | intros removed ? <-].
  eapply (rel_bind _ eq); [apply dropped_synced | intros synced ? <-].
  by apply rel_ret.
Qed.

Lemma forRange_checkView_withGetAll ids vs tasks w :
  forRange vs checkView tasks (withGetAll ids w)
  = ((forRange vs checkView tasks w).1,
     withGetAll ids (forRange vs checkView tasks w).2).
Proof.
  destruct (rel_forRange (λ w1 w2, w2 = withGetAll ids w1) eq vs
              checkView checkView) with tasks tasks w (withGetAll ids w)
    as [Hr Hw]; [|done..|].
  - intros v s ? <-. apply checkView_withGetAll.
  - destruct (forRange vs checkView tasks (withGetAll ids w)) as [r' w'].
    cbn in *. by rewrite Hr, Hw.
Qed.

Lemma checkView_acc v tasks w :
  checkView v tasks w
  = (tasks ++ (checkView v [] w).1, (checkView v [] w).2).
Proof. by rewrite !checkView_run. Qed.

Lemma forRange_checkView_acc vs tasks w :
  forRange vs checkView tasks w
  = (tasks ++ (forRange vs checkView [] w).1,
     (forRange vs checkView [] w).2).
Proof.
  revert tasks w. induction vs as [|v vs IH]; intros tasks w.
  - cbn. by rewrite app_nil_r.
  - cbn [forRange]. unfold mbind, M_bind.
    rewrite (checkView_acc v tasks w).
    destruct (checkView v [] w) as [b w1]. cbn [fst snd].
    rewrite (IH (tasks ++ b) w1), (IH b w1). cbn [fst snd].
    by rewrite app_assoc.
Qed.

Lemma Check_withGetAll ids w :
  Check (withGetAll ids w)
  = if LeaderChecker.checkerActivation (World.checker w)
    then let r := forRange (ids ≫= visits (World.checker w) (World.streaming w))
                           checkView [] w in
         (r.1, withGetAll ids r.2)
    else ([], withGetAll ids w).
Proof.
  rewrite Check_flat.
  change (LeaderChecker.checkerActivation (World.checker (withGetAll ids w)))
    with (LeaderChecker.checkerActivation (World.checker w)).
  change (allVisits (World.checker (withGetAll ids w))
                    (World.streaming (withGetAll ids w)))
    with (ids ≫= visits (World.checker w) (World.streaming w)).
  destruct (LeaderChecker.checkerActivation _); [|done].
  apply forRange_checkView_withGetAll.
Qed.

(** X7.  The scan of a list of collections in two parts.  When the
    collection manager lists [xs ++ ys], [Check] returns what it returns
    for [xs], followed by what it returns for [ys] when started in the
    world the first scan leaves: the tasks of the collections listed first
    are those a scan of them alone emits, and come first. *)
Theorem Check_app w xs ys :
  let w1 := withGetAll xs w in
  (Check (withGetAll (xs ++ ys) w)).1
  = (Check w1).1 ++ (Check (withGetAll ys (Check w1).2)).1.
Proof.
  cbn zeta. rewrite (Check_withGetAll (xs ++ ys) w), (Check_withGetAll xs w).
  destruct (LeaderChecker.checkerActivation (World.checker w)) eqn:Hact.
  - cbn zeta. cbn [fst snd].
    destruct (spec_forRange (xs ≫= visits (World.checker w) (World.streaming w))
                checkView (λ _, True)) with (@nil Task.t) w
      as (rA & n & EA & _); [intros; apply frame_checkView | done |].
    rewrite bind_app, forRange_app. unfold mbind at 1, M_bind.
    rewrite EA. cbn [fst snd].
    change (withGetAll ys (withGetAll xs (advance n w)))
      with (withGetAll ys (advance n w)).
    rewrite (Check_withGetAll ys (advance n w)).
    change (LeaderChecker.checkerActivation (World.checker (advance n w)))
      with (LeaderChecker.checkerActivation (World.checker w)).
    rewrite Hact. cbn zeta. cbn [fst].
    by rewrite forRange_checkView_acc.
  - cbn [fst snd].
    change (withGetAll ys (withGetAll xs w)) with (withGetAll ys w).
    by rewrite (Check_withGetAll ys w), Hact.
Qed.

(** ** What carrying out a task cannot break *)

(** X8.  A task of the three sub-diffs is safe to carry out: the view it
    leaves records no partition-statistics version lower than before,
    still routes every segment it routed that is observed or wanted, and
    routes a segment anew only to the node of a resolved placement of a
    segment the target wants. *)
Theorem carried_out_task_safe w replica lv dist nodeID t :
  t ∈ (findNeedLoadedSegments replica lv dist w).1
      ++ (findNeedRemovedSegments replica lv dist w).1
      ++ (findNeedSyncPartitionStats replica lv nodeID w).1 →
  let c := World.checker w in
  let lv' := carryOut lv t in
  (∀ p, recorded lv p ≤ recorded lv' p)
  ∧ (∀ sid, is_Some (LeaderView.Segments lv !! sid) →
            (∃ s, s ∈ dist ∧ Segment.GetID s = sid)
            ∨ TargetManager.GetSealedSegment (LeaderChecker.target c)
                (LeaderView.CollectionID lv) sid CurrentTargetFirst ≠ None →
            is_Some (LeaderView.Segments lv' !! sid))
  ∧ (∀ sid e, LeaderView.Segments lv' !! sid = Some e →
              LeaderView.Segments lv !! sid = Some e
              ∨ ∃ s, s ∈ FindMaxVersionSegments dist
                     ∧ Segment.GetID s = sid
                     ∧ Segment.Node s = SegmentDist.NodeID e
                     ∧ TargetManager.GetSealedSegment (LeaderChecker.target c)
                         (LeaderView.CollectionID lv) sid CurrentTargetFirst
                       ≠ None).
Proof.
  rewrite findNeedLoadedSegments_run, findNeedRemovedSegments_run,
          findNeedSyncPartitionStats_run.
  cbn zeta. rewrite !elem_of_app. intros [Ht|[Ht|Ht]].
  - apply elem_of_growTasks in Ht as (i & s & Hi & ->).
    apply list_elem_of_lookup_2, list_elem_of_filter in Hi as [Hneed Hs].
    apply Is_true_true, needsGrow_spec in Hneed as [Hseg _].
    cbn. split_and!.
    + intros p. unfold recorded. cbn. lia.
    + intros sid Hsome _. rewrite lookup_insert. by case_decide.
    + intros sid e. rewrite lookup_insert. case_decide as Hsid.
      * intros [= <-]. right. exists s. by subst sid.
      * by left.
  - cbn [fst] in Ht. apply list_elem_of_fmap in Ht as (sid0 & -> & Hsid0).
    apply list_elem_of_filter in Hsid0 as [Hstale _].
    apply Is_true_true, stale_spec in Hstale as [Hobs Hnone].
    cbn. split_and!.
    + intros p. unfold recorded. cbn. lia.
    + intros sid Hsome Hlive. rewrite lookup_delete_ne; [done|].
      intros <-. destruct Hlive as [?|?]; done.
    + intros sid e [_ ?]%lookup_delete_Some. by left.
  - destruct (TargetManager.GetDmChannel _ _ _ _) as [d|];
      [|by apply elem_of_nil in Ht].
    cbn [fst] in Ht. case_decide; [by apply elem_of_nil in Ht|].
    apply list_elem_of_singleton in Ht as ->. cbn. split_and!.
    + intros p. unfold recorded at 2. cbn. rewrite lookup_union.
      destruct (needSync lv d !! p) as [v|] eqn:Hv.
      * apply map_lookup_filter_Some in Hv as [_ Hlt]. cbn in Hlt.
        rewrite union_Some_l. cbn. lia.
      * rewrite (left_id_L None union). unfold recorded. lia.
    + by intros sid Hsome _.
    + intros sid e ?. by left.
Qed.

(** ** Nodes the scan does not look at *)

Section unscanned.
Variable dist' : DistributionManager.t.
Variable c0 : LeaderChecker.t.
Hypothesis same_placements :
  DistributionManager.SegmentsByChannelAndReplica dist'
  = DistributionManager.SegmentsByChannelAndReplica (LeaderChecker.dist c0).

Let moved (w1 w2 : World.t) : Prop :=
  World.checker w1 = c0 ∧ w2 = withDist dist' w1.

Lemma moved_loaded replica lv dist :
  rel moved eq (findNeedLoadedSegments replica lv dist)
               (findNeedLoadedSegments replica lv dist).
Proof. intros w ? [Hc ->]. by rewrite !findNeedLoadedSegments_run. Qed.

Lemma moved_removed replica lv dists :
  rel moved eq (findNeedRemovedSegments replica lv dists)
               (findNeedRemovedSegments replica lv dists).
Proof. intros w ? [Hc ->]. by rewrite !findNeedRemovedSegments_run. Qed.

Lemma moved_synced replica lv nodeID :
  rel moved eq (findNeedSyncPartitionStats replica lv nodeID)
               (findNeedSyncPartitionStats replica lv nodeID).
Proof.
  intros w ? [Hc ->]. rewrite !findNeedSyncPartitionStats_run.
  cbn [withDist World.checker LeaderChecker.target].
  by destruct (TargetManager.GetDmChannel _ _ _ _).
Qed.

Lemma moved_scan vs tasks w :
  World.checker w = c0 →
  (forRange vs checkView tasks (withDist dist' w)).1
  = (forRange vs checkView tasks w).1.
Proof using same_placements.
  intros Hc. symmetry. apply (rel_forRange moved eq); [|done..].
  intros v tasks1 ? <-. unfold checkView.
  eapply (rel_bind _ eq).
  { intros w1 ? [Hc1 ->]. split; [|done]. cbn.
    by rewrite same_placements, Hc1. }
  intros dist ? <-.
  eapply (rel_bind _ eq); [apply moved_loaded | intros loaded ? <-].
  eapply (rel_bind _ eq); [apply moved_removed | intros removed ? <-].
  eapply (rel_bind _ eq); [apply moved_synced | intros synced ? <-].
  by apply rel_ret.
Qed.
End unscanned.

(** X9.  Nodes the scan does not look at.  [Check] asks the distribution
    manager for the delegated channels of the scanned member nodes only,
    the streaming-query nodes of each replica when the streaming service
    is enabled and its read-write nodes when it is not: two distribution
    managers that report the same placements, and the same channels for
    the scanned nodes of every replica, give the same task list, whatever
    they report for other nodes. *)
Theorem Check_ignores_unscanned_nodes w dist' :
  DistributionManager.SegmentsByChannelAndReplica dist'
  = DistributionManager.SegmentsByChannelAndReplica
      (LeaderChecker.dist (World.checker w)) →
  (∀ collectionID replica node,
     collectionID ∈ Meta.GetAll (LeaderChecker.meta (World.checker w)) →
     replica ∈ Meta.GetByCollection (LeaderChecker.meta (World.checker w))
                 collectionID →
     node ∈ (if World.streaming w then Replica.RWSQNodes replica
             else Replica.RWNodes replica) →
     DistributionManager.ChannelsByCollectionAndNode dist'
       (Replica.CollectionID replica) node
     = DistributionManager.ChannelsByCollectionAndNode
         (LeaderChecker.dist (World.checker w))
         (Replica.CollectionID replica) node) →
  (Check (withDist dist' w)).1 = (Check w).1.
Proof.
  intros Hseg Hch. rewrite !Check_flat.
  change (LeaderChecker.checkerActivation (World.checker (withDist dist' w)))
    with (LeaderChecker.checkerActivation (World.checker w)).
  destruct (LeaderChecker.checkerActivation _); [|done].
  assert (allVisits (World.checker (withDist dist' w))
                    (World.streaming (withDist dist' w))
          = allVisits (World.checker w) (World.streaming w)) as ->.
  { unfold allVisits. apply Forall_bind_ext, Forall_forall.
    intros collectionID Hall. unfold visits.
    change (ready (World.checker (withDist dist' w)) collectionID)
      with (ready (World.checker w) collectionID).
    destruct (ready _ _); [|done].
    apply Forall_bind_ext, Forall_forall. intros replica Hrep.
    unfold replicaVisits. apply Forall_bind_ext, Forall_forall.
    intros node Hnode. cbn. f_equal. by apply (Hch collectionID). }
  by apply (moved_scan dist' (World.checker w)).
Qed.

(** ** The further properties on the small cluster *)

Lemma Check_provenance_witness :
  reduceTask ex_replica ex_view 13 ∈ (Check ex_world).1
  ∧ LeaderChecker.checkerActivation (World.checker ex_world) = true.
Proof.
  assert (reduceTask ex_replica ex_view 13 ∈ (Check ex_world).1) as Hin.
  { rewrite Check_small_cluster.
    do 2 apply list_elem_of_further. apply list_elem_of_here. }
  split; [exact Hin|].
  exact (proj1 (Check_provenance ex_world _ Hin)).
Defined.

Lemma grow_reduce_disjoint_witness :
  let t1 := growTask ex_replica ex_view (Segment.mk (ex_info 12) 2 1) 1001 in
  let t2 := reduceTask ex_replica ex_view 13 in
  t1 ∈ (findNeedLoadedSegments ex_replica ex_view ex_dist ex_world).1
  ∧ t2 ∈ (findNeedRemovedSegments ex_replica ex_view ex_dist ex_world).1
  ∧ LeaderAction.segmentID (Task.action t1)
    ≠ LeaderAction.segmentID (Task.action t2).
Proof.
  intros t1 t2.
  assert (t1 ∈ (findNeedLoadedSegments ex_replica ex_view ex_dist ex_world).1)
    as H1 by (vm_compute; repeat constructor).
  assert (t2 ∈ (findNeedRemovedSegments ex_replica ex_view ex_dist ex_world).1)
    as H2 by (vm_compute; repeat constructor).
  split; [exact H1 | split; [exact H2|]].
  exact (grow_reduce_disjoint ex_world ex_world ex_replica ex_replica ex_view
           ex_dist ex_dist t1 t2 eq_refl H1 H2).
Defined.

Lemma one_round_suffices_witness :
  let tasks :=
    (findNeedLoadedSegments ex_replica ex_view ex_dist ex_world).1
    ++ (findNeedRemovedSegments ex_replica ex_view ex_dist ex_world).1
    ++ (findNeedSyncPartitionStats ex_replica ex_view 1 ex_world).1 in
  (∀ s s', s ∈ FindMaxVersionSegments ex_dist →
           s' ∈ FindMaxVersionSegments ex_dist →
           Segment.GetID s = Segment.GetID s' →
           Segment.Node s = Segment.Node s')
  ∧ (findNeedLoadedSegments ex_replica (foldl carryOut ex_view tasks) ex_dist
       ex_world).1 = [].
Proof.
  intros tasks.
  assert (∀ s, s ∈ FindMaxVersionSegments ex_dist → Segment.Node s = 2)
    as Hnode.
  { intros s Hs. vm_compute in Hs.
    repeat (apply elem_of_cons in Hs as [->|Hs]); try reflexivity.
    by apply elem_of_nil in Hs. }
  assert (∀ s s', s ∈ FindMaxVersionSegments ex_dist →
                  s' ∈ FindMaxVersionSegments ex_dist →
                  Segment.GetID s = Segment.GetID s' →
                  Segment.Node s = Segment.Node s') as Hagree.
  { intros s s' Hs Hs' _. by rewrite (Hnode s Hs), (Hnode s' Hs'). }
  split; [exact Hagree|].
  exact (proj1 (one_round_suffices (ex_checker true ex_store) false ex_runtime
                  ex_runtime ex_runtime ex_runtime ex_replica ex_view ex_dist
                  1 Hagree)).
Defined.

Lemma carried_out_task_safe_witness :
  let t := reduceTask ex_replica ex_view 13 in
  t ∈ (findNeedLoadedSegments ex_replica ex_view ex_dist ex_world).1
      ++ (findNeedRemovedSegments ex_replica ex_view ex_dist ex_world).1
      ++ (findNeedSyncPartitionStats ex_replica ex_view 1 ex_world).1
  ∧ ∀ p, recorded ex_view p ≤ recorded (carryOut ex_view t) p.
Proof.
  intros t.
  assert (t ∈ (findNeedLoadedSegments ex_replica ex_view ex_dist ex_world).1
              ++ (findNeedRemovedSegments ex_replica ex_view ex_dist
                    ex_world).1
              ++ (findNeedSyncPartitionStats ex_replica ex_view 1 ex_world).1)
    as Hin by (vm_compute; repeat constructor).
  split; [exact Hin|].
  exact (proj1 (carried_out_task_safe ex_world ex_replica ex_view ex_dist 1 t
                  Hin)).
Defined.

Lemma Check_ignores_unscanned_nodes_witness :
  let dist' :=
    DistributionManager.mk
      (λ collectionID node,
         if bool_decide (node = 1 ∨ node = 2)
         then DistributionManager.ChannelsByCollectionAndNode ex_distribution
                collectionID node
         else [Delegator.mk ex_view])
      (DistributionManager.SegmentsByChannelAndReplica ex_distribution) in
  (Check (withDist dist' ex_world)).1 = (Check ex_world).1.
Proof.
  intros dist'. apply (Check_ignores_unscanned_nodes ex_world dist').
  - reflexivity.
  - intros collectionID replica node Hall Hrep Hnode. cbn in Hrep.
    case_bool_decide as H100; [|by apply elem_of_nil in Hrep].
    apply list_elem_of_singleton in Hrep as ->. cbn in Hnode.
    assert (node = 1 ∨ node = 2) as Hn.
    { repeat (apply elem_of_cons in Hnode as [->|Hnode]); auto.
      by apply elem_of_nil in Hnode. }
    cbn. by rewrite bool_decide_eq_true_2.
Defined.

(** * Re-running the loop after a grow task *)

Lemma filter_bind {A B} (P : B → Prop) `{∀ x, Decision (P x)}
    (g : A → list B) (l : list A) :
  filter P (l ≫= g) = l ≫= (λ x, filter P (g x)).
Proof.
  induction l as [|x l IH]; [done|].
  by rewrite !bind_cons, filter_app, IH.
Qed.

Lemma bind_nil_all {A B} (g : A → list B) (l : list A) :
  (∀ x, x ∈ l → g x = []) → l ≫= g = [].
Proof.
  induction l as [|x l IH]; intros Hall; [done|].
  rewrite bind_cons, (Hall x) by (by left).
  apply IH. intros y Hy. apply Hall. by right.
Qed.

Lemma growsOn_eraseHint S leaderID t :
  growsOn S leaderID (eraseHint t) ↔ growsOn S leaderID t.
Proof.
  unfold growsOn, eraseHint.
  by destruct (LeaderAction.typ (Task.action t)) eqn:E; cbn; rewrite ?E.
Qed.

Lemma filter_growsOn_eraseHint S leaderID (l : list Task.t) :
  filter (growsOn S leaderID) (eraseHint <$> l)
  = eraseHint <$> filter (growsOn S leaderID) l.
Proof.
  induction l as [|t l IH]; [done|].
  rewrite fmap_cons, !filter_cons.
  destruct (decide (growsOn S leaderID t)) as [Ht|Ht].
  - rewrite decide_True by (by apply growsOn_eraseHint).
    by rewrite fmap_cons, IH.
  - rewrite decide_False by (by rewrite growsOn_eraseHint). exact IH.
Qed.

(** A grow task a visit is expected to emit on [S] for delegator
    [leaderID] comes from a resolved placement of [S] that needs one, and
    the visit is at that delegator. *)
Lemma growsOn_expected c v t S leaderID :
  t ∈ expected c v → growsOn S leaderID t →
  ∃ s, s ∈ FindMaxVersionSegments (placementsOf c v)
       ∧ needsGrow c (Visit.view v) s = true
       ∧ Segment.GetID s = S
       ∧ LeaderView.ID (Visit.view v) = leaderID.
Proof.
  unfold expected, expectedGrow, expectedReduce, expectedSync, growsOn.
  intros Hin (Htyp & Hsid & Hid).
  apply elem_of_app in Hin as [Hin|Hin]; [|apply elem_of_app in Hin as [Hin|Hin]].
  - apply list_elem_of_fmap in Hin as (s & -> & Hs).
    apply list_elem_of_filter in Hs as [Hneed Hs].
    exists s. split_and!; [done | by apply Is_true_true | done | done].
  - by apply list_elem_of_fmap in Hin as (sid & -> & _).
  - destruct (TargetManager.GetDmChannel _ _ _ _) as [d|];
      [|by apply elem_of_nil in Hin].
    case_decide; [by apply elem_of_nil in Hin|].
    by apply list_elem_of_singleton in Hin as ->.
Qed.

Lemma filter_growsOn_growTask replica lv S (l : list Segment.t) :
  filter (growsOn S (LeaderView.ID lv)) ((λ s, growTask replica lv s 0) <$> l)
  = (λ s, growTask replica lv s 0) <$> filter (λ s, Segment.GetID s = S) l.
Proof.
  induction l as [|s l IH]; [done|].
  rewrite fmap_cons, !filter_cons.
  destruct (decide (Segment.GetID s = S)) as [Hs|Hs].
  - rewrite decide_True by (by unfold growsOn).
    by rewrite fmap_cons, IH.
  - rewrite decide_False by (by intros (_ & ? & _)). exact IH.
Qed.

(** Once the view a visit comes to routes [S] to the node of its resolved
    placement, [Check] has no grow task on [S] for that delegator. *)
Lemma Check_routed_silent w pre v post S p version :
  let c := World.checker w in
  let lv := Visit.view v in
  LeaderChecker.checkerActivation c = true →
  allVisits c (World.streaming w) = pre ++ v :: post →
  (∀ v' s, v' ∈ pre ++ post →
           LeaderView.ID (Visit.view v') = LeaderView.ID lv →
           s ∈ FindMaxVersionSegments (placementsOf c v') →
           Segment.GetID s ≠ S) →
  filter (λ s, Segment.GetID s = S)
         (FindMaxVersionSegments (placementsOf c v)) = [p] →
  filter (growsOn S (LeaderView.ID lv))
         (Check (withRoute (LeaderView.ID lv) (LeaderView.Channel lv) S
                   (Segment.Node p) version w)).1 = [].
Proof.
  intros c lv Hactive Hsplit Hother Hp.
  assert (Segment.GetID p = S) as HpS.
  { assert (p ∈ filter (λ s, Segment.GetID s = S)
                  (FindMaxVersionSegments (placementsOf c v)))
      as Hin by (rewrite Hp; apply list_elem_of_here).
    by apply list_elem_of_filter in Hin as [? _]. }
  set (w2 := withRoute _ _ _ _ _ _).
  pose proof (Check_content w2) as Hcontent. cbn zeta in Hcontent.
  set (c2 := World.checker w2) in *.
  assert (LeaderChecker.checkerActivation c2 = true) as Hactive2
    by exact Hactive.
  rewrite Hactive2 in Hcontent.
  apply (filter_Permutation (growsOn S (LeaderView.ID lv))) in Hcontent.
  rewrite filter_growsOn_eraseHint, filter_bind, bind_nil_all in Hcontent.
  { apply Permutation_nil_r in Hcontent. by apply fmap_nil_inv in Hcontent. }
  intros v2 Hv2. apply filter_nil_iff. intros t Hin Hon.
  destruct (growsOn_expected c2 v2 t S (LeaderView.ID lv) Hin Hon)
    as (s & Hs & Hneed & HsS & Hid).
  apply elem_of_allVisits
    in Hv2 as (collectionID & Hall & Hready & Hrep & Hnode & Hd).
  cbn in Hd. apply list_elem_of_fmap in Hd as (d & Hv2d & Hd).
  set (v0 := Visit.mk (Visit.replica v2) (Visit.node v2) d).
  assert (v0 ∈ allVisits c (World.streaming w)) as Hv0.
  { apply elem_of_allVisits. by exists collectionID. }
  assert (LeaderView.ID (Visit.view v2) = LeaderView.ID (Visit.view v0)
          ∧ placementsOf c2 v2 = placementsOf c v0) as [Hid0 Hpl].
  { assert (Visit.view v2 = Delegator.View d
            ∨ Visit.view v2
              = routeSegment S (Segment.Node p) version (Delegator.View d))
      as Hcases.
    { unfold Visit.view. rewrite Hv2d.
      destruct (bool_decide _); [by right | by left]. }
    unfold placementsOf. by destruct Hcases as [-> | ->]. }
  rewrite Hpl in Hs.
  rewrite Hsplit in Hv0.
  apply elem_of_app in Hv0 as [Hv0|[Hv0|Hv0]%elem_of_cons].
  - apply (Hother v0 s); [apply elem_of_app; by left | congruence | done..].
  - assert (Visit.view v2
            = routeSegment S (Segment.Node p) version lv) as Hview.
    { unfold Visit.view. rewrite Hv2d.
      assert (d = Visit.delegator v) as -> by (by rewrite <- Hv0).
      rewrite bool_decide_eq_true_2; done. }
    assert (s = p) as ->.
    { assert (s ∈ filter (λ s, Segment.GetID s = S)
                    (FindMaxVersionSegments (placementsOf c v))) as Hin'
        by (apply list_elem_of_filter; by rewrite <- Hv0).
      rewrite Hp in Hin'. by apply list_elem_of_singleton in Hin'. }
    apply needsGrow_spec in Hneed as [_ Hm]. rewrite Hview in Hm.
    destruct Hm as [Hnone|(e & He & Hne)]; cbn in *;
      rewrite HpS, lookup_insert_eq in *; [done|].
    by injection He as <-.
  - apply (Hother v0 s); [apply elem_of_app; by right | congruence | done..].
Qed.

(** C5.  Let the checker be active and let its scan visit a leader view
    that has no entry for segment [S], where [S] is in the
    current-target-first view of the target and [p], on node
    [Segment.Node p], is its resolved observed placement; let no other
    visit to a view of the same delegator observe [S].  Then [Check] emits
    exactly one grow task on [S] for that delegator, and it targets that
    node.  Run again in the world the first run has left, once the
    distribution manager reports the view with [S] routed to that node,
    [Check] emits no grow task on [S] for it. *)
Theorem Check_converges w pre v post S p version :
  let c := World.checker w in
  let lv := Visit.view v in
  LeaderChecker.checkerActivation c = true →
  allVisits c (World.streaming w) = pre ++ v :: post →
  (∀ v' s, v' ∈ pre ++ post →
           LeaderView.ID (Visit.view v') = LeaderView.ID lv →
           s ∈ FindMaxVersionSegments (placementsOf c v') →
           Segment.GetID s ≠ S) →
  LeaderView.Segments lv !! S = None →
  TargetManager.GetSealedSegment (LeaderChecker.target c)
    (LeaderView.CollectionID lv) S CurrentTargetFirst ≠ None →
  filter (λ s, Segment.GetID s = S)
         (FindMaxVersionSegments (placementsOf c v)) = [p] →
  (∃ now,
     filter (growsOn S (LeaderView.ID lv)) (Check w).1
     = [Task.mk LeaderSegmentTask LeaderCheckerType (Segment.GetCollectionID p)
          (Visit.replica v) (LeaderView.ID lv)
          (LeaderAction.mk (LeaderView.ID lv) (Segment.Node p) ActionTypeGrow
             (Segment.GetInsertChannel p) S now ∅)
          TaskPriorityLow "add segment to leader view"])
  ∧ filter (growsOn S (LeaderView.ID lv))
           (Check (withRoute (LeaderView.ID lv) (LeaderView.Channel lv) S
                     (Segment.Node p) version (Check w).2)).1 = [].
Proof.
  intros c lv Hactive Hsplit Hother Hlv Hseg Hp.
  assert (Segment.GetID p = S) as HpS.
  { assert (p ∈ filter (λ s, Segment.GetID s = S)
                  (FindMaxVersionSegments (placementsOf c v)))
      as Hin by (rewrite Hp; apply list_elem_of_here).
    by apply list_elem_of_filter in Hin as [? _]. }
  split.
  - pose proof (Check_content w) as Hcontent. cbn zeta in Hcontent.
    fold c in Hcontent. rewrite Hactive, Hsplit in Hcontent.
    apply (filter_Permutation (growsOn S (LeaderView.ID lv))) in Hcontent.
    rewrite filter_growsOn_eraseHint, filter_bind, bind_app, bind_cons
      in Hcontent.
    rewrite (bind_nil_all _ pre), (bind_nil_all _ post) in Hcontent.
    + cbn [app] in Hcontent. rewrite app_nil_r in Hcontent.
      unfold expected in Hcontent. rewrite !filter_app in Hcontent.
      assert (filter (growsOn S (LeaderView.ID lv)) (expectedReduce c v) = [])
        as Hreduce.
      { apply filter_nil_iff. intros t Hin Hon. unfold expectedReduce in Hin.
        apply list_elem_of_fmap in Hin as (sid & -> & _).
        by destruct Hon as [? _]. }
      assert (filter (growsOn S (LeaderView.ID lv)) (expectedSync c v) = [])
        as Hsync.
      { apply filter_nil_iff. intros t Hin Hon. unfold expectedSync in Hin.
        destruct (TargetManager.GetDmChannel _ _ _ _) as [d|];
          [|by apply elem_of_nil in Hin].
        case_decide; [by apply elem_of_nil in Hin|].
        apply list_elem_of_singleton in Hin as ->. by destruct Hon as [? _]. }
      rewrite Hreduce, Hsync in Hcontent.
      rewrite !app_nil_r in Hcontent.
      unfold expectedGrow in Hcontent. fold lv in Hcontent.
      rewrite filter_growsOn_growTask, filter_swap, Hp in Hcontent.
      rewrite filter_cons_True, filter_nil in Hcontent.
      2:{ apply Is_true_true, needsGrow_spec. rewrite HpS. split; [done|].
          left. by rewrite HpS. }
      apply Permutation_singleton_r in Hcontent.
      destruct (filter (growsOn S (LeaderView.ID lv)) (Check w).1)
        as [|t [|t' ts]] eqn:E; [done| |done].
      assert (growsOn S (LeaderView.ID lv) t) as (Htyp & _).
      { assert (t ∈ filter (growsOn S (LeaderView.ID lv)) (Check w).1) as Hin
          by (rewrite E; apply list_elem_of_here).
        by apply list_elem_of_filter in Hin as [? _]. }
      injection Hcontent as Ht.
      exists (LeaderAction.version (Task.action t)).
      unfold eraseHint in Ht. rewrite Htyp in Ht.
      destruct t as [k src coll rep lid [alid awid atyp ash asid aver aps] pr rs].
      cbn in *. unfold growTask in Ht. rewrite HpS in Ht.
      injection Ht as -> -> -> -> -> -> -> -> -> -> ->. destruct src.
      by rewrite Htyp.
    + intros v' Hv'. apply filter_nil_iff. intros t Hin Hon.
      destruct (growsOn_expected c v' t S (LeaderView.ID lv) Hin Hon)
        as (s & Hs & _ & HsS & Hid).
      apply (Hother v' s); [apply elem_of_app; by right | done..].
    + intros v' Hv'. apply filter_nil_iff. intros t Hin Hon.
      destruct (growsOn_expected c v' t S (LeaderView.ID lv) Hin Hon)
        as (s & Hs & _ & HsS & Hid).
      apply (Hother v' s); [apply elem_of_app; by left | done..].
  - destruct (spec_preserves Check frame_Check w) as [Hck Hst].
    apply (Check_routed_silent (Check w).2 pre v post S p version);
      rewrite ?Hck, ?Hst; done.
Qed.

Lemma Check_converges_witness :
  let v := Visit.mk ex_replica 1 (Delegator.mk ex_view) in
  let p := Segment.mk (ex_info 12) 2 1 in
  allVisits (World.checker ex_world) (World.streaming ex_world) = [] ++ v :: []
  ∧ LeaderView.Segments ex_view !! 12 = None
  ∧ filter (λ s, Segment.GetID s = 12)
           (FindMaxVersionSegments (placementsOf (World.checker ex_world) v))
    = [p]
  ∧ (∃ now, filter (growsOn 12 1) (Check ex_world).1
            = [growTask ex_replica ex_view p now])
  ∧ filter (growsOn 12 1)
           (Check (withRoute 1 "ch0" 12 2 1 (Check ex_world).2)).1 = [].
Proof.
  intros v p.
  assert (LeaderChecker.checkerActivation (World.checker ex_world) = true)
    as Hactive by reflexivity.
  assert (allVisits (World.checker ex_world) (World.streaming ex_world)
          = [] ++ v :: []) as Hsplit by (by vm_compute).
  assert (∀ v' s, v' ∈ [] ++ [] →
            LeaderView.ID (Visit.view v') = LeaderView.ID (Visit.view v) →
            s ∈ FindMaxVersionSegments (placementsOf (World.checker ex_world) v') →
            Segment.GetID s ≠ 12) as Hother.
  { intros v' s Hv'. by apply elem_of_nil in Hv'. }
  assert (LeaderView.Segments (Visit.view v) !! 12 = None) as Hlv
    by (by vm_compute).
  assert (TargetManager.GetSealedSegment
            (LeaderChecker.target (World.checker ex_world))
            (LeaderView.CollectionID (Visit.view v)) 12 CurrentTargetFirst
          ≠ None) as Hseg by (vm_compute; discriminate).
  assert (filter (λ s, Segment.GetID s = 12)
            (FindMaxVersionSegments (placementsOf (World.checker ex_world) v))
          = [p]) as Hp by (by vm_compute).
  split; [exact Hsplit | split; [exact Hlv | split; [exact Hp|]]].
  exact (Check_converges ex_world [] v [] 12 p 1 Hactive Hsplit Hother Hlv
           Hseg Hp).
Defined.

(** * The checker over shared objects *)

(** ** Untouched states *)

Lemma untouched_refl st : Shared.untouched st st.
Proof. by unfold Shared.untouched. Qed.

Lemma untouched_trans st1 st2 st3 :
  Shared.untouched st1 st2 → Shared.untouched st2 st3 →
  Shared.untouched st1 st3.
Proof.
  intros (Hc1 & Hs1 & Hh1) (Hc2 & Hs2 & Hh2).
  split_and!; [congruence | congruence | by etrans].
Qed.

Lemma untouched_consult st0 st n :
  Shared.untouched st0 st → Shared.untouched st0 (Shared.consult n st).
Proof. by intros (? & ? & ?). Qed.

Lemma untouched_alloc st0 st l o :
  Shared.untouched st0 st → Shared.State.heap st !! l = None →
  Shared.untouched st0 (Shared.setHeap (<[l := o]> (Shared.State.heap st)) st).
Proof.
  intros (? & ? & Hh) Hl. split_and!; [done..|]. cbn.
  etrans; [exact Hh|]. by apply insert_subseteq.
Qed.

Lemma untouched_store st0 st l o :
  Shared.untouched st0 st → Shared.State.heap st0 !! l = None →
  Shared.untouched st0 (Shared.setHeap (<[l := o]> (Shared.State.heap st)) st).
Proof.
  intros (? & ? & Hh) Hl. split_and!; [done..|]. cbn.
  by apply insert_subseteq_r.
Qed.

Lemma untouched_fresh st0 st l :
  Shared.untouched st0 st → Shared.State.heap st !! l = None →
  Shared.State.heap st0 !! l = None.
Proof. intros (_ & _ & Hh) Hl. by eapply lookup_weaken_None. Qed.

Lemma holdsSegments_mono h h' m :
  h ⊆ h' → Shared.holdsSegments h m → Shared.holdsSegments h' m.
Proof.
  intros Hh. destruct m as [|l]; [done|]. intros (x & Hx).
  exists x. by eapply lookup_weaken.
Qed.

Lemma holdsVersions_mono h h' m :
  h ⊆ h' → Shared.holdsVersions h m → Shared.holdsVersions h' m.
Proof.
  intros Hh. destruct m as [|l]; [done|]. intros (x & Hx).
  exists x. by eapply lookup_weaken.
Qed.

(** ** Rules *)

Lemma triple_ret t (P : Shared.State.t → Prop) {A} (x : A)
    (Q : A → Shared.State.t → Prop) :
  (∀ st, P st → Q x st) → Shared.triple t P (mret x) Q.
Proof. intros HQ st HP. by apply HQ. Qed.

Lemma triple_bind t (P : Shared.State.t → Prop) {A B} (m : Shared.G A)
    (f : A → Shared.G B) (R : A → Shared.State.t → Prop)
    (Q : B → Shared.State.t → Prop) :
  Shared.triple t P m R → (∀ x, Shared.triple t (R x) (f x) Q) →
  Shared.triple t P (m ≫= f) Q.
Proof.
  intros Hm Hf st HP. specialize (Hm st HP).
  unfold mbind, Shared.G_bind. destruct (m st) as [[x st1]|]; [|done].
  by apply Hf.
Qed.

Lemma triple_conseq t (P P' : Shared.State.t → Prop) {A} (m : Shared.G A)
    (Q Q' : A → Shared.State.t → Prop) :
  (∀ st, P' st → P st) → (∀ r st, Q r st → Q' r st) →
  Shared.triple t P m Q → Shared.triple t P' m Q'.
Proof.
  intros HP HQ Hm st HP'. specialize (Hm st (HP st HP')).
  destruct (m st) as [[r st1]|]; [by apply HQ | done].
Qed.

Lemma triple_forRange t {A S} (I : S → Shared.State.t → Prop) (xs : list A)
    (body : A → S → Shared.G S) s :
  (∀ x s, x ∈ xs → Shared.triple t (I s) (body x s) I) →
  Shared.triple t (I s) (Shared.forRange xs body s) I.
Proof.
  revert s. induction xs as [|x xs IH]; intros s Hbody; cbn [Shared.forRange].
  - by apply triple_ret.
  - eapply triple_bind; [apply Hbody; by left|].
    intros s'. apply IH. intros y s'' Hy. apply Hbody. by right.
Qed.

(** A read of the checker's fields or of the deployment mode leaves the
    state as it is. *)
Lemma triple_reads t (P : Shared.State.t → Prop) {A B}
    (g : Shared.LeaderChecker.t → A) (f : A → Shared.G B)
    (Q : B → Shared.State.t → Prop) c :
  (∀ st, P st → Shared.State.checker st = c) →
  Shared.triple t P (f (g c)) Q →
  Shared.triple t P (Shared.reads g ≫= f) Q.
Proof.
  intros Hc Hf st HP. specialize (Hf st HP).
  unfold mbind, Shared.G_bind, Shared.reads. by rewrite (Hc st HP).
Qed.

Lemma triple_streaming t (P : Shared.State.t → Prop) {B}
    (f : bool → Shared.G B) (Q : B → Shared.State.t → Prop) :
  (∀ b, Shared.triple t P (f b) Q) →
  Shared.triple t P (Shared.IsStreamingServiceEnabled ≫= f) Q.
Proof. intros Hf st HP. exact (Hf _ st HP). Qed.

(** A consultation of the runtime moves its position and nothing else. *)
Lemma triple_time t (P : Shared.State.t → Prop) {B} (f : Z → Shared.G B)
    (Q : B → Shared.State.t → Prop) :
  (∀ st n, P st → P (Shared.consult n st)) →
  (∀ now, Shared.triple t P (f now) Q) →
  Shared.triple t P (Shared.timeNowUnixNano ≫= f) Q.
Proof. intros Hstable Hf st HP. apply Hf. by apply Hstable. Qed.

Lemma triple_rangeOver t (P : Shared.State.t → Prop) {V B} (m : gmap Z V)
    (f : list (Z * V) → Shared.G B) (Q : B → Shared.State.t → Prop) :
  (∀ st n, P st → P (Shared.consult n st)) →
  (∀ entries, Shared.triple t P (f entries) Q) →
  Shared.triple t P (Shared.rangeOver m ≫= f) Q.
Proof. intros Hstable Hf st HP. apply Hf. by apply Hstable. Qed.

(** A load returns the object at the address; it panics where there is
    none. *)
Lemma triple_load t (P : Shared.State.t → Prop) {B} l
    (f : Shared.object → Shared.G B) (Q : B → Shared.State.t → Prop) :
  (t = true → ∀ st, P st → is_Some (Shared.State.heap st !! l)) →
  (∀ o, Shared.triple t (λ st, P st ∧ Shared.State.heap st !! l = Some o)
          (f o) Q) →
  Shared.triple t P (Shared.load l ≫= f) Q.
Proof.
  intros Halloc Hf st HP. unfold mbind, Shared.G_bind, Shared.load.
  destruct (Shared.State.heap st !! l) as [o|] eqn:E.
  - by apply Hf.
  - destruct t; [|done]. destruct (Halloc eq_refl st HP) as [o Ho]. congruence.
Qed.

(** A store replaces the object at the address. *)
Lemma triple_store t (P : Shared.State.t → Prop) l o
    (Q : unit → Shared.State.t → Prop) :
  (t = true → ∀ st, P st → is_Some (Shared.State.heap st !! l)) →
  (∀ st, P st → is_Some (Shared.State.heap st !! l) →
         Q tt (Shared.setHeap (<[l := o]> (Shared.State.heap st)) st)) →
  Shared.triple t P (Shared.store l o) Q.
Proof.
  intros Halloc HQ st HP. unfold Shared.store.
  destruct (Shared.State.heap st !! l) as [o'|] eqn:E.
  - apply HQ; [done|]. by rewrite E.
  - destruct t; [|done]. destruct (Halloc eq_refl st HP) as [o' Ho]. congruence.
Qed.

(** An allocation takes an address that held nothing. *)
Lemma triple_alloc t (P : Shared.State.t → Prop) o
    (Q : Shared.loc → Shared.State.t → Prop) :
  (∀ st l, P st → Shared.State.heap st !! l = None →
           Q l (Shared.setHeap (<[l := o]> (Shared.State.heap st)) st)) →
  Shared.triple t P (Shared.alloc o) Q.
Proof.
  intros HQ st HP. unfold Shared.alloc. apply HQ; [done|].
  apply not_elem_of_dom, is_fresh.
Qed.

Lemma triple_derefView t (P : Shared.State.t → Prop) st0 {B} l
    (f : Shared.LeaderView.t → Shared.G B) (Q : B → Shared.State.t → Prop) :
  (∀ st, P st → Shared.untouched st0 st) →
  (t = true → ∃ v0, Shared.State.heap st0 !! l = Some (Shared.ViewObj v0)) →
  (∀ v, (∀ v0, Shared.State.heap st0 !! l = Some (Shared.ViewObj v0) → v = v0) →
        Shared.triple t P (f v) Q) →
  Shared.triple t P (Shared.derefView l ≫= f) Q.
Proof.
  intros Hun Hview Hf st HP.
  destruct (Hun st HP) as (_ & _ & Hh).
  assert (∀ v0, Shared.State.heap st0 !! l = Some (Shared.ViewObj v0) →
                Shared.State.heap st !! l = Some (Shared.ViewObj v0)) as Hup
    by (intros v0 Hv0; by eapply lookup_weaken).
  unfold mbind, Shared.G_bind, Shared.derefView, Shared.load,
    mbind, Shared.G_bind.
  destruct (Shared.State.heap st !! l) as [[v|m|m|m]|] eqn:E; cbn.
  1: { apply Hf; [|done]. intros v0 Hv0. apply Hup in Hv0. congruence. }
  all: destruct t; [|done]; destruct (Hview eq_refl) as (v0 & Hv0);
    apply Hup in Hv0; congruence.
Qed.

Lemma triple_loadSegments t (P : Shared.State.t → Prop) {B} r
    (f : gmap Z SegmentDist.t → Shared.G B) (Q : B → Shared.State.t → Prop) :
  (t = true → ∀ st, P st → Shared.holdsSegments (Shared.State.heap st) r) →
  (∀ m, Shared.triple t P (f m) Q) →
  Shared.triple t P (Shared.loadSegments r ≫= f) Q.
Proof.
  intros Hr Hf st HP. destruct r as [|l]; [by apply Hf|].
  unfold mbind, Shared.G_bind, Shared.loadSegments, Shared.load,
    mbind, Shared.G_bind.
  destruct (Shared.State.heap st !! l) as [[v|m|m|m]|] eqn:E; cbn.
  2: by apply Hf.
  all: destruct t; [|done]; destruct (Hr eq_refl st HP) as (x & Hx);
    cbn in Hx; congruence.
Qed.

Lemma triple_loadVersions t (P : Shared.State.t → Prop) {B} r
    (f : gmap Z Z → Shared.G B) (Q : B → Shared.State.t → Prop) :
  (t = true → ∀ st, P st → Shared.holdsVersions (Shared.State.heap st) r) →
  (∀ m, Shared.triple t P (f m) Q) →
  Shared.triple t P (Shared.loadVersions r ≫= f) Q.
Proof.
  intros Hr Hf st HP. destruct r as [|l]; [by apply Hf|].
  unfold mbind, Shared.G_bind, Shared.loadVersions, Shared.load,
    mbind, Shared.G_bind.
  destruct (Shared.State.heap st !! l) as [[v|m|m|m]|] eqn:E; cbn.
  3: by apply Hf.
  all: destruct t; [|done]; destruct (Hr eq_refl st HP) as (x & Hx);
    cbn in Hx; congruence.
Qed.

Lemma triple_loadIDs t (P : Shared.State.t → Prop) {B} r
    (f : gset Z → Shared.G B) (Q : B → Shared.State.t → Prop) :
  (t = true → ∀ st, P st → Shared.holdsIDs (Shared.State.heap st) r) →
  (∀ m, Shared.triple t P (f m) Q) →
  Shared.triple t P (Shared.loadIDs r ≫= f) Q.
Proof.
  intros Hr Hf st HP. destruct r as [|l]; [by apply Hf|].
  unfold mbind, Shared.G_bind, Shared.loadIDs, Shared.load,
    mbind, Shared.G_bind.
  destruct (Shared.State.heap st !! l) as [[v|m|m|m]|] eqn:E; cbn.
  4: by apply Hf.
  all: destruct t; [|done]; destruct (Hr eq_refl st HP) as (x & Hx);
    cbn in Hx; congruence.
Qed.

(** A map from [make] is at an address that held nothing when the method
    was entered; an assignment to one of its entries touches nothing that
    was there. *)
Lemma triple_makeVersions t st0 {B} (f : Shared.mapref → Shared.G B)
    (Q : B → Shared.State.t → Prop) :
  (∀ l, Shared.State.heap st0 !! l = None →
        Shared.triple t
          (λ st, Shared.untouched st0 st
                 ∧ Shared.holdsVersions (Shared.State.heap st) (Shared.mapAt l))
          (f (Shared.mapAt l)) Q) →
  Shared.triple t (Shared.untouched st0) (Shared.makeVersions ≫= f) Q.
Proof.
  intros Hf st HP.
  unfold mbind, Shared.G_bind, Shared.makeVersions, Shared.alloc,
    mbind, Shared.G_bind. cbn.
  set (l := fresh (dom (Shared.State.heap st))).
  assert (Shared.State.heap st !! l = None) as Hl
    by apply not_elem_of_dom, is_fresh.
  apply Hf; [by eapply untouched_fresh|]. split.
  - by apply untouched_alloc.
  - exists ∅. cbn. by rewrite lookup_insert_eq.
Qed.

Lemma triple_makeIDs t st0 {B} (f : Shared.mapref → Shared.G B)
    (Q : B → Shared.State.t → Prop) :
  (∀ l, Shared.State.heap st0 !! l = None →
        Shared.triple t
          (λ st, Shared.untouched st0 st
                 ∧ Shared.holdsIDs (Shared.State.heap st) (Shared.mapAt l))
          (f (Shared.mapAt l)) Q) →
  Shared.triple t (Shared.untouched st0) (Shared.makeIDs ≫= f) Q.
Proof.
  intros Hf st HP.
  unfold mbind, Shared.G_bind, Shared.makeIDs, Shared.alloc,
    mbind, Shared.G_bind. cbn.
  set (l := fresh (dom (Shared.State.heap st))).
  assert (Shared.State.heap st !! l = None) as Hl
    by apply not_elem_of_dom, is_fresh.
  apply Hf; [by eapply untouched_fresh|]. split.
  - by apply untouched_alloc.
  - exists ∅. cbn. by rewrite lookup_insert_eq.
Qed.

Lemma triple_assignVersion t st0 l k v :
  Shared.State.heap st0 !! l = None →
  let P := λ st, Shared.untouched st0 st
                 ∧ Shared.holdsVersions (Shared.State.heap st) (Shared.mapAt l) in
  Shared.triple t P (Shared.assignVersion (Shared.mapAt l) k v) (λ _, P).
Proof.
  intros Hl P st [Hun (b & Hb)]. cbn in Hb.
  unfold Shared.assignVersion, mbind, Shared.G_bind, Shared.load,
    Shared.store.
  rewrite Hb. cbn. rewrite Hb. split.
  - by apply untouched_store.
  - eexists. cbn. by rewrite lookup_insert_eq.
Qed.

Lemma triple_assignID t st0 l k :
  Shared.State.heap st0 !! l = None →
  let P := λ st, Shared.untouched st0 st
                 ∧ Shared.holdsIDs (Shared.State.heap st) (Shared.mapAt l) in
  Shared.triple t P (Shared.assignID (Shared.mapAt l) k) (λ _, P).
Proof.
  intros Hl P st [Hun (b & Hb)]. cbn in Hb.
  unfold Shared.assignID, mbind, Shared.G_bind, Shared.load, Shared.store.
  rewrite Hb. cbn. rewrite Hb. split.
  - by apply untouched_store.
  - eexists. cbn. by rewrite lookup_insert_eq.
Qed.

(** ** The sub-diffs and the loop *)

Lemma holdsView_view t st0 l :
  (t = true → Shared.holdsView (Shared.State.heap st0) l) →
  t = true → ∃ v0, Shared.State.heap st0 !! l = Some (Shared.ViewObj v0).
Proof. intros Hview Ht. destruct (Hview Ht) as (v0 & Hv0 & _). by exists v0. Qed.

Lemma triple_findNeedLoadedSegments t st0 replica l dist :
  (t = true → Shared.holdsView (Shared.State.heap st0) l) →
  Shared.triple t (Shared.untouched st0)
    (Shared.findNeedLoadedSegments replica l dist)
    (λ _, Shared.untouched st0).
Proof.
  intros Hview. pose proof (holdsView_view t st0 l Hview) as Hv.
  unfold Shared.findNeedLoadedSegments.
  apply (triple_derefView _ _ st0); [done | done |]. intros _ _.
  apply (triple_forRange t (λ _, Shared.untouched st0)). intros s ret _.
  apply (triple_derefView _ _ st0); [done | done |]. intros v1 _.
  apply (triple_reads _ _ _ _ _ (Shared.State.checker st0));
    [by intros st (? & _)|].
  destruct (Shared.TargetManager.GetSealedSegment _ _ _ _);
    [|by apply triple_ret].
  apply (triple_derefView _ _ st0); [done | done |]. intros v2 Hv2.
  apply triple_loadSegments.
  { intros Ht st (_ & _ & Hh). destruct (Hview Ht) as (v0 & Hv0 & Hsegs & _).
    rewrite (Hv2 v0 Hv0). by eapply holdsSegments_mono. }
  intros segments.
  destruct (match segments !! Segment.GetID s with
            | Some version => _ | None => _ end); [|by apply triple_ret].
  apply (triple_derefView _ _ st0); [done | done |]. intros v3 _.
  apply triple_time; [intros; by apply untouched_consult|]. intros now.
  by apply triple_ret.
Qed.

Lemma triple_findNeedRemovedSegments t st0 replica l dists :
  (t = true → Shared.holdsView (Shared.State.heap st0) l) →
  Shared.triple t (Shared.untouched st0)
    (Shared.findNeedRemovedSegments replica l dists)
    (λ _, Shared.untouched st0).
Proof.
  intros Hview. pose proof (holdsView_view t st0 l Hview) as Hv.
  unfold Shared.findNeedRemovedSegments.
  apply (triple_derefView _ _ st0); [done | done |]. intros _ _.
  apply triple_makeIDs. intros distMap Hfresh.
  set (P := λ st, Shared.untouched st0 st
                  ∧ Shared.holdsIDs (Shared.State.heap st)
                      (Shared.mapAt distMap)).
  eapply triple_bind.
  { apply (triple_forRange t (λ _, P)). intros s [] _.
    by apply triple_assignID. }
  intros [].
  apply (triple_derefView _ _ st0); [by intros st [? _] | done |].
  intros v1 Hv1.
  apply triple_loadSegments.
  { intros Ht st ((_ & _ & Hh) & _).
    destruct (Hview Ht) as (v0 & Hv0 & Hsegs & _).
    rewrite (Hv1 v0 Hv0). by eapply holdsSegments_mono. }
  intros segments.
  apply triple_rangeOver.
  { intros st n [Hun Hids]. split; [by apply untouched_consult | done]. }
  intros entries.
  eapply triple_conseq; [done | |];
    [|apply (triple_forRange t (λ _, P))].
  { by intros _ st [? _]. }
  intros [sid s] ret _.
  apply triple_loadIDs; [by intros _ st [_ ?]|]. intros inDist.
  apply (triple_derefView _ _ st0); [by intros st [? _] | done |].
  intros v2 _.
  apply (triple_reads _ _ _ _ _ (Shared.State.checker st0));
    [by intros st ((? & _) & _)|].
  destruct (_ || _); [by apply triple_ret|].
  apply (triple_derefView _ _ st0); [by intros st [? _] | done |].
  intros v3 _. by apply triple_ret.
Qed.

Lemma triple_findNeedSyncPartitionStats t st0 replica l nodeID :
  (t = true → Shared.holdsView (Shared.State.heap st0) l) →
  (t = true → ∀ collectionID channel d,
     Shared.TargetManager.GetDmChannel
       (Shared.LeaderChecker.target (Shared.State.checker st0))
       collectionID channel CurrentTarget = Some d →
     Shared.holdsVersions (Shared.State.heap st0)
       (Shared.DmChannel.PartitionStatsVersions d)) →
  Shared.triple t (Shared.untouched st0)
    (Shared.findNeedSyncPartitionStats replica l nodeID)
    (λ _, Shared.untouched st0).
Proof.
  intros Hview Htarget. pose proof (holdsView_view t st0 l Hview) as Hv.
  unfold Shared.findNeedSyncPartitionStats.
  apply (triple_derefView _ _ st0); [done | done |]. intros v1 _.
  apply (triple_reads _ _ _ _ _ (Shared.State.checker st0));
    [by intros st (? & _)|].
  destruct (Shared.TargetManager.GetDmChannel _ _ _ _) as [d|] eqn:Hd;
    [|by apply triple_ret].
  apply (triple_derefView _ _ st0); [done | done |]. intros v2 Hv2.
  apply triple_makeVersions. intros partStatsToUpdate Hfresh.
  set (P := λ st, Shared.untouched st0 st
                  ∧ Shared.holdsVersions (Shared.State.heap st)
                      (Shared.mapAt partStatsToUpdate)).
  apply triple_loadVersions.
  { intros Ht st ((_ & _ & Hh) & _).
    eapply holdsVersions_mono; [exact Hh|]. by eapply Htarget. }
  intros inTarget.
  apply triple_rangeOver.
  { intros st n [Hun Hids]. split; [by apply untouched_consult | done]. }
  intros entries.
  eapply triple_bind.
  { apply (triple_forRange t (λ _, P)). intros [partID v] [] _.
    apply triple_loadVersions.
    { intros Ht st ((_ & _ & Hh) & _).
      destruct (Hview Ht) as (v0 & Hv0 & _ & Hvers).
      rewrite (Hv2 v0 Hv0). by eapply holdsVersions_mono. }
    intros inLView. case_bool_decide.
    - by apply triple_assignVersion.
    - by apply triple_ret. }
  intros [].
  apply triple_loadVersions; [by intros _ st [_ ?]|]. intros toUpdate.
  case_bool_decide; [|apply triple_ret; by intros st [? _]].
  apply (triple_derefView _ _ st0); [by intros st [? _] | done |].
  intros v3 _. apply triple_ret. by intros st [? _].
Qed.

Lemma triple_readyToCheck t (P : Shared.State.t → Prop) c collectionID :
  (∀ st, P st → Shared.State.checker st = c) →
  Shared.triple t P (Shared.readyToCheck collectionID) (λ _, P).
Proof.
  intros Hc. unfold Shared.readyToCheck.
  apply (triple_reads _ _ _ _ _ c); [done|].
  apply (triple_reads _ _ _ _ _ c); [done|].
  apply (triple_bind _ _ _ _ (λ _, P));
    [|intros targetExist; by apply triple_ret].
  destruct (Shared.TargetManager.IsNextTargetExist _ _).
  - by apply triple_ret.
  - intros st HP. exact HP.
Qed.

Lemma triple_Check t st0 :
  (t = true → Shared.wellFormed st0) →
  Shared.triple t (Shared.untouched st0) Shared.Check
    (λ _, Shared.untouched st0).
Proof.
  intros Hwf.
  assert (∀ st, Shared.untouched st0 st →
                Shared.State.checker st = Shared.State.checker st0) as Hc
    by (by intros st (? & _)).
  unfold Shared.Check, Shared.IsActive.
  apply (triple_reads _ _ _ _ _ (Shared.State.checker st0)); [done|].
  destruct (negb _); [by apply triple_ret|].
  apply (triple_reads _ _ _ _ _ (Shared.State.checker st0)); [done|].
  apply (triple_forRange t (λ _, Shared.untouched st0)).
  intros collectionID tasks _.
  eapply triple_bind; [by apply (triple_readyToCheck _ _ _ _ Hc)|].
  intros ready. destruct (negb ready); [by apply triple_ret|].
  apply (triple_reads _ _ _ _ _ (Shared.State.checker st0)); [done|].
  destruct (Meta.GetCollection _ _); [|by apply triple_ret].
  apply (triple_reads _ _ _ _ _ (Shared.State.checker st0)); [done|].
  apply (triple_forRange t (λ _, Shared.untouched st0)).
  intros replica tasks1 _.
  apply triple_streaming. intros streamingEnabled.
  apply (triple_forRange t (λ _, Shared.untouched st0)).
  intros node tasks2 _.
  apply (triple_reads _ _ _ _ _ (Shared.State.checker st0)); [done|].
  apply (triple_forRange t (λ _, Shared.untouched st0)).
  intros d tasks3 Hd.
  assert (t = true → Shared.holdsView (Shared.State.heap st0)
                       (Shared.Delegator.View d)) as Hview.
  { intros Ht. destruct (Hwf Ht) as [Hviews _]. by eapply Hviews. }
  apply (triple_derefView _ _ st0);
    [done | by apply (holdsView_view t) |]. intros view _.
  apply (triple_reads _ _ _ _ _ (Shared.State.checker st0)); [done|].
  eapply triple_bind; [by apply triple_findNeedLoadedSegments|].
  intros loaded.
  eapply triple_bind; [by apply triple_findNeedRemovedSegments|].
  intros removed.
  eapply triple_bind.
  { apply triple_findNeedSyncPartitionStats; [done|].
    intros Ht collectionID' channel d' Hd'.
    destruct (Hwf Ht) as [_ Hchannels]. by eapply Hchannels. }
  intros synced. by apply triple_ret.
Qed.

Lemma triple_frames {A} (m : Shared.G A) :
  (∀ st0, Shared.triple false (Shared.untouched st0) m
            (λ _, Shared.untouched st0)) →
  Shared.frames m.
Proof.
  intros Hm st r st' Hrun.
  specialize (Hm st st (untouched_refl st)). by rewrite Hrun in Hm.
Qed.

Lemma triple_returns {A} (m : Shared.G A) st :
  Shared.triple true (Shared.untouched st) m (λ _, Shared.untouched st) →
  Shared.returns m st (λ _ st', Shared.untouched st st').
Proof.
  intros Hm. specialize (Hm st (untouched_refl st)).
  unfold Shared.returns.
  destruct (m st) as [[r st']|]; [|discriminate]. by exists r, st'.
Qed.

(** * The two embeddings agree *)

(** ** Reading references off a heap that has grown *)

Lemma segmentsAt_mono h h' m :
  h ⊆ h' → Shared.holdsSegments h m → segmentsAt h' m = segmentsAt h m.
Proof.
  intros Hh. destruct m as [|l]; [done|]. intros (x & Hx). cbn.
  by rewrite (lookup_weaken _ _ _ _ Hx Hh), Hx.
Qed.

Lemma versionsAt_mono h h' m :
  h ⊆ h' → Shared.holdsVersions h m → versionsAt h' m = versionsAt h m.
Proof.
  intros Hh. destruct m as [|l]; [done|]. intros (x & Hx). cbn.
  by rewrite (lookup_weaken _ _ _ _ Hx Hh), Hx.
Qed.

Lemma taskAt_mono h h' t :
  h ⊆ h' →
  Shared.holdsVersions h
    (Shared.LeaderAction.partStatsVersions (Shared.Task.action t)) →
  taskAt h' t = taskAt h t.
Proof. intros Hh Ht. unfold taskAt. by rewrite (versionsAt_mono h h'). Qed.

Lemma tasksAt_mono h h' ts ts' :
  h ⊆ h' → tasksAt h ts ts' → tasksAt h' ts ts'.
Proof.
  intros Hh [Hvalid <-]. split.
  - eapply Forall_impl; [exact Hvalid|].
    intros t Ht. by eapply holdsVersions_mono.
  - apply Forall_fmap_ext_1. eapply Forall_impl; [exact Hvalid|].
    intros t Ht. by apply taskAt_mono.
Qed.

Lemma tasksAt_nil h : tasksAt h [] [].
Proof. by split. Qed.

Lemma tasksAt_app h ts1 ts1' ts2 ts2' :
  tasksAt h ts1 ts1' → tasksAt h ts2 ts2' →
  tasksAt h (ts1 ++ ts2) (ts1' ++ ts2').
Proof.
  intros [H1 <-] [H2 <-]. split; [by apply Forall_app | by rewrite fmap_app].
Qed.

(** ** Rules *)

Lemma sim_ret {A B} (x : A) (x' : B) st w
    (Q : A → B → Shared.State.t → World.t → Prop) :
  Q x x' st w → sim (mret x) (mret x') st w Q.
Proof. intros HQ. by exists x, st. Qed.

Lemma sim_mono {A B} (m : Shared.G A) (m' : M B) st w
    (Q Q' : A → B → Shared.State.t → World.t → Prop) :
  sim m m' st w Q → (∀ r r' st' w', Q r r' st' w' → Q' r r' st' w') →
  sim m m' st w Q'.
Proof. intros (r & st' & Hm & HQ) HQQ. exists r, st'. auto. Qed.

Lemma sim_bind {A B C D} (m : Shared.G A) (m' : M B) (f : A → Shared.G C)
    (f' : B → M D) st w (Q : C → D → Shared.State.t → World.t → Prop) :
  sim m m' st w (λ x x' st1 w1, sim (f x) (f' x') st1 w1 Q) →
  sim (m ≫= f) (m' ≫= f') st w Q.
Proof.
  intros (x & st1 & Hm & r & st' & Hf & HQ). exists r, st'. split.
  - unfold mbind, Shared.G_bind. by rewrite Hm.
  - unfold mbind, M_bind. by destruct (m' w) as [x' w1].
Qed.

(** A step of the second embedding that the first does not make. *)
Lemma sim_left {A B C} (m : Shared.G A) (f : A → Shared.G C) (m' : M B)
    st w (Q : C → B → Shared.State.t → World.t → Prop) x st1 :
  m st = Some (x, st1) → sim (f x) m' st1 w Q → sim (m ≫= f) m' st w Q.
Proof.
  intros Hm (r & st' & Hf & HQ). exists r, st'. split; [|done].
  unfold mbind, Shared.G_bind. by rewrite Hm.
Qed.

Lemma sim_reads {A A' C D} (g : Shared.LeaderChecker.t → A)
    (g' : LeaderChecker.t → A') (f : A → Shared.G C) (f' : A' → M D) st w
    (Q : C → D → Shared.State.t → World.t → Prop) :
  sim (f (g (Shared.State.checker st))) (f' (g' (World.checker w))) st w Q →
  sim (Shared.reads g ≫= f) (reads g' ≫= f') st w Q.
Proof. intros H. exact H. Qed.

Lemma sim_streaming {C D} (f : bool → Shared.G C) (f' : bool → M D) st w
    (Q : C → D → Shared.State.t → World.t → Prop) :
  sim (f (Shared.State.streaming st)) (f' (World.streaming w)) st w Q →
  sim (Shared.IsStreamingServiceEnabled ≫= f)
      (IsStreamingServiceEnabled ≫= f') st w Q.
Proof. intros H. exact H. Qed.

Lemma sim_time {C D} (f : Z → Shared.G C) (f' : Z → M D) st w
    (Q : C → D → Shared.State.t → World.t → Prop) :
  World.runtime w = Shared.State.runtime st →
  (∀ now, sim (f now) (f' now) (Shared.consult 1 st) (advance 1 w) Q) →
  sim (Shared.timeNowUnixNano ≫= f) (timeNowUnixNano ≫= f') st w Q.
Proof.
  intros Hrt H. specialize (H (Runtime.clock (Shared.State.runtime st)
                                 (Runtime.pos (Shared.State.runtime st)))).
  destruct H as (r & st' & Hf & HQ). exists r, st'. split; [exact Hf|].
  unfold mbind, M_bind, timeNowUnixNano. by rewrite Hrt.
Qed.

Lemma sim_rangeOver {V C D} (m : gmap Z V) (f : list (Z * V) → Shared.G C)
    (f' : list (Z * V) → M D) st w
    (Q : C → D → Shared.State.t → World.t → Prop) :
  World.runtime w = Shared.State.runtime st →
  (∀ entries, sim (f entries) (f' entries)
                (Shared.consult (length (map_to_list m)) st)
                (advance (length (map_to_list m)) w) Q) →
  sim (Shared.rangeOver m ≫= f) (rangeMap m ≫= f') st w Q.
Proof.
  intros Hrt H.
  specialize (H (iterOrder (Runtime.picks (Shared.State.runtime st)
                    <$> seq (Runtime.pos (Shared.State.runtime st))
                          (length (map_to_list m))) (map_to_list m))).
  destruct H as (r & st' & Hf & HQ). exists r, st'. split; [exact Hf|].
  unfold mbind, M_bind, rangeMap. by rewrite Hrt.
Qed.

Lemma sim_forRange {A A' S S'} (g : A → A')
    (I : S → S' → Shared.State.t → World.t → Prop) (xs : list A)
    (body : A → S → Shared.G S) (body' : A' → S' → M S') s s' st w :
  I s s' st w →
  (∀ x s s' st w, x ∈ xs → I s s' st w →
                  sim (body x s) (body' (g x) s') st w I) →
  sim (Shared.forRange xs body s) (forRange (g <$> xs) body' s') st w I.
Proof.
  revert s s' st w. induction xs as [|x xs IH]; intros s s' st w HI Hbody.
  - by apply sim_ret.
  - cbn [fmap list_fmap Shared.forRange forRange]. apply sim_bind.
    eapply sim_mono; [apply Hbody; [by left | exact HI]|].
    intros s1 s1' st1 w1 HI1. apply IH; [done|].
    intros y s2 s2' st2 w2 Hy. apply Hbody. by right.
Qed.

Lemma sim_forRange_same {A S S'}
    (I : S → S' → Shared.State.t → World.t → Prop) (xs : list A)
    (body : A → S → Shared.G S) (body' : A → S' → M S') s s' st w :
  I s s' st w →
  (∀ x s s' st w, x ∈ xs → I s s' st w →
                  sim (body x s) (body' x s') st w I) →
  sim (Shared.forRange xs body s) (forRange xs body' s') st w I.
Proof.
  intros HI Hbody. rewrite <- (list_fmap_id xs) at 2.
  by apply (sim_forRange id).
Qed.

(** ** The accesses to the heap *)

Lemma run_derefView st l v :
  Shared.State.heap st !! l = Some (Shared.ViewObj v) →
  Shared.derefView l st = Some (v, st).
Proof.
  intros Hl. unfold Shared.derefView, mbind, Shared.G_bind, Shared.load.
  by rewrite Hl.
Qed.

Lemma run_loadSegments st m :
  Shared.holdsSegments (Shared.State.heap st) m →
  Shared.loadSegments m st = Some (segmentsAt (Shared.State.heap st) m, st).
Proof.
  destruct m as [|l]; [done|]. intros (x & Hx).
  unfold Shared.loadSegments, mbind, Shared.G_bind, Shared.load, segmentsAt.
  by rewrite Hx.
Qed.

Lemma run_loadVersions st m :
  Shared.holdsVersions (Shared.State.heap st) m →
  Shared.loadVersions m st = Some (versionsAt (Shared.State.heap st) m, st).
Proof.
  destruct m as [|l]; [done|]. intros (x & Hx).
  unfold Shared.loadVersions, mbind, Shared.G_bind, Shared.load, versionsAt.
  by rewrite Hx.
Qed.

Lemma run_loadIDs st l X :
  Shared.State.heap st !! l = Some (Shared.IDsObj X) →
  Shared.loadIDs (Shared.mapAt l) st = Some (X, st).
Proof.
  intros Hl. unfold Shared.loadIDs, mbind, Shared.G_bind, Shared.load.
  by rewrite Hl.
Qed.

Lemma run_assignID st l X k :
  Shared.State.heap st !! l = Some (Shared.IDsObj X) →
  Shared.assignID (Shared.mapAt l) k st
  = Some (tt, Shared.setHeap
                (<[l := Shared.IDsObj ({[k]} ∪ X)]> (Shared.State.heap st)) st).
Proof.
  intros Hl.
  unfold Shared.assignID, mbind, Shared.G_bind, Shared.load, Shared.store.
  by rewrite Hl; cbn; rewrite Hl.
Qed.

Lemma run_assignVersion st l b k v :
  Shared.State.heap st !! l = Some (Shared.VersionsObj b) →
  Shared.assignVersion (Shared.mapAt l) k v st
  = Some (tt, Shared.setHeap
                (<[l := Shared.VersionsObj (<[k := v]> b)]>
                   (Shared.State.heap st)) st).
Proof.
  intros Hl.
  unfold Shared.assignVersion, mbind, Shared.G_bind, Shared.load,
    Shared.store.
  by rewrite Hl; cbn; rewrite Hl.
Qed.

(** The first loop of [findNeedRemovedSegments] fills the set it has made
    with the IDs of the placements. *)
Lemma run_fill_distMap st l (dists : list Segment.t) X :
  Shared.State.heap st !! l = Some (Shared.IDsObj X) →
  Shared.forRange dists
    (λ s (_ : unit), Shared.assignID (Shared.mapAt l) (Segment.GetID s)) tt st
  = Some (tt, Shared.setHeap
                (<[l := Shared.IDsObj
                          (foldl (λ (distMap : gset Z) s,
                                    {[Segment.GetID s]} ∪ distMap) X dists)]>
                   (Shared.State.heap st)) st).
Proof.
  revert st X. induction dists as [|s dists IH]; intros st X Hl.
  - cbn. destruct st as [c b rt h]. unfold Shared.setHeap. cbn in *.
    by rewrite insert_id.
  - cbn [Shared.forRange foldl]. unfold mbind, Shared.G_bind at 1.
    rewrite (run_assignID st l X) by done.
    rewrite (IH _ ({[Segment.GetID s]} ∪ X))
      by (cbn; by rewrite lookup_insert_eq).
    unfold Shared.setHeap. cbn. by rewrite insert_insert_eq.
Qed.

(** ** States that go together *)

Lemma stands_consult st0 st w n :
  stands st0 st w → stands st0 (Shared.consult n st) (advance n w).
Proof.
  intros (Hun & Hc & Hs & Hrt). split_and!; [|done..|].
  - by apply untouched_consult.
  - cbn. by rewrite Hrt.
Qed.

Lemma stands_checker st0 st w :
  stands st0 st w → Shared.State.checker st = Shared.State.checker st0.
Proof. by intros ((? & _) & _). Qed.

Lemma stands_view st0 st w l v :
  stands st0 st w →
  Shared.State.heap st0 !! l = Some (Shared.ViewObj v) →
  Shared.State.heap st !! l = Some (Shared.ViewObj v).
Proof. intros ((_ & _ & Hh) & _) Hl. by eapply lookup_weaken. Qed.

(** ** The sub-diffs *)

Lemma sim_findNeedLoadedSegments st0 st w replica l v0 dist :
  Shared.State.heap st0 !! l = Some (Shared.ViewObj v0) →
  Shared.holdsSegments (Shared.State.heap st0) (Shared.LeaderView.Segments v0) →
  stands st0 st w →
  sim (Shared.findNeedLoadedSegments replica l dist)
      (findNeedLoadedSegments replica (viewOf (Shared.State.heap st0) v0) dist)
      st w
      (λ ts ts' st' w', stands st0 st' w' ∧ ∀ h, tasksAt h ts ts').
Proof.
  intros Hl Hsegs Hst.
  unfold Shared.findNeedLoadedSegments, findNeedLoadedSegments.
  eapply sim_left; [apply run_derefView; by eapply stands_view|].
  apply (sim_forRange_same
           (λ ret ret' st w, stands st0 st w ∧ ∀ h, tasksAt h ret ret')).
  { split; [done|]. intros h. apply tasksAt_nil. }
  clear st w Hst. intros s ret ret' st w _ [Hst Hret].
  eapply sim_left; [apply run_derefView; by eapply stands_view|].
  apply sim_reads. rewrite (stands_checker _ _ _ Hst).
  pose proof Hst as (Hun & Hc & Hs & Hrt). rewrite Hc.
  cbn [checkerAt LeaderChecker.target TargetManager.GetSealedSegment viewOf
       LeaderView.CollectionID].
  destruct (Shared.TargetManager.GetSealedSegment _ _ _ _);
    [|by apply sim_ret].
  eapply sim_left; [apply run_derefView; by eapply stands_view|].
  eapply sim_left.
  { apply run_loadSegments. destruct Hun as (_ & _ & Hh).
    by eapply holdsSegments_mono. }
  rewrite (segmentsAt_mono (Shared.State.heap st0)) by (done || apply Hun).
  unfold viewOf. cbn [LeaderView.Segments].
  destruct (match segmentsAt _ _ !! Segment.GetID s with
            | Some version => _ | None => _ end); [|by apply sim_ret].
  eapply sim_left; [apply run_derefView; by eapply stands_view|].
  apply sim_time; [done|]. intros now. apply sim_ret.
  split; [by apply stands_consult|]. intros h.
  apply tasksAt_app; [done|]. split; [by repeat constructor | done].
Qed.

Lemma stands_alloc st0 st w l o :
  stands st0 st w → Shared.State.heap st !! l = None →
  stands st0 (Shared.setHeap (<[l := o]> (Shared.State.heap st)) st) w.
Proof.
  intros (Hun & Hc & Hs & Hrt) Hl. split_and!; [|done..].
  by apply untouched_alloc.
Qed.

Lemma stands_store st0 st w l o :
  stands st0 st w → Shared.State.heap st0 !! l = None →
  stands st0 (Shared.setHeap (<[l := o]> (Shared.State.heap st)) st) w.
Proof.
  intros (Hun & Hc & Hs & Hrt) Hl. split_and!; [|done..].
  by apply untouched_store.
Qed.

Lemma sim_findNeedRemovedSegments st0 st w replica l v0 dists :
  Shared.State.heap st0 !! l = Some (Shared.ViewObj v0) →
  Shared.holdsSegments (Shared.State.heap st0) (Shared.LeaderView.Segments v0) →
  stands st0 st w →
  sim (Shared.findNeedRemovedSegments replica l dists)
      (findNeedRemovedSegments replica (viewOf (Shared.State.heap st0) v0) dists)
      st w
      (λ ts ts' st' w', stands st0 st' w' ∧ ∀ h, tasksAt h ts ts').
Proof.
  intros Hl Hsegs Hst.
  unfold Shared.findNeedRemovedSegments, findNeedRemovedSegments.
  cbv zeta.
  eapply sim_left; [apply run_derefView; by eapply stands_view|].
  set (distMap := fresh (dom (Shared.State.heap st))).
  assert (Shared.State.heap st !! distMap = None) as Hfresh
    by apply not_elem_of_dom, is_fresh.
  assert (Shared.State.heap st0 !! distMap = None) as Hfresh0
    by (eapply untouched_fresh; [apply Hst | done]).
  eapply sim_left; [reflexivity|]. fold distMap.
  eapply sim_left.
  { apply (run_fill_distMap _ distMap dists ∅). cbn.
    by rewrite lookup_insert_eq. }
  set (inDist := foldl _ ∅ dists).
  set (st2 := Shared.setHeap _ _).
  assert (stands st0 st2 w) as Hst2.
  { subst st2. unfold Shared.setHeap. cbn. rewrite insert_insert_eq.
    by apply (stands_alloc st0 st w distMap). }
  assert (Shared.State.heap st2 !! distMap = Some (Shared.IDsObj inDist))
    as Hl2 by (subst st2; cbn; by rewrite lookup_insert_eq).
  clearbody st2 distMap. clear st Hst Hfresh.
  eapply sim_left; [apply run_derefView; by eapply stands_view|].
  eapply sim_left.
  { apply run_loadSegments. destruct Hst2 as ((_ & _ & Hh) & _).
    by eapply holdsSegments_mono. }
  rewrite (segmentsAt_mono (Shared.State.heap st0)) by (done || apply Hst2).
  unfold viewOf at 1. cbn [LeaderView.Segments].
  apply sim_rangeOver; [apply Hst2|]. intros entries.
  pose (I := λ (ret : list Shared.Task.t) (ret' : list Task.t) st w,
              stands st0 st w
              ∧ Shared.State.heap st !! distMap = Some (Shared.IDsObj inDist)
              ∧ ∀ h, tasksAt h ret ret').
  apply (sim_mono _ _ _ _ I); [|by intros ts ts' st' w' (? & _ & ?)].
  apply (sim_forRange_same I).
  { split_and!; [by apply stands_consult | done |]. intros h. apply tasksAt_nil. }
  clear st2 w Hst2 Hl2. intros [sid sd] ret ret' st w _ (Hst & Hl2 & Hret).
  eapply sim_left; [by apply run_loadIDs|].
  eapply sim_left; [apply run_derefView; by eapply stands_view|].
  apply sim_reads. rewrite (stands_checker _ _ _ Hst).
  pose proof Hst as (Hun & Hc & Hs & Hrt). rewrite Hc.
  unfold viewOf.
  cbn [checkerAt LeaderChecker.target TargetManager.GetSealedSegment
       LeaderView.CollectionID].
  destruct (_ || _); [by apply sim_ret|].
  eapply sim_left; [apply run_derefView; by eapply stands_view|].
  apply sim_ret. split_and!; [done..|]. intros h.
  apply tasksAt_app; [done|]. split; [by repeat constructor | done].
Qed.

Lemma sim_findNeedSyncPartitionStats st0 st w replica l v0 nodeID :
  Shared.State.heap st0 !! l = Some (Shared.ViewObj v0) →
  Shared.holdsVersions (Shared.State.heap st0)
    (Shared.LeaderView.PartitionStatsVersions v0) →
  (∀ collectionID channel d,
     Shared.TargetManager.GetDmChannel
       (Shared.LeaderChecker.target (Shared.State.checker st0))
       collectionID channel CurrentTarget = Some d →
     Shared.holdsVersions (Shared.State.heap st0)
       (Shared.DmChannel.PartitionStatsVersions d)) →
  stands st0 st w →
  sim (Shared.findNeedSyncPartitionStats replica l nodeID)
      (findNeedSyncPartitionStats replica (viewOf (Shared.State.heap st0) v0)
         nodeID)
      st w
      (λ ts ts' st' w',
         stands st0 st' w' ∧ tasksAt (Shared.State.heap st') ts ts').
Proof.
  intros Hl Hvers Htarget Hst.
  unfold Shared.findNeedSyncPartitionStats, findNeedSyncPartitionStats.
  cbv zeta.
  eapply sim_left; [apply run_derefView; by eapply stands_view|].
  apply sim_reads. rewrite (stands_checker _ _ _ Hst).
  pose proof Hst as (Hun & Hc & Hs & Hrt). rewrite Hc.
  unfold viewOf at 1 2.
  cbn [checkerAt LeaderChecker.target TargetManager.GetDmChannel
       LeaderView.CollectionID LeaderView.Channel].
  destruct (Shared.TargetManager.GetDmChannel _ _ _ _) as [d|] eqn:Hd;
    cbn [fmap option_fmap option_map];
    [|apply sim_ret; split; [done | apply tasksAt_nil]].
  apply Htarget in Hd.
  eapply sim_left; [apply run_derefView; by eapply stands_view|].
  set (partStatsToUpdate := fresh (dom (Shared.State.heap st))).
  assert (Shared.State.heap st !! partStatsToUpdate = None) as Hfresh
    by apply not_elem_of_dom, is_fresh.
  assert (Shared.State.heap st0 !! partStatsToUpdate = None) as Hfresh0
    by (by eapply untouched_fresh).
  eapply sim_left; [reflexivity|]. fold partStatsToUpdate.
  set (st1 := Shared.setHeap _ _).
  assert (stands st0 st1 w) as Hst1 by (by apply stands_alloc).
  assert (Shared.State.heap st1 !! partStatsToUpdate
          = Some (Shared.VersionsObj ∅)) as Hl1
    by (subst st1; cbn; by rewrite lookup_insert_eq).
  clearbody st1 partStatsToUpdate. clear st Hst Hun Hrt Hfresh.
  eapply sim_left.
  { apply run_loadVersions. destruct Hst1 as ((_ & _ & Hh) & _).
    by eapply holdsVersions_mono. }
  rewrite (versionsAt_mono (Shared.State.heap st0)) by (done || apply Hst1).
  unfold channelAt, DmChannel.GetPartitionStatsVersions.
  cbn [DmChannel.PartitionStatsVersions].
  apply sim_rangeOver; [apply Hst1|]. intros entries.
  apply sim_bind.
  eapply sim_mono.
  { apply (sim_forRange_same
             (λ (_ : unit) toUpdate st w,
                stands st0 st w
                ∧ Shared.State.heap st !! partStatsToUpdate
                  = Some (Shared.VersionsObj toUpdate))).
    { split; [by apply stands_consult | done]. }
    clear st1 w Hst1 Hl1 Hc Hs.
    intros [partID psVersionInTarget] [] toUpdate st w _ (Hst & Hl1).
    eapply sim_left.
    { apply run_loadVersions. destruct Hst as ((_ & _ & Hh) & _).
      by eapply holdsVersions_mono. }
    rewrite (versionsAt_mono (Shared.State.heap st0)) by (done || apply Hst).
    unfold viewOf. cbn [LeaderView.PartitionStatsVersions].
    case_bool_decide.
    - eexists tt, _. split; [by apply run_assignVersion|].
      cbn [fst snd mret M_ret]. split; [by apply stands_store|].
      cbn. by rewrite lookup_insert_eq.
    - by apply sim_ret. }
  clear st1 w Hst1 Hl1 Hc Hs.
  intros [] toUpdate st w (Hst & Hl1).
  eapply sim_left; [apply run_loadVersions; by eexists|].
  cbn [versionsAt]. rewrite Hl1.
  case_bool_decide; [|apply sim_ret; split; [done | apply tasksAt_nil]].
  eapply sim_left; [apply run_derefView; by eapply stands_view|].
  apply sim_ret. split; [done|]. split.
  - repeat constructor. by eexists.
  - cbn. unfold taskAt. cbn. by rewrite Hl1.
Qed.

(** ** The loop *)

Lemma sim_frames {A B} (m : Shared.G A) (m' : M B) st w
    (Q : A → B → Shared.State.t → World.t → Prop) :
  Shared.frames m → sim m m' st w Q →
  sim m m' st w (λ r r' st' w', Q r r' st' w' ∧ Shared.untouched st st').
Proof.
  intros Hframes (r & st' & Hm & HQ). exists r, st'.
  split; [done|]. split; [done|]. by eapply Hframes.
Qed.

Lemma frames_findNeedLoadedSegments replica l dist :
  Shared.frames (Shared.findNeedLoadedSegments replica l dist).
Proof.
  apply triple_frames. intros st0. by apply triple_findNeedLoadedSegments.
Qed.

Lemma frames_findNeedRemovedSegments replica l dists :
  Shared.frames (Shared.findNeedRemovedSegments replica l dists).
Proof.
  apply triple_frames. intros st0. by apply triple_findNeedRemovedSegments.
Qed.

Lemma frames_findNeedSyncPartitionStats replica l nodeID :
  Shared.frames (Shared.findNeedSyncPartitionStats replica l nodeID).
Proof.
  apply triple_frames. intros st0.
  by apply triple_findNeedSyncPartitionStats.
Qed.

Lemma sim_readyToCheck st0 st w collectionID :
  stands st0 st w →
  sim (Shared.readyToCheck collectionID) (readyToCheck collectionID) st w
      (λ r r' st' w', r = r' ∧ st' = st ∧ w' = w).
Proof.
  intros Hst. pose proof (stands_checker _ _ _ Hst) as Hck.
  destruct Hst as (_ & Hc & _).
  unfold sim, Shared.readyToCheck, readyToCheck, mbind, Shared.G_bind, M_bind,
    Shared.reads, reads. cbn. rewrite Hck, Hc. cbn.
  destruct (Shared.TargetManager.IsNextTargetExist _ _); cbn;
    rewrite ?Hck, ?Hc; cbn; by eexists _, _.
Qed.

Lemma sim_Check st st1 w :
  Shared.wellFormed st → stands st st1 w →
  sim Shared.Check Check st1 w
      (λ ts ts' st' w',
         stands st st' w' ∧ tasksAt (Shared.State.heap st') ts ts').
Proof.
  intros [Hviews Hchannels] Hst.
  unfold Shared.Check, Check, Shared.IsActive, IsActive.
  apply sim_reads. rewrite (stands_checker _ _ _ Hst).
  pose proof Hst as (Hun & Hc & Hs & Hrt). rewrite Hc.
  cbn [checkerAt LeaderChecker.checkerActivation].
  destruct (negb _); [apply sim_ret; split; [done | apply tasksAt_nil]|].
  apply sim_reads. rewrite (stands_checker _ _ _ Hst), Hc.
  cbn [checkerAt LeaderChecker.meta].
  pose (I := λ (tasks : list Shared.Task.t) (tasks' : list Task.t) st' w',
              stands st st' w' ∧ tasksAt (Shared.State.heap st') tasks tasks').
  apply (sim_forRange_same I); [split; [done | apply tasksAt_nil]|].
  clear st1 w Hst Hun Hc Hs Hrt.
  intros collectionID tasks tasks' st1 w _ [Hst Htasks].
  unfold checkCollection. apply sim_bind.
  eapply sim_mono; [by apply (sim_readyToCheck st)|].
  intros ready ? ? ? (<- & -> & ->).
  destruct (negb ready); [by apply sim_ret|].
  apply sim_reads. rewrite (stands_checker _ _ _ Hst).
  pose proof Hst as (Hun & Hc & Hs & Hrt). rewrite Hc.
  cbn [checkerAt LeaderChecker.meta].
  destruct (Meta.GetCollection _ _); [|by apply sim_ret].
  apply sim_reads. rewrite (stands_checker _ _ _ Hst), Hc.
  cbn [checkerAt LeaderChecker.meta].
  apply (sim_forRange_same I); [done|].
  clear tasks tasks' st1 w Hst Htasks Hun Hc Hs Hrt.
  intros replica tasks tasks' st1 w _ [Hst Htasks].
  apply sim_streaming.
  pose proof Hst as ((_ & Hs1 & _) & Hc & Hs & Hrt). rewrite Hs1, Hs.
  apply (sim_forRange_same I); [done|].
  clear tasks tasks' st1 w Hst Htasks Hs1 Hc Hs Hrt.
  intros node tasks tasks' st1 w _ [Hst Htasks].
  apply sim_reads. rewrite (stands_checker _ _ _ Hst).
  pose proof Hst as (Hun & Hc & Hs & Hrt). rewrite Hc.
  cbn [checkerAt LeaderChecker.dist
       DistributionManager.ChannelsByCollectionAndNode].
  apply (sim_forRange (delegatorAt (Shared.State.heap st)) I); [done|].
  clear tasks tasks' st1 w Hst Htasks Hun Hc Hs Hrt.
  intros d tasks tasks' st1 w Hd [Hst Htasks].
  destruct (Hviews _ _ _ Hd) as (v0 & Hv0 & Hsegs & Hvers).
  unfold delegatorAt, viewAt. rewrite Hv0. cbn [Delegator.View].
  eapply sim_left; [apply run_derefView; by eapply stands_view|].
  apply sim_reads. rewrite (stands_checker _ _ _ Hst).
  pose proof Hst as (Hun & Hc & Hs & Hrt). rewrite Hc.
  unfold viewOf at 1.
  cbn [checkerAt LeaderChecker.dist LeaderView.Channel
       DistributionManager.SegmentsByChannelAndReplica].
  apply sim_bind. eapply sim_mono.
  { apply sim_frames; [apply frames_findNeedLoadedSegments|].
    by apply (sim_findNeedLoadedSegments st). }
  intros loaded loaded' st2 w2 [[Hst2 Hloaded] Hun2].
  apply sim_bind. eapply sim_mono.
  { apply sim_frames; [apply frames_findNeedRemovedSegments|].
    by apply (sim_findNeedRemovedSegments st). }
  intros removed removed' st3 w3 [[Hst3 Hremoved] Hun3].
  apply sim_bind. eapply sim_mono.
  { apply sim_frames; [apply frames_findNeedSyncPartitionStats|].
    apply (sim_findNeedSyncPartitionStats st); [done | done | | done].
    intros collectionID' channel d' Hd'. by eapply Hchannels. }
  intros synced synced' st4 w4 [[Hst4 Hsynced] Hun4].
  apply sim_ret. split; [done|].
  destruct Hun2 as (_ & _ & Hh2), Hun3 as (_ & _ & Hh3),
    Hun4 as (_ & _ & Hh4).
  repeat apply tasksAt_app; [| done.. | done].
  eapply tasksAt_mono; [|exact Htasks]. by do 2 (etrans; [eassumption|]).
Qed.

(** ** What the readers show afterwards *)

Lemma viewAt_mono h h' l :
  h ⊆ h' → Shared.holdsView h l → viewAt h' l = viewAt h l.
Proof.
  intros Hh (v & Hv & Hsegs & Hvers). unfold viewAt, viewOf.
  rewrite (lookup_weaken _ _ _ _ Hv Hh), Hv.
  by rewrite (segmentsAt_mono h h'), (versionsAt_mono h h').
Qed.

Lemma untouched_sameAnswers st st' :
  Shared.wellFormed st → Shared.untouched st st' → sameAnswers st st'.
Proof.
  intros [Hviews Hchannels] (Hc & Hs & Hh).
  unfold sameAnswers, snapshot. cbn. rewrite Hc.
  split_and!; try done.
  - intros collectionID node. apply list_fmap_ext. intros i d Hd.
    unfold delegatorAt. f_equal. apply viewAt_mono; [done|].
    eapply Hviews. by eapply list_elem_of_lookup_2.
  - intros collectionID channel scope.
    destruct (Shared.TargetManager.GetDmChannel _ _ _ _) as [d|] eqn:Hd;
      [|done].
    cbn. unfold channelAt. do 2 f_equal. apply versionsAt_mono; [done|].
    by eapply Hchannels.
Qed.

(** C9.  [Check] and the three sub-diffs, run on a heap in which leader
    views, routing tables and version maps are shared objects, touch none
    of them: whenever one of the four returns, the checker's fields and
    every object that was on the heap are as they were, at the same
    addresses; the maps the sub-diffs write to are the ones they have made
    themselves.  When the references the managers hand out are those of a
    running coordinator, the four do return; every query of the three
    readers then has the answer it had before, and what [Check] returns is
    the proposed task list, the one the loop of the first part computes
    on the snapshot the heap stands for. *)
Theorem Check_touches_nothing :
  (Shared.frames Shared.Check
   ∧ (∀ replica leaderView dist,
        Shared.frames (Shared.findNeedLoadedSegments replica leaderView dist))
   ∧ (∀ replica leaderView dists,
        Shared.frames (Shared.findNeedRemovedSegments replica leaderView dists))
   ∧ (∀ replica leaderView nodeID,
        Shared.frames
          (Shared.findNeedSyncPartitionStats replica leaderView nodeID)))
  ∧ (∀ st, Shared.wellFormed st →
           Shared.returns Shared.Check st
             (λ tasks st',
                Shared.untouched st st'
                ∧ sameAnswers st st'
                ∧ taskAt (Shared.State.heap st') <$> tasks
                  = (Check (snapshot st)).1))
  ∧ (∀ st replica leaderView dist,
       Shared.holdsView (Shared.State.heap st) leaderView →
       Shared.returns (Shared.findNeedLoadedSegments replica leaderView dist) st
         (λ _ st', Shared.untouched st st')
       ∧ Shared.returns (Shared.findNeedRemovedSegments replica leaderView dist)
           st (λ _ st', Shared.untouched st st'))
  ∧ (∀ st replica leaderView nodeID,
       Shared.holdsView (Shared.State.heap st) leaderView →
       (∀ collectionID channel d,
          Shared.TargetManager.GetDmChannel
            (Shared.LeaderChecker.target (Shared.State.checker st))
            collectionID channel CurrentTarget = Some d →
          Shared.holdsVersions (Shared.State.heap st)
            (Shared.DmChannel.PartitionStatsVersions d)) →
       Shared.returns
         (Shared.findNeedSyncPartitionStats replica leaderView nodeID) st
         (λ _ st', Shared.untouched st st')).
Proof.
  split; [split_and!|split_and!].
  - apply triple_frames. intros st0. by apply triple_Check.
  - apply frames_findNeedLoadedSegments.
  - apply frames_findNeedRemovedSegments.
  - apply frames_findNeedSyncPartitionStats.
  - intros st Hwf.
    destruct (sim_Check st st (snapshot st) Hwf)
      as (tasks & st' & Hrun & (Hun & _) & _ & Htasks).
    { split; [apply untouched_refl | done]. }
    exists tasks, st'. split; [done|].
    split_and!; [done | by apply untouched_sameAnswers | done].
  - intros st replica leaderView dist Hview. split; apply triple_returns.
    + by apply triple_findNeedLoadedSegments.
    + by apply triple_findNeedRemovedSegments.
  - intros st replica leaderView nodeID Hview Htarget. apply triple_returns.
    by apply triple_findNeedSyncPartitionStats.
Qed.

Lemma Check_touches_nothing_witness :
  Shared.wellFormed Shared.ex_state
  ∧ Shared.returns Shared.Check Shared.ex_state
      (λ tasks st',
         Shared.untouched Shared.ex_state st'
         ∧ sameAnswers Shared.ex_state st'
         ∧ taskAt (Shared.State.heap st') <$> tasks
           = (Check (snapshot Shared.ex_state)).1).
Proof.
  assert (Shared.wellFormed Shared.ex_state) as Hwf.
  { split.
    - intros collectionID node d Hd. cbn in Hd.
      destruct (bool_decide _); [|by apply elem_of_nil in Hd].
      apply list_elem_of_singleton in Hd as ->.
      eexists. split; [by vm_compute|].
      split; eexists; by vm_compute.
    - intros collectionID channel scope d Hd. cbn in Hd.
      destruct (bool_decide _); [|discriminate].
      injection Hd as <-. eexists. by vm_compute. }
  split; [exact Hwf|].
  exact (proj1 (proj2 Check_touches_nothing) Shared.ex_state Hwf).
Defined.

(** X10.  The two embeddings agree on the sub-diffs.  Each sub-diff over
    shared objects returns, and its tasks, each with the batch its action
    refers to, are the tasks the sub-diff of the first part returns for
    the view the pointer points to, on the snapshot the heap stands
    for. *)
Theorem Shared_subdiffs_refine st replica leaderView dist nodeID :
  Shared.holdsView (Shared.State.heap st) leaderView →
  (∀ collectionID channel d,
     Shared.TargetManager.GetDmChannel
       (Shared.LeaderChecker.target (Shared.State.checker st))
       collectionID channel CurrentTarget = Some d →
     Shared.holdsVersions (Shared.State.heap st)
       (Shared.DmChannel.PartitionStatsVersions d)) →
  let w := snapshot st in
  let lv := viewAt (Shared.State.heap st) leaderView in
  (∃ tasks st',
     Shared.findNeedLoadedSegments replica leaderView dist st
     = Some (tasks, st')
     ∧ taskAt (Shared.State.heap st') <$> tasks
       = (findNeedLoadedSegments replica lv dist w).1)
  ∧ (∃ tasks st',
       Shared.findNeedRemovedSegments replica leaderView dist st
       = Some (tasks, st')
       ∧ taskAt (Shared.State.heap st') <$> tasks
         = (findNeedRemovedSegments replica lv dist w).1)
  ∧ (∃ tasks st',
       Shared.findNeedSyncPartitionStats replica leaderView nodeID st
       = Some (tasks, st')
       ∧ taskAt (Shared.State.heap st') <$> tasks
         = (findNeedSyncPartitionStats replica lv nodeID w).1).
Proof.
  intros (v0 & Hv0 & Hsegs & Hvers) Htarget w lv.
  assert (stands st st w) as Hst by (split; [apply untouched_refl | done]).
  subst lv. unfold viewAt. rewrite Hv0. split_and!.
  - destruct (sim_findNeedLoadedSegments st st w replica leaderView v0 dist
                Hv0 Hsegs Hst) as (tasks & st' & Hrun & _ & Htasks).
    exists tasks, st'. split; [done|]. apply (Htasks (Shared.State.heap st')).
  - destruct (sim_findNeedRemovedSegments st st w replica leaderView v0 dist
                Hv0 Hsegs Hst) as (tasks & st' & Hrun & _ & Htasks).
    exists tasks, st'. split; [done|]. apply (Htasks (Shared.State.heap st')).
  - destruct (sim_findNeedSyncPartitionStats st st w replica leaderView v0
                nodeID Hv0 Hvers Htarget Hst)
      as (tasks & st' & Hrun & _ & _ & Htasks).
    by exists tasks, st'.
Qed.

Lemma Shared_subdiffs_refine_witness :
  Shared.holdsView (Shared.State.heap Shared.ex_state) 1%positive
  ∧ ∃ tasks st',
      Shared.findNeedSyncPartitionStats ex_replica 1%positive 1 Shared.ex_state
      = Some (tasks, st')
      ∧ taskAt (Shared.State.heap st') <$> tasks
        = (findNeedSyncPartitionStats ex_replica
             (viewAt (Shared.State.heap Shared.ex_state) 1%positive) 1
             (snapshot Shared.ex_state)).1.
Proof.
  assert (Shared.holdsView (Shared.State.heap Shared.ex_state) 1%positive)
    as Hview.
  { eexists. split; [by vm_compute|]. split; eexists; by vm_compute. }
  assert (∀ collectionID channel d,
            Shared.TargetManager.GetDmChannel
              (Shared.LeaderChecker.target
                 (Shared.State.checker Shared.ex_state))
              collectionID channel CurrentTarget = Some d →
            Shared.holdsVersions (Shared.State.heap Shared.ex_state)
              (Shared.DmChannel.PartitionStatsVersions d)) as Htarget.
  { intros collectionID channel d Hd. cbn in Hd.
    destruct (bool_decide _); [|discriminate].
    injection Hd as <-. eexists. by vm_compute. }
  split; [exact Hview|].
  exact (proj2 (proj2 (Shared_subdiffs_refine Shared.ex_state ex_replica
                         1%positive ex_dist 1 Hview Htarget))).
Defined.

(** The heap cluster stands for the small cluster of the first part: the
    loop returns the same four tasks on both. *)
Example Shared_small_cluster :
  (Check (snapshot Shared.ex_state)).1 = (Check ex_world).1.
Proof. by vm_compute. Qed.
